(** * The tooltip engine: visibility state machine, triggers and options

    A shallow embedding of the tooltip sources of the repository:
    - [website/src/components/Framework.js] (the bundled engine: [Tippy]
      class, [_enter], [_leave], [createTrigger], [getIndividualOptions],
      [cursorIsOutsideInteractiveBorder], the follow-cursor listener);
    - [src/js/utils.js] ([addEventListeners], [getDataAttributeOptions],
      [polyfillVirtualReferenceProps], [cursorIsOutsideInteractiveBorder]);
    - [src/js/reference.js] ([getDataAttributeOptions],
      [polyfillElementPrototypeProperties]);
    - the factory [tippy(targets, suppliedOptions, one)].

    Conventions.  JavaScript numbers that are pixel counts or millisecond
    delays are integers ([Z]); the numbers that strings write are doubles.
    An object used as a dictionary is a [gmap] of its own properties
    together with its prototype, [Object.prototype] unless said otherwise:
    reading a property and the operator [in] also see the inherited names.
    An exception is the [Throw] case of [result].  The caller's
    hooks [onShow], [onShown], [onHide] and [onHidden] are recorded in a
    trace and otherwise do nothing; the [wait] hook, whose purpose is to
    decide when [show] runs, either calls [show] at once or keeps it.
    Calls into the document that the engine never reads back (styles,
    class lists, [focus()]) are left out.  Timers, animation frames, the
    positioning engine's updates and the end of a CSS transition are steps
    of the page, taken between two calls of the engine. *)

From Stdlib Require Import ZArith Lia List Bool Ascii String.
From stdpp Require Import gmap strings list.
Import ListNotations.
Local Open Scope Z_scope.
Local Set Warnings "-register-all".

(* ===================================================================== *)
(** * Part I: definitions                                                 *)
(* ===================================================================== *)

(** ** JavaScript values, exceptions and string helpers *)
Module JS.

Inductive JsError : Type :=
| ReferenceError (name : string)
| TypeError (msg : string)
| SyntaxError (msg : string)
| Error (msg : string).

(** The outcome of a call: a returned value or a thrown exception. *)
Inductive result (A : Type) : Type :=
| Ok (a : A)
| Throw (e : JsError).
Arguments Ok {A} a.
Arguments Throw {A} e.

Definition bind {A B} (r : result A) (k : A -> result B) : result B :=
  match r with
  | Ok a => k a
  | Throw e => Throw e
  end.

Definition returns {A} (r : result A) : Prop :=
  match r with Ok _ => True | Throw _ => False end.

(** [s.split(sep)[0]] for a one-character separator. *)
Fixpoint beforeChar (sep : ascii) (s : string) : string :=
  match s with
  | EmptyString => EmptyString
  | String c s' => if Ascii.eqb c sep then EmptyString
                   else String c (beforeChar sep s')
  end.

(** Line terminators, which the regular-expression dot does not match. *)
Definition isLineTerminator (c : ascii) : bool :=
  Ascii.eqb c "010"%char || Ascii.eqb c "013"%char.

Fixpoint fromLineTerminator (s : string) : string :=
  match s with
  | EmptyString => EmptyString
  | String c s' => if isLineTerminator c then s else fromLineTerminator s'
  end.

(** [s.replace(/-.+/, '')]: the first dash that is followed by at least
    one character of the same line is removed together with the rest of
    that line. *)
Fixpoint replaceDashRest (s : string) : string :=
  match s with
  | EmptyString => EmptyString
  | String c s' =>
      if Ascii.eqb c "-"%char then
        match s' with
        | EmptyString => String c EmptyString
        | String d _ =>
            if isLineTerminator d then String c (replaceDashRest s')
            else fromLineTerminator s'
        end
      else String c (replaceDashRest s')
  end.

(** White space as [String.prototype.trim] and the numeric grammar see
    it, restricted to the ASCII range: TAB, LF, VT, FF, CR and SPACE. *)
Definition isWhiteSpace (c : ascii) : bool :=
  let n := nat_of_ascii c in
  ((9 <=? n)%nat && (n <=? 13)%nat) || (n =? 32)%nat.

Fixpoint trimStart (s : string) : string :=
  match s with
  | EmptyString => EmptyString
  | String c s' => if isWhiteSpace c then trimStart s' else s
  end.

Fixpoint trimEnd (s : string) : string :=
  match s with
  | EmptyString => EmptyString
  | String c s' =>
      let t := trimEnd s' in
      if isWhiteSpace c && String.eqb t EmptyString then EmptyString
      else String c t
  end.

(** [s.trim()] *)
Definition trim (s : string) : string := trimEnd (trimStart s).

(** [s[0]] and [s.charAt(0)] compared with a one-character string. *)
Definition firstCharIs (c : ascii) (s : string) : bool :=
  match s with
  | String d _ => Ascii.eqb d c
  | EmptyString => false
  end.

(** [s.split(sep)] for a one-character separator: consecutive separators
    give empty pieces, and the empty string gives one empty piece. *)
Fixpoint split (sep : ascii) (s : string) : list string :=
  match s with
  | EmptyString => [EmptyString]
  | String c s' =>
      if Ascii.eqb c sep then EmptyString :: split sep s'
      else match split sep s' with
           | piece :: rest => String c piece :: rest
           | [] => [String c EmptyString]
           end
  end.

(** Numbers are IEEE 754 doubles: not-a-number, the two infinities,
    negative zero, and [Fin m e], the number [m * 2^e].  A double has one
    such form: [e] is [0] when the number is an integer, and otherwise [e]
    is negative and [m] is odd. *)
Inductive jsnum : Type :=
| NaN
| Infinity (negative : bool)
| NegZero
| Fin (m : Z) (e : Z).

Inductive value : Type :=
| VUndefined
| VNull
| VBool (b : bool)
| VNum (n : jsnum)
| VStr (s : string)
| VArr (items : list value)
| VObj (props : list (string * value))
| VFun (name : string).

(** *** Objects

    An ordinary object has own properties and a prototype.  [obj[key]] and
    [key in obj] look at the own properties first and then along the
    prototypes; [obj[key] = v] and [delete obj[key]] change the own
    properties, except that the name [__proto__] reaches the accessor of
    [Object.prototype], which reads and replaces the prototype.  The
    objects are extensible and their properties are plain data; nobody
    has changed [Object.prototype]. *)

(** The properties of [Object.prototype]; [__proto__] is the accessor,
    listed with what it reads on [Object.prototype] itself. *)
Definition objectPrototypeProps : list (string * value) :=
  [ ("constructor", VFun "Object");
    ("__defineGetter__", VFun "__defineGetter__");
    ("__defineSetter__", VFun "__defineSetter__");
    ("hasOwnProperty", VFun "hasOwnProperty");
    ("__lookupGetter__", VFun "__lookupGetter__");
    ("__lookupSetter__", VFun "__lookupSetter__");
    ("isPrototypeOf", VFun "isPrototypeOf");
    ("propertyIsEnumerable", VFun "propertyIsEnumerable");
    ("toString", VFun "toString");
    ("valueOf", VFun "valueOf");
    ("__proto__", VNull);
    ("toLocaleString", VFun "toLocaleString") ]%string.

Definition objectPrototypeKeys : list string := map fst objectPrototypeProps.

(** A prototype: [Object.prototype], [null], an ordinary object given by
    its own properties (as in [VObj]) and its own prototype, or an array
    or a function. *)
Inductive Proto : Type :=
| ObjectPrototype
| NullPrototype
| Inherits (props : list (string * value)) (parent : Proto)
| Exotic (v : value).

Record Obj : Type := { own : gmap string value; proto : Proto }.

(** Neither the prototype nor one of its ancestors is an array or a
    function. *)
Fixpoint ordinary (p : Proto) : bool :=
  match p with
  | ObjectPrototype | NullPrototype => true
  | Inherits _ parent => ordinary parent
  | Exotic _ => false
  end.

(** The object that [{}] or an object literal with these properties
    makes. *)
Definition literal (props : gmap string value) : Obj :=
  {| own := props; proto := ObjectPrototype |}.

Definition lookupProps (props : list (string * value)) (key : string)
  : option value :=
  match List.find (fun kv => String.eqb (fst kv) key) props with
  | Some kv => Some (snd kv)
  | None => None
  end.

(** What the host says about an object that inherits from an array or a
    function [v]: what reading the name gives ([None] when neither [v] nor
    its prototypes have it; an accessor may throw), and whether an
    assignment to the name adds an own property (it does not when the
    name is inherited read-only; strict code then throws). *)
Record Host : Type :=
  { builtin : value -> string -> option (result value);
    assignable : value -> string -> bool }.

Section Host.
Variable host : Host.

(** The property that a prototype and its ancestors give to the name. *)
Fixpoint inherited (p : Proto) (key : string) : option (result value) :=
  match p with
  | ObjectPrototype =>
      match lookupProps objectPrototypeProps key with
      | Some v => Some (Ok v)
      | None => None
      end
  | NullPrototype => None
  | Inherits props parent =>
      match lookupProps props key with
      | Some v => Some (Ok v)
      | None => inherited parent key
      end
  | Exotic v => builtin host v key
  end.

(** Whether an assignment to a name that is not an own property adds
    one. *)
Fixpoint extends (p : Proto) (key : string) : bool :=
  match p with
  | ObjectPrototype | NullPrototype => true
  | Inherits props parent =>
      match lookupProps props key with
      | Some _ => true
      | None => extends parent key
      end
  | Exotic v => assignable host v key
  end.

(** Whether the name [__proto__] reaches the accessor of
    [Object.prototype] from this prototype. *)
Fixpoint reachesAccessor (p : Proto) : bool :=
  match p with
  | ObjectPrototype => true
  | NullPrototype => false
  | Inherits props parent =>
      match lookupProps props "__proto__" with
      | Some _ => false
      | None => reachesAccessor parent
      end
  | Exotic _ => true
  end.

(** A prototype as a value. *)
Definition protoValue (p : Proto) : value :=
  match p with
  | ObjectPrototype => VObj objectPrototypeProps
  | NullPrototype => VNull
  | Inherits props _ => VObj props
  | Exotic v => v
  end.

(** A value as a prototype: an object or [null]; the accessor ignores
    every other value. *)
Definition asProto (v : value) : option Proto :=
  match v with
  | VNull => Some NullPrototype
  | VObj props => Some (Inherits props ObjectPrototype)
  | VArr _ | VFun _ => Some (Exotic v)
  | VUndefined | VBool _ | VNum _ | VStr _ => None
  end.

(** Whether [obj.__proto__] is the accessor. *)
Definition throughAccessor (obj : Obj) (key : string) : bool :=
  String.eqb key "__proto__"
  && match own obj !! key with Some _ => false | None => true end
  && reachesAccessor (proto obj).

(** [obj[key]]: a missing property reads [undefined]. *)
Definition readProp (obj : Obj) (key : string) : result value :=
  match own obj !! key with
  | Some v => Ok v
  | None =>
      if throughAccessor obj key then Ok (protoValue (proto obj))
      else match inherited (proto obj) key with
           | Some r => r
           | None => Ok VUndefined
           end
  end.

(** [key in obj] *)
Definition inOperator (obj : Obj) (key : string) : bool :=
  match own obj !! key with
  | Some _ => true
  | None => match inherited (proto obj) key with
            | Some _ => true
            | None => false
            end
  end.

(** [obj[key] = v] in strict code. *)
Definition writeProp (obj : Obj) (key : string) (v : value) : result Obj :=
  if throughAccessor obj key then
    match asProto v with
    | Some p => Ok {| own := own obj; proto := p |}
    | None => Ok obj
    end
  else
    match own obj !! key with
    | Some _ => Ok {| own := <[key := v]> (own obj); proto := proto obj |}
    | None =>
        if extends (proto obj) key
        then Ok {| own := <[key := v]> (own obj); proto := proto obj |}
        else Throw (TypeError ("Cannot assign to read only property "
                               +:+ key))
    end.

(** [delete obj[key]] *)
Definition deleteProp (obj : Obj) (key : string) : Obj :=
  {| own := delete key (own obj); proto := proto obj |}.
End Host.

(** [obj[key]] and [key in obj] on an object that inherits from
    [Object.prototype], given by its own properties. *)
Definition getProp (obj : gmap string value) (key : string) : value :=
  match obj !! key with
  | Some v => v
  | None =>
      if String.eqb key "__proto__" then VObj objectPrototypeProps
      else match lookupProps objectPrototypeProps key with
           | Some v => v
           | None => VUndefined
           end
  end.

Definition hasProp (obj : gmap string value) (key : string) : bool :=
  match obj !! key with
  | Some _ => true
  | None => match lookupProps objectPrototypeProps key with
            | Some _ => true
            | None => false
            end
  end.

(** [!!v] *)
Definition truthy (v : value) : bool :=
  match v with
  | VUndefined | VNull => false
  | VBool b => b
  | VNum NaN | VNum NegZero => false
  | VNum (Fin m _) => negb (m =? 0)
  | VNum (Infinity _) => true
  | VStr s => negb (String.eqb s EmptyString)
  | VArr _ | VObj _ | VFun _ => true
  end.

End JS.

(** ** Interactive border ([cursorIsOutsideInteractiveBorder]) *)
Module Geometry.

(** [popper.getBoundingClientRect()] *)
Record Rect : Type := { top : Z; bottom : Z; left : Z; right : Z }.

(** The fields of a mouse event that the functions read. *)
Record MouseEvent : Type := { clientX : Z; clientY : Z }.

(** The popper element as far as the predicate reads it:
    [getAttribute('x-placement')] ([None] is [null]) and its box. *)
Record Popper : Type :=
  { x_placement : option string; boundingClientRect : Rect }.

Record Options : Type := { interactiveBorder : Z; distance : Z }.

(** JavaScript truthiness of [getAttribute(...)]. *)
Definition truthyAttr (a : option string) : bool :=
  match a with
  | None => false
  | Some s => negb (String.eqb s "")
  end.

(** [utils.js]: [popper.getAttribute('x-placement').split('-')[0]] *)
Definition getPopperPlacement_utils (attr : string) : string :=
  JS.beforeChar "-"%char attr.

(** [Framework.js]:
    [popper.getAttribute('x-placement').replace(/-.+/, '')] *)
Definition getPopperPlacement (attr : string) : string :=
  JS.replaceDashRest attr.

(** The object literal [exceeds]. *)
Record Exceeds : Type :=
  { ex_top : bool; ex_bottom : bool; ex_left : bool; ex_right : bool }.

Section Border.
(** Either revision of [getPopperPlacement]. *)
Variable placementOf : string -> string.

Definition cursorIsOutsideInteractiveBorder_with
    (event : MouseEvent) (popper : Popper) (options : Options) : bool :=
  if negb (truthyAttr (x_placement popper)) then true
  else
    let x := clientX event in
    let y := clientY event in
    let interactiveBorder := interactiveBorder options in
    let distance := distance options in
    let rect := boundingClientRect popper in
    let placement :=
      placementOf (match x_placement popper with
                   | Some a => a | None => EmptyString end) in
    let borderWithDistance := (interactiveBorder + distance)%Z in
    let exceeds :=
      {| ex_top := (interactiveBorder <? top rect - y)%Z;
         ex_bottom := (interactiveBorder <? y - bottom rect)%Z;
         ex_left := (interactiveBorder <? left rect - x)%Z;
         ex_right := (interactiveBorder <? x - right rect)%Z |} in
    let exceeds :=
      if String.eqb placement "top" then
        {| ex_top := (borderWithDistance <? top rect - y)%Z;
           ex_bottom := ex_bottom exceeds;
           ex_left := ex_left exceeds;
           ex_right := ex_right exceeds |}
      else if String.eqb placement "bottom" then
        {| ex_top := ex_top exceeds;
           ex_bottom := (borderWithDistance <? y - bottom rect)%Z;
           ex_left := ex_left exceeds;
           ex_right := ex_right exceeds |}
      else if String.eqb placement "left" then
        {| ex_top := ex_top exceeds;
           ex_bottom := ex_bottom exceeds;
           ex_left := (borderWithDistance <? left rect - x)%Z;
           ex_right := ex_right exceeds |}
      else if String.eqb placement "right" then
        {| ex_top := ex_top exceeds;
           ex_bottom := ex_bottom exceeds;
           ex_left := ex_left exceeds;
           ex_right := (borderWithDistance <? x - right rect)%Z |}
      else exceeds in
    ex_top exceeds || ex_bottom exceeds || ex_left exceeds
    || ex_right exceeds.
End Border.

(** [Framework.js], lines 572-608. *)
Definition cursorIsOutsideInteractiveBorder :=
  cursorIsOutsideInteractiveBorder_with getPopperPlacement.

(** [utils.js], lines 580-613. *)
Definition cursorIsOutsideInteractiveBorder_utils :=
  cursorIsOutsideInteractiveBorder_with getPopperPlacement_utils.

(** The four sides of the box, and what the interactive-border rule says
    in words: how far the cursor lies beyond a side, and the margin that
    side tolerates. *)
Inductive Side : Type := Top | Bottom | Left | Right.

Definition sideName (s : Side) : string :=
  match s with
  | Top => "top" | Bottom => "bottom" | Left => "left" | Right => "right"
  end.

Definition beyond (s : Side) (event : MouseEvent) (rect : Rect) : Z :=
  match s with
  | Top => top rect - clientY event
  | Bottom => clientY event - bottom rect
  | Left => left rect - clientX event
  | Right => clientX event - right rect
  end.

Definition side_eqb (a b : Side) : bool :=
  match a, b with
  | Top, Top | Bottom, Bottom | Left, Left | Right, Right => true
  | _, _ => false
  end.

Definition threshold (placement s : Side) (options : Options) : Z :=
  if side_eqb s placement
  then interactiveBorder options + distance options
  else interactiveBorder options.

End Geometry.

(** ** Follow-cursor positioning ([_setFollowCursorListener]) *)
Module FollowCursor.

Definition PADDING : Z := 5.

(** [Math.round(n / 2)] for an integer [n] (halves round upwards). *)
Definition roundHalf (n : Z) : Z := (n + 1) / 2.

(** What the listener reads from the document, the popper, the options
    and the event. *)
Record Input : Type :=
  { lastTriggerIsFocus : bool;
      (* lastTriggerEvent && lastTriggerEvent.type === 'focus' *)
    documentElementOffsetWidth : Z;
    bodyOffsetWidth : Z;
    popperOffsetWidth : Z;
    popperOffsetHeight : Z;
    offset : Z;
    optionsPlacement : string;
    popperPlacementAttr : option string;
    pageX : Z;
    pageY : Z }.

(** [a || b] on numbers. *)
Definition orElse (a b : Z) : Z := if (a =? 0)%Z then b else a.

Definition pageWidth (i : Input) : Z :=
  orElse (documentElementOffsetWidth i) (bodyOffsetWidth i).

Definition placement (i : Input) : string :=
  if Geometry.truthyAttr (popperPlacementAttr i)
  then Geometry.getPopperPlacement
         (match popperPlacementAttr i with
          | Some a => a | None => EmptyString end)
  else JS.replaceDashRest (optionsPlacement i).

(** The coordinates written into [translate3d(x px, y px, 0)];
    [None] is [undefined] (no [case] of the [switch] matched). *)
Record Position : Type := { pos_x : option Z; pos_y : option Z }.

(** The listener body; [None] when it returns before positioning. *)
Definition followCursorListener (i : Input) : option Position :=
  if lastTriggerIsFocus i then None
  else
    let pageWidth := pageWidth i in
    let halfPopperWidth := roundHalf (popperOffsetWidth i) in
    let halfPopperHeight := roundHalf (popperOffsetHeight i) in
    let offset := offset i in
    let pageX := pageX i in
    let pageY := pageY i in
    let placement := placement i in
    let xy :=
      if String.eqb placement "top" then
        (Some (pageX - halfPopperWidth + offset),
         Some (pageY - 2 * halfPopperHeight))
      else if String.eqb placement "bottom" then
        (Some (pageX - halfPopperWidth + offset), Some (pageY + 10))
      else if String.eqb placement "left" then
        (Some (pageX - 2 * halfPopperWidth),
         Some (pageY - halfPopperHeight + offset))
      else if String.eqb placement "right" then
        (Some (pageX + 5), Some (pageY - halfPopperHeight + offset))
      else (None, None) in
    let isRightOverflowing :=
      (pageWidth <? pageX + PADDING + halfPopperWidth + offset)%Z in
    let isLeftOverflowing :=
      (pageX - PADDING - halfPopperWidth + offset <? 0)%Z in
    let x :=
      if String.eqb placement "top" || String.eqb placement "bottom" then
        let x1 := if isRightOverflowing
                  then Some (pageWidth - PADDING - 2 * halfPopperWidth)
                  else fst xy in
        if isLeftOverflowing then Some PADDING else x1
      else fst xy in
    Some {| pos_x := x; pos_y := snd xy |}.

End FollowCursor.

(** ** Virtual references: the two polyfills *)
Module VirtualReference.
Import JS.

(** A plain object handed to the factory in place of an element.  The
    polyfills read one property of it, [attributes] ([None] when the
    caller's object has none). *)
Record PlainObject : Type :=
  { po_attributes : option Obj }.

Section Host.
Variable host : Host.

(** *** [reference.js]: [polyfillElementPrototypeProperties]

    The function copies the polyfills onto the caller's object itself;
    afterwards the object has [isVirtual], [attributes] (the caller's, or
    a fresh empty object) and [classList.classNames], and the methods
    below, which read and write those two dictionaries. *)
Record Polyfilled : Type :=
  { isVirtual : bool;
    attributes : Obj;
    classNames : Obj }.

Definition polyfillElementPrototypeProperties (virtualReference : PlainObject)
  : Polyfilled :=
  {| isVirtual := true;
     attributes := match po_attributes virtualReference with
                   | Some a => a
                   | None => literal ∅
                   end;
     classNames := literal ∅ |}.

(** [virtualReference.attributes[key] = value] *)
Definition setAttribute (key : string) (v : value) (r : Polyfilled)
  : result Polyfilled :=
  bind (writeProp host (attributes r) key v) (fun a =>
  Ok {| isVirtual := isVirtual r;
        attributes := a;
        classNames := classNames r |}).

(** [return virtualReference.attributes[key]] *)
Definition getAttribute (key : string) (r : Polyfilled) : result value :=
  readProp host (attributes r) key.

(** [delete virtualReference.attributes[key]] *)
Definition removeAttribute (key : string) (r : Polyfilled)
  : result Polyfilled :=
  Ok {| isVirtual := isVirtual r;
        attributes := deleteProp (attributes r) key;
        classNames := classNames r |}.

(** [return key in virtualReference.attributes] *)
Definition hasAttribute (key : string) (r : Polyfilled) : result bool :=
  Ok (inOperator host (attributes r) key).

(** [addEventListener() {}] and [removeEventListener() {}] *)
Definition addEventListener (eventType : string) (r : Polyfilled)
  : result Polyfilled := Ok r.
Definition removeEventListener (eventType : string) (r : Polyfilled)
  : result Polyfilled := Ok r.

(** [virtualReference.classList.classNames[key] = true] *)
Definition classList_add (key : string) (r : Polyfilled)
  : result Polyfilled :=
  bind (writeProp host (classNames r) key (VBool true)) (fun c =>
  Ok {| isVirtual := isVirtual r;
        attributes := attributes r;
        classNames := c |}).

(** [delete virtualReference.classList.classNames[key]] *)
Definition classList_remove (key : string) (r : Polyfilled)
  : result Polyfilled :=
  Ok {| isVirtual := isVirtual r;
        attributes := attributes r;
        classNames := deleteProp (classNames r) key |}.

(** [return key in virtualReference.classList.classNames] *)
Definition classList_contains (key : string) (r : Polyfilled)
  : result bool :=
  Ok (inOperator host (classNames r) key).

(** *** [utils.js]: [polyfillVirtualReferenceProps]

    This revision returns a new object [reference] and leaves the
    caller's object as it was.  The closures it creates mention three
    variables: [reference] (the new object), [virtualReference] (the
    caller's object) and [out].  [reference.attributes] is the caller's
    [attributes] object when there is one (the same object, so a change
    through one name is seen through the other), else a fresh one. *)
Record PolyfilledUtils : Type :=
  { u_isVirtual : bool;
    u_attributes : Obj;
      (* the object that [reference.attributes] names *)
    u_argHasAttributes : bool;
      (* whether [virtualReference.attributes] names that object too;
         otherwise it is [undefined] *)
    u_classNames : Obj }.

Definition polyfillVirtualReferenceProps (virtualReference : PlainObject)
  : PolyfilledUtils :=
  {| u_isVirtual := true;
     u_attributes := match po_attributes virtualReference with
                     | Some a => a
                     | None => literal ∅
                     end;
     u_argHasAttributes := match po_attributes virtualReference with
                           | Some _ => true
                           | None => false
                           end;
     u_classNames := literal ∅ |}.

(** The identifiers bound where the closures are created: the parameter,
    the local constant, the imports and the top-level constants of
    [utils.js]. *)
Definition utilsScope : list string :=
  [ "virtualReference"; "reference";
    "browser"; "isBrowser"; "defaults"; "selectors";
    "injectCSS"; "toArray"; "setAttr"; "setContent";
    "applyTransitionDuration"; "getInnerElements"; "isVirtualReference";
    "div"; "setInnerHTML"; "getArrayOfElements"; "isNumeric"; "getValue";
    "createPopperElement"; "hideAllPoppers"; "addEventListeners";
    "defaultsKeys"; "getDataAttributeOptions";
    "polyfillVirtualReferenceProps"; "matches"; "closest"; "focus";
    "resetPopperPosition"; "reflow"; "transformAxisBasedOnPlacement";
    "transformNumbersBasedOnPlacement"; "computeArrowTransform";
    "setVisibilityState"; "prefix"; "updatePopperPosition"; "defer";
    "cursorIsOutsideInteractiveBorder"; "getOffsetDistanceInPx";
    "getPopperPlacement"; "evaluateOptions" ].

Definition bound (name : string) : bool :=
  existsb (String.eqb name) utilsScope.

(** [setAttribute: (key, value) => { out.attributes[key] = value }].
    Reading an unbound identifier throws a [ReferenceError]. *)
Definition setAttribute_utils (key : string) (v : value)
    (r : PolyfilledUtils) : result PolyfilledUtils :=
  if bound "out" then
    Ok r (* the write would go to whatever [out] names *)
  else Throw (ReferenceError "out").

(** [getAttribute: key => virtualReference.attributes[key]].
    Reading a property of [undefined] throws a [TypeError]. *)
Definition getAttribute_utils (key : string) (r : PolyfilledUtils)
  : result value :=
  if u_argHasAttributes r then readProp host (u_attributes r) key
  else Throw (TypeError "virtualReference.attributes is undefined").

(** [removeAttribute: key => { delete virtualReference.attributes[key] }] *)
Definition removeAttribute_utils (key : string) (r : PolyfilledUtils)
  : result PolyfilledUtils :=
  if u_argHasAttributes r then
    Ok {| u_isVirtual := u_isVirtual r;
          u_attributes := deleteProp (u_attributes r) key;
          u_argHasAttributes := true;
          u_classNames := u_classNames r |}
  else Throw (TypeError "virtualReference.attributes is undefined").

(** The returned object has no [hasAttribute] property; calling
    [reference.hasAttribute(key)] calls [undefined]. *)
Definition hasAttribute_utils (key : string) (r : PolyfilledUtils)
  : result bool :=
  Throw (TypeError "reference.hasAttribute is not a function").

(** [add: key => { reference.classList.classNames[key] = true }] *)
Definition classList_add_utils (key : string) (r : PolyfilledUtils)
  : result PolyfilledUtils :=
  bind (writeProp host (u_classNames r) key (VBool true)) (fun c =>
  Ok {| u_isVirtual := u_isVirtual r;
        u_attributes := u_attributes r;
        u_argHasAttributes := u_argHasAttributes r;
        u_classNames := c |}).

(** [remove: key => { delete reference.classList.classNames[key] }] *)
Definition classList_remove_utils (key : string) (r : PolyfilledUtils)
  : result PolyfilledUtils :=
  Ok {| u_isVirtual := u_isVirtual r;
        u_attributes := u_attributes r;
        u_argHasAttributes := u_argHasAttributes r;
        u_classNames := deleteProp (u_classNames r) key |}.

(** [contains: key => !!reference.classList.classNames[key]] *)
Definition classList_contains_utils (key : string) (r : PolyfilledUtils)
  : result bool :=
  bind (readProp host (u_classNames r) key) (fun v => Ok (truthy v)).
End Host.

End VirtualReference.

(** ** Trigger wiring *)
Module Triggers.

(** *** [Framework.js]: [createTrigger] *)
Inductive Handler : Type := handleTrigger | handleMouseleave | handleBlur.

Record Listener : Type := { event : string; handler : Handler }.

(** [reference.addEventListener(e, h); listeners.push({event: e, handler: h})]:
    the first component is the list of registrations on the reference,
    the second the local array [listeners]. *)
Definition register (e : string) (h : Handler)
    (st : list Listener * list Listener) : list Listener * list Listener :=
  let l := {| event := e; handler := h |} in
  (fst st ++ [l], snd st ++ [l]).

(** [createTrigger(eventType, reference, handlers, touchHold)]; the state
    of the reference is its list of registered listeners, and
    [supportsTouch] is [browser.supportsTouch]. *)
Definition createTrigger (supportsTouch : bool) (eventType : string)
    (registered : list Listener) (touchHold : bool)
  : list Listener * list Listener :=
  let st := (registered, []) in
  if String.eqb eventType "manual" then st
  else
    let st := register eventType handleTrigger st in
    let st :=
      if String.eqb eventType "mouseenter" then
        let st :=
          if supportsTouch && touchHold then
            register "touchend" handleMouseleave
              (register "touchstart" handleTrigger st)
          else st in
        register "mouseleave" handleMouseleave st
      else st in
    if String.eqb eventType "focus" then register "blur" handleBlur st
    else st.

(** [options.trigger.trim().split(' ').reduce((acc, eventType) =>
      acc.concat(createTrigger(eventType, reference, listeners,
                               options.touchHold)), [])]
    from [createTooltips]. *)
Definition wireTriggers (supportsTouch : bool) (trigger : string)
    (touchHold : bool) (registered : list Listener)
  : list Listener * list Listener :=
  fold_left
    (fun st eventType =>
       let r := createTrigger supportsTouch eventType (fst st) touchHold in
       (fst r, snd st ++ snd r))
    (JS.split " "%char (JS.trim trigger))
    (registered, []).

(** *** [utils.js]: [addEventListeners] *)
Inductive HandlerU : Type :=
  onTrigger | onMouseLeave | onBlur | onDelegateShow | onDelegateHide.

Record ListenerU : Type := { eventType : string; handlerU : HandlerU }.

(** The state threaded through the [reduce]: the registrations on the
    reference and the array [listeners], which is declared once outside
    the callback and shared by all iterations. *)
Record WireState : Type :=
  { ws_registered : list ListenerU; ws_listeners : list ListenerU }.

(** [on(eventType, handler)] *)
Definition on (e : string) (h : HandlerU) (st : WireState) : WireState :=
  let l := {| eventType := e; handlerU := h |} in
  {| ws_registered := ws_registered st ++ [l];
     ws_listeners := ws_listeners st ++ [l] |}.

(** The first [switch]: no [case] ends in [break], so [mouseenter] runs
    on into the statements of [focus]. *)
Definition directSwitch (isIE : bool) (e : string) (st : WireState)
  : WireState :=
  let focusCase st := on (if isIE then "focusout" else "blur") onBlur st in
  if String.eqb e "mouseenter" then
    focusCase (on "mouseleave" onMouseLeave st)
  else if String.eqb e "focus" then focusCase st
  else st.

(** The second [switch], with the same fall-through. *)
Definition delegateSwitch (e : string) (st : WireState) : WireState :=
  let clickCase st := on e onDelegateShow st in
  let focusCase st :=
    clickCase (on "focusout" onDelegateHide (on "focusin" onDelegateShow st))
  in
  if String.eqb e "mouseenter" then
    focusCase (on "mouseout" onDelegateHide (on "mouseover" onDelegateShow st))
  else if String.eqb e "focus" then focusCase st
  else if String.eqb e "click" then clickCase st
  else st.

(** One step of the [reduce]: the new accumulator and the state. *)
Definition addEventListeners_step (isIE hasTarget : bool)
    (acc_st : list ListenerU * WireState) (e : string)
  : list ListenerU * WireState :=
  let (acc, st) := acc_st in
  if String.eqb e "manual" then (acc, st)
  else
    let st :=
      if negb hasTarget then directSwitch isIE e (on e onTrigger st)
      else delegateSwitch e st in
    (acc ++ ws_listeners st, st).

(** [addEventListeners(reference, options, handlers)]: the returned array
    and the registrations left on the reference.  [hasTarget] is the
    truthiness of [options.target] (delegated mode), [isIE] is
    [browser.isIE]. *)
Definition addEventListeners (isIE : bool) (registered : list ListenerU)
    (trigger : string) (hasTarget : bool)
  : list ListenerU * list ListenerU :=
  let r :=
    fold_left (addEventListeners_step isIE hasTarget)
      (JS.split " "%char (JS.trim trigger))
      ([], {| ws_registered := registered; ws_listeners := [] |}) in
  (fst r, ws_registered (snd r)).

End Triggers.

(** ** The factory [tippy(targets, suppliedOptions, one)] *)
Module Factory.
Import JS VirtualReference.

(** What a reference can be: a document element (named by a number), a
    polyfilled virtual reference, or a plain object nobody polyfilled. *)
Inductive Reference : Type :=
| RElement (node : nat)
| RVirtual (r : PolyfilledUtils)
| RPlainObject (o : PlainObject).

(** The first argument of [tippy]. *)
Inductive Targets : Type :=
| TElement (node : nat)
| TPlainObject (o : PlainObject)
| TVirtual (r : PolyfilledUtils)
| TNodeList (nodes : list nat)
| TArray (items : list Reference)
| TSelector (selector : string).

(** The module variable [eventListenersBound], how often
    [bindGlobalEventListeners] ran, and the instances that [createTippy]
    has built so far, oldest first. *)
Record World (Instance : Type) : Type :=
  { eventListenersBound : bool;
    globalBindings : nat;
    built : list Instance }.
Arguments eventListenersBound {Instance} w.
Arguments globalBindings {Instance} w.
Arguments built {Instance} w.

(** The object that [tippy] returns ([destroyAll] apart). *)
Record Collection (Instance : Type) : Type :=
  { c_targets : Targets;
    c_options : gmap string value;
    c_references : list Reference;
    c_instances : list Instance }.
Arguments c_targets {Instance} c.
Arguments c_options {Instance} c.
Arguments c_references {Instance} c.
Arguments c_instances {Instance} c.

Section Factory.
(** Three collaborators are not among the sources: the [Defaults]
    object of [./defaults] (its own properties; it inherits from
    [Object.prototype]), [createTippy] of [./createTippy], and the
    document behind [document.querySelectorAll] ([None] when the
    selector is rejected with an exception). *)
Variable Instance : Type.
Variable Defaults : gmap string value.
Variable createTippy : Reference -> gmap string value -> Instance.
Variable querySelectorAll : string -> option (list nat).

(** [getArrayOfElements] of [utils.js]. *)
Definition getArrayOfElements (v : Targets) : list Reference :=
  match v with
  | TElement n => [RElement n]
  | TPlainObject o => [RPlainObject o]
  | TVirtual r => [RVirtual r]
  | TNodeList nodes => map RElement nodes
  | TArray items => items
  | TSelector sel =>
      match querySelectorAll sel with
      | Some nodes => map RElement nodes
      | None => []
      end
  end.

(** The loop [for (const key in suppliedOptions || {})]: the first key
    that is not [in Defaults] throws. *)
Fixpoint validate (keys : list string) : result unit :=
  match keys with
  | [] => Ok tt
  | key :: rest =>
      if negb (hasProp Defaults key)
      then Throw (Error ("tippy: " +:+ key +:+ " is not a valid option"))
      else validate rest
  end.

(** [{ ...Defaults, ...suppliedOptions }] *)
Definition mergeOptions (supplied : list (string * value))
  : gmap string value :=
  fold_left (fun m kv => <[fst kv := snd kv]> m) supplied Defaults.

(** [references.map(reference => createTippy(reference, options))],
    each call adding the instance it builds to the world. *)
Fixpoint createAll (options : gmap string value) (refs : list Reference)
    (w : World Instance) : list Instance * World Instance :=
  match refs with
  | [] => ([], w)
  | r :: rest =>
      let i := createTippy r options in
      let w1 := {| eventListenersBound := eventListenersBound w;
                   globalBindings := globalBindings w;
                   built := built w ++ [i] |} in
      let (others, w2) := createAll options rest w1 in
      (i :: others, w2)
  end.

(** [suppliedOptions] is [None] when the argument is omitted, else the
    object's properties in enumeration order. *)
Definition tippy (targets : Targets)
    (suppliedOptions : option (list (string * value))) (one : bool)
    (w : World Instance) : result (Collection Instance) * World Instance :=
  let w :=
    if negb (eventListenersBound w) then
      {| eventListenersBound := true;
         globalBindings := S (globalBindings w);
         built := built w |}
    else w in
  let supplied := match suppliedOptions with
                  | Some o => o
                  | None => []
                  end in
  match validate (map fst supplied) with
  | Throw e => (Throw e, w)
  | Ok _ =>
      let options := mergeOptions supplied in
      let targets :=
        match targets with
        | TPlainObject o => TVirtual (polyfillVirtualReferenceProps o)
        | _ => targets
        end in
      let references := getArrayOfElements targets in
      let chosen :=
        match one, references with
        | true, firstReference :: _ => [firstReference]
        | _, _ => references
        end in
      let (instances, w) := createAll options chosen w in
      (Ok {| c_targets := targets;
             c_options := options;
             c_references := references;
             c_instances := instances |}, w)
  end.
End Factory.

End Factory.

(** ** Numbers written as strings *)
Module Numeric.
Import JS.

Definition isDigit (c : ascii) : bool :=
  let n := nat_of_ascii c in ((48 <=? n)%nat && (n <=? 57)%nat).

Definition digitValue (c : ascii) : Z := Z.of_nat (nat_of_ascii c) - 48.

(** The value of a hexadecimal digit, if [c] is one. *)
Definition hexDigit (c : ascii) : option Z :=
  let n := nat_of_ascii c in
  if ((48 <=? n)%nat && (n <=? 57)%nat) then Some (Z.of_nat n - 48)
  else if ((97 <=? n)%nat && (n <=? 102)%nat) then Some (Z.of_nat n - 87)
  else if ((65 <=? n)%nat && (n <=? 70)%nat) then Some (Z.of_nat n - 55)
  else None.

(** The longest prefix of decimal digits, and what follows it. *)
Fixpoint takeDigits (s : string) : string * string :=
  match s with
  | String c s' =>
      if isDigit c then
        let (ds, rest) := takeDigits s' in (String c ds, rest)
      else (EmptyString, s)
  | EmptyString => (EmptyString, EmptyString)
  end.

Fixpoint digitsValueFrom (acc : Z) (ds : string) : Z :=
  match ds with
  | String c ds' => digitsValueFrom (10 * acc + digitValue c) ds'
  | EmptyString => acc
  end.

Definition digitsValue (ds : string) : Z := digitsValueFrom 0 ds.

(** All characters are digits of the base, at least one; their value. *)
Fixpoint radixValueFrom (radix : Z) (acc : Z) (s : string) : option Z :=
  match s with
  | EmptyString => Some acc
  | String c s' =>
      match hexDigit c with
      | Some d => if d <? radix then radixValueFrom radix (radix * acc + d) s'
                  else None
      | None => None
      end
  end.

Definition radixValue (radix : Z) (s : string) : option Z :=
  match s with
  | EmptyString => None
  | _ => radixValueFrom radix 0 s
  end.

(** [0x...], [0o...] and [0b...] (either case of the letter). *)
Definition nonDecimalLiteral (s : string) : option Z :=
  match s with
  | String "0"%char (String c digits) =>
      if Ascii.eqb c "x"%char || Ascii.eqb c "X"%char then radixValue 16 digits
      else if Ascii.eqb c "o"%char || Ascii.eqb c "O"%char
           then radixValue 8 digits
      else if Ascii.eqb c "b"%char || Ascii.eqb c "B"%char
           then radixValue 2 digits
      else None
  | _ => None
  end.

(** [s] starts with [p]; what follows [p]. *)
Fixpoint stripPrefix (p s : string) : option string :=
  match p, s with
  | EmptyString, _ => Some s
  | String a p', String b s' =>
      if Ascii.eqb a b then stripPrefix p' s' else None
  | String _ _, EmptyString => None
  end.

(** The exponent part [e], [e+] or [e-] followed by digits, when [s]
    starts with one: its value and what follows it. *)
Definition scanExponent (s : string) : option (Z * string) :=
  match s with
  | String c s1 =>
      if Ascii.eqb c "e"%char || Ascii.eqb c "E"%char then
        let '(negative, s2) :=
          match s1 with
          | String "+"%char r => (false, r)
          | String "-"%char r => (true, r)
          | _ => (false, s1)
          end in
        let (ds, rest) := takeDigits s2 in
        if String.eqb ds EmptyString then None
        else Some (if negative then - digitsValue ds else digitsValue ds, rest)
      else None
  | EmptyString => None
  end.

(** *** Rounding to a double

    The value of a numeric literal is the double nearest to the number it
    writes, the one with an even significand when two are equally near;
    a number of at least [2^1024 - 2^970] rounds to infinity. *)

(** [floor (log2 (n / d))] for positive [n] and [d]. *)
Definition floorLog2 (n d : Z) : Z :=
  let k := Z.log2 n - Z.log2 d in
  if (if 0 <=? k then d * 2 ^ k <=? n else d <=? n * 2 ^ (- k))
  then k else k - 1.

(** The form [Fin] of the number [M * 2^e], for positive [M]. *)
Definition canonical (M e : Z) : jsnum :=
  if 0 <=? e then Fin (M * 2 ^ e) 0
  else if M mod 2 ^ (- e) =? 0 then Fin (M / 2 ^ (- e)) 0
  else
    let low := Z.land M (- M) in   (* the lowest bit set in [M] *)
    Fin (M / low) (e + Z.log2 low).

(** The double nearest to [n / d], for [n >= 0] and [d > 0]: the
    significand has 53 bits, or fewer below [2^-1022], where the exponent
    stays at [-1074]. *)
Definition roundToDouble (n d : Z) : jsnum :=
  if n =? 0 then Fin 0 0
  else
    let e := Z.max (floorLog2 n d - 52) (- 1074) in
    let n' := if 0 <=? e then n else n * 2 ^ (- e) in
    let d' := if 0 <=? e then d * 2 ^ e else d in
    let q := n' / d' in
    let r := n' mod d' in
    let M := if 2 * r <? d' then q
             else if d' <? 2 * r then q + 1
             else if Z.even q then q else q + 1 in
    if M =? 0 then Fin 0 0
    else if 1024 <=? Z.log2 M + e then Infinity false
    else canonical M e.

(** The double that the decimal [m * 10^x] rounds to, for [m >= 0]. *)
Definition decimal (m x : Z) : jsnum :=
  if 0 <=? x then roundToDouble (m * 10 ^ x) 1
  else roundToDouble m (10 ^ (- x)).

(** The longest prefix of [s] that is an unsigned decimal literal of the
    grammar for strings ([Infinity], [12], [12.], [12.5], [.5], each but
    the first with an optional exponent): its value and what follows. *)
Definition scanUnsignedDecimal (s : string) : option (jsnum * string) :=
  match stripPrefix "Infinity" s with
  | Some rest => Some (Infinity false, rest)
  | None =>
      let (ip, r1) := takeDigits s in
      let '(fp, r2) :=
        match r1 with
        | String "."%char r =>
            let (fp, r2) := takeDigits r in
            if String.eqb ip EmptyString && String.eqb fp EmptyString
            then (EmptyString, r1)
            else (fp, r2)
        | _ => (EmptyString, r1)
        end in
      if String.eqb ip EmptyString && String.eqb fp EmptyString then None
      else
        let m := digitsValue (ip +:+ fp) in
        let e := - Z.of_nat (String.length fp) in
        match scanExponent r2 with
        | Some (x, rest) => Some (decimal m (e + x), rest)
        | None => Some (decimal m e, r2)
        end
  end.

Definition negate (n : jsnum) : jsnum :=
  match n with
  | NaN => NaN
  | Infinity b => Infinity (negb b)
  | NegZero => Fin 0 0
  | Fin m e => if m =? 0 then NegZero else Fin (- m) e
  end.

(** The same with an optional sign. *)
Definition scanDecimal (s : string) : option (jsnum * string) :=
  match s with
  | String "+"%char r => scanUnsignedDecimal r
  | String "-"%char r =>
      match scanUnsignedDecimal r with
      | Some (n, rest) => Some (negate n, rest)
      | None => None
      end
  | _ => scanUnsignedDecimal s
  end.

(** [parseFloat(s)] for a string: the leading white space is dropped and
    the longest decimal literal at the start is read. *)
Definition parseFloat (s : string) : jsnum :=
  match scanDecimal (trimStart s) with
  | Some (n, _) => n
  | None => NaN
  end.

(** [Number(s)] for a string: the whole trimmed string must be a numeric
    literal; the empty string is zero. *)
Definition StringToNumber (s : string) : jsnum :=
  let t := trim s in
  if String.eqb t EmptyString then Fin 0 0
  else
    match nonDecimalLiteral t with
    | Some n => roundToDouble n 1
    | None =>
        match scanDecimal t with
        | Some (n, EmptyString) => n
        | _ => NaN
        end
    end.

Definition isNaNnum (n : jsnum) : bool :=
  match n with NaN => true | _ => false end.

Definition isFiniteNum (n : jsnum) : bool :=
  match n with Fin _ _ | NegZero => true | _ => false end.

(** [String(n)] read back as a number: [n] itself, but zero for negative
    zero, which prints as ["0"]. *)
Definition printed (n : jsnum) : jsnum :=
  match n with NegZero => Fin 0 0 | _ => n end.

(** The conversions applied to a value that is not a string go through
    its string form; spelled out for each shape of value: [String(n)]
    reads back as [printed n], an array prints its elements separated by commas
    ([null] and [undefined] as nothing), an object prints as
    ["[object Object]"] and a function as its source text. *)
Fixpoint ToNumber (v : value) : jsnum :=
  match v with
  | VUndefined => NaN
  | VNull => Fin 0 0
  | VBool b => Fin (if b then 1 else 0) 0
  | VNum n => n
  | VStr s => StringToNumber s
  | VArr [] => Fin 0 0
  | VArr [x] =>
      match x with
      | VUndefined | VNull => Fin 0 0
      | VBool _ | VObj _ | VFun _ => NaN
      | VNum n => printed n
      | VStr _ | VArr _ => ToNumber x
      end
  | VArr (_ :: _ :: _) => NaN
  | VObj _ | VFun _ => NaN
  end.

(** [parseFloat(v)] *)
Fixpoint parseFloatValue (v : value) : jsnum :=
  match v with
  | VNum n => printed n
  | VStr s => parseFloat s
  | VArr (x :: _) =>
      match x with
      | VNum _ | VStr _ | VArr _ => parseFloatValue x
      | _ => NaN
      end
  | _ => NaN
  end.

(** [isNaN(v)], [isFinite(v)] *)
Definition isNaN (v : value) : bool := isNaNnum (ToNumber v).
Definition isFinite (v : value) : bool := isFiniteNum (ToNumber v).

(** [utils.js]:
    [isNumeric = value => !isNaN(value) && !isNaN(parseFloat(value))] *)
Definition isNumeric (s : string) : bool :=
  negb (isNaN (VStr s)) && negb (isNaNnum (parseFloat s)).

End Numeric.

(** ** Options from declarative attributes *)
Module Attributes.
Import JS Numeric.

(** [Array.prototype.reduce] with a callback that may throw. *)
Fixpoint reduce {A B : Type} (f : A -> B -> result A) (l : list B) (acc : A)
  : result A :=
  match l with
  | [] => Ok acc
  | x :: rest => bind (f acc x) (reduce f rest)
  end.

(** The end of each callback: [return acc] when no value was computed
    for the key, else [acc[key] = value; return acc], unless computing the
    value threw.  The accumulator starts as [{}] and is known by its own
    properties; the name [__proto__] reaches the accessor of
    [Object.prototype] and adds none. *)
Definition assign (conv : string -> option (result value))
    (acc : gmap string value) (key : string) : result (gmap string value) :=
  match conv key with
  | None => Ok acc
  | Some (Ok x) =>
      Ok (if String.eqb key "__proto__" then acc else <[key := x]> acc)
  | Some (Throw e) => Throw e
  end.

(** [s.toLowerCase()] on ASCII letters. *)
Definition lowerChar (c : ascii) : ascii :=
  let n := nat_of_ascii c in
  if ((65 <=? n)%nat && (n <=? 90)%nat) then ascii_of_nat (n + 32) else c.

Fixpoint toLowerCase (s : string) : string :=
  match s with
  | EmptyString => EmptyString
  | String c s' => String (lowerChar c) (toLowerCase s')
  end.

(** The defaults of [Framework.js] (lines 178-217). *)
Definition defaults : list (string * value) :=
  [ ("placement", VStr "top"); ("trigger", VStr "mouseenter focus");
    ("animation", VStr "shift-away"); ("html", VBool false);
    ("animateFill", VBool true); ("arrow", VBool false);
    ("delay", VNum (Fin 0 0));
    ("duration", VArr [VNum (Fin 350 0); VNum (Fin 300 0)]);
    ("interactive", VBool false); ("interactiveBorder", VNum (Fin 2 0));
    ("theme", VStr "dark"); ("size", VStr "regular");
    ("distance", VNum (Fin 10 0)); ("offset", VNum (Fin 0 0));
    ("hideOnClick", VBool true); ("multiple", VBool false);
    ("followCursor", VBool false); ("inertia", VBool false);
    ("updateDuration", VNum (Fin 350 0)); ("sticky", VBool false);
    ("appendTo", VFun "appendTo"); ("zIndex", VNum (Fin 9999 0));
    ("touchHold", VBool false); ("performance", VBool false);
    ("dynamicTitle", VBool false); ("flip", VBool true);
    ("flipBehavior", VStr "flip"); ("arrowType", VStr "sharp");
    ("arrowTransform", VStr ""); ("maxWidth", VStr "");
    ("popperOptions", VObj []);
    ("createPopperInstanceOnInit", VBool false);
    ("onShow", VFun "onShow"); ("onShown", VFun "onShown");
    ("onHide", VFun "onHide"); ("onHidden", VFun "onHidden") ]%string.

(** [Object.keys(defaults)] *)
Definition defaultsKeys : list string := map fst defaults.

Section Conversions.
(** [JSON.parse]: [None] when it throws a [SyntaxError]. *)
Variable JSON_parse : string -> option value.

(** [reference.getAttribute(name)]: the attributes of the reference, a
    missing one reads [null]. *)
Variable attributes : gmap string string.

Definition parseJSON (s : string) : result value :=
  match JSON_parse s with
  | Some v => Ok v
  | None => Throw (SyntaxError "JSON.parse")
  end.

(** *** [Framework.js]: [getIndividualOptions] *)

(** The body of the callback for one key, up to the assignment. *)
Definition individualOption (instanceOptions : gmap string value)
    (key : string) : result value :=
  let val :=
    match attributes !! ("data-tippy-" +:+ toLowerCase key) with
    | Some a => if String.eqb a EmptyString
                then getProp instanceOptions key
                else VStr a
    | None => getProp instanceOptions key
    end in
  let val := match val with
             | VStr s => if String.eqb s "false" then VBool false else val
             | _ => val
             end in
  let val := match val with
             | VStr s => if String.eqb s "true" then VBool true else val
             | _ => val
             end in
  let val := if isFinite val && negb (isNaNnum (parseFloatValue val))
             then VNum (parseFloatValue val)
             else val in
  match val with
  | VStr s => if firstCharIs "["%char (trim s) then parseJSON s else Ok val
  | _ => Ok val
  end.

(** [keys] is [defaultsKeys].  The result is
    [_extends({}, instanceOptions, options)], known by its own properties:
    those of [options], then those of [instanceOptions], the name
    [__proto__] apart, which [_extends] assigns through the accessor. *)
Definition getIndividualOptions_over (keys : list string)
    (instanceOptions : gmap string value) : result (gmap string value) :=
  bind (reduce (assign (fun key => Some (individualOption instanceOptions key)))
          keys ∅)
       (fun options => Ok (options ∪ delete "__proto__" instanceOptions)).

Definition getIndividualOptions := getIndividualOptions_over defaultsKeys.

(** *** [utils.js]: [getDataAttributeOptions] *)
Definition dataAttributeOption_utils (key : string) : option (result value) :=
  match attributes !! ("data-tippy-" +:+ key) with
  | None => None
  | Some valueAsString =>
      if String.eqb valueAsString EmptyString then None
      else Some
        (if String.eqb valueAsString "true" then Ok (VBool true)
         else if String.eqb valueAsString "false" then Ok (VBool false)
         else if isNumeric valueAsString
              then Ok (VNum (StringToNumber valueAsString))
         else if negb (String.eqb key "target")
                 && firstCharIs "["%char (trim valueAsString)
              then parseJSON valueAsString
         else Ok (VStr valueAsString))
  end.

(** [keys] is [Object.keys(defaults)], of a [defaults] module that is not
    among the sources. *)
Definition getDataAttributeOptions_utils (keys : list string)
  : result (gmap string value) :=
  reduce (assign dataAttributeOption_utils) keys ∅.



(** *** The rule in words

    "The literal string [true] maps to boolean true and [false] to boolean
    false; a string parseable as a finite number maps to that number; a
    string whose first non-space character is an opening bracket maps to
    the parsed array; any other string stays a string."  The rule is
    parametric in what counts as a number and in its value. *)
Definition convertedAs (numeric : string -> bool) (number : string -> jsnum)
    (array : string -> result value) (v : string) : result value :=
  if String.eqb v "true" then Ok (VBool true)
  else if String.eqb v "false" then Ok (VBool false)
  else if numeric v then Ok (VNum (number v))
  else if firstCharIs "["%char (trimStart v) then array v
  else Ok (VStr v).

(** A string is parseable as a number when it is not only white space
    and, white space at its ends apart, is a numeric literal as a whole;
    the number is the value of the literal. *)
Definition writesNumber (v : string) : bool :=
  negb (String.eqb (trim v) EmptyString)
  && negb (isNaNnum (StringToNumber v)).

Definition writesFiniteNumber (v : string) : bool :=
  negb (String.eqb (trim v) EmptyString)
  && isFiniteNum (StringToNumber v).

(** The rule as the claim states it. *)
Definition claimedConversion : string -> result value :=
  convertedAs writesFiniteNumber StringToNumber parseJSON.

End Conversions.

End Attributes.

(** ** The instance state machine ([Tippy], [_enter], [_leave]) *)
Module Instance.

(** The option values [delay] and [duration]: a number or an array. *)
Inductive NumOrArray : Type :=
| Num (n : Z)
| Arr (items : list Z).

(** [Array.isArray(v) ? v[index] : v]; [None] is [undefined].  This is
    [getDuration], and the expression that [_enter] and [_leave] use for
    the delay. *)
Definition getDuration (duration : NumOrArray) (index : nat) : option Z :=
  match duration with
  | Num n => Some n
  | Arr items => nth_error items index
  end.

(** Truthiness of a number or [undefined]. *)
Definition truthyNum (v : option Z) : bool :=
  match v with
  | Some n => negb (n =? 0)
  | None => false
  end.

(** The caller's hooks.  A call is recorded in the trace. *)
Inductive Hook : Type := onShow | onShown | onHide | onHidden | waitHook.

(** What a [wait] hook does with the [show] function it is handed: call
    it before returning, or keep it for later. *)
Inductive WaitBehaviour : Type := WaitShowsNow | WaitKeepsShow.

Record Options : Type :=
  { delay : NumOrArray;
    duration : NumOrArray;
    wait : option WaitBehaviour;
    followCursor : bool;
    dynamicTitle : bool;
    sticky : bool }.

(** [this.state] *)
Record State : Type :=
  { destroyed : bool; visible : bool; enabled : bool }.

(** The field of an event that the functions read. *)
Record Event : Type := { ev_type : string }.

(** The functions handed to [defer]: the one in [hide], which calls
    [_onTransitionEnd] with the resolved duration, and [updatePosition] of
    [_makeSticky]. *)
Inductive Deferred : Type :=
| DfHide (duration : option Z)
| DfUpdatePosition.

(** The functions handed to [setTimeout]. *)
Inductive Callback : Type :=
| CbShow                    (* function () { _this4.show(); } *)
| CbLeave                   (* if (!visible) return; _this5.hide(); *)
| CbDeferred (f : Deferred) (* setTimeout(fn) inside defer *).

(** The functions handed to [requestAnimationFrame]. *)
Inductive FrameCallback : Type :=
| FrDefer (f : Deferred)    (* function () { setTimeout(fn); } *)
| FrUpdatePosition.

Record Timer : Type := { timerId : nat; due : nat; callback : Callback }.

(** The continuations handed to [_onTransitionEnd]. *)
Inductive TransitionCallback : Type := AfterShow | AfterHide.

(** The private store [this._(key)].  [transitionendListener] is the
    listener currently attached to the tooltip element. *)
Record Private : Type :=
  { isPreparingToShow : bool;
    showTimeout : option nat;
    hideTimeout : option nat;
    lastTriggerEvent : option Event;
    lastMouseMoveEvent : option Event;
    followCursorListener : bool;
    transitionendListener : option TransitionCallback;
    mutationObservers : list bool (* connected? *) }.

(** The reference: [refObj] marks a virtual reference, [inDocument] is
    [document.documentElement.contains(reference)]. *)
Record Reference : Type :=
  { refObj : bool;
    inDocument : bool;
    title : option string;
    originalTitle : option string;     (* data-original-title *)
    dataTippy : bool;                  (* has the attribute data-tippy *)
    hasTippy : bool;                   (* reference._tippy *)
    ariaDescribedby : bool;            (* has the attribute aria-describedby *)
    registered : list Triggers.Listener }.

(** The popper element: whether [options.appendTo] contains it, and the
    [data-state] of its tooltip ([true] is 'visible'). *)
Record PopperElement : Type := { mounted : bool; dataState : bool }.

(** The handle of the positioning engine.  [pendingCallbacks] are the
    wrappers that [_mount] stacked on [onCreate]/[onUpdate], newest first,
    each holding the duration its [show] resolved. *)
Record PopperInstance : Type :=
  { eventListenersEnabled : bool;
    pi_destroyed : bool;
    pendingCallbacks : list (option Z) }.

(** Timers and animation frames of the page. *)
Record Scheduler : Type :=
  { now : nat;
    nextTimer : nat;
    timers : list Timer;
    frames : list FrameCallback }.

Record Browser : Type :=
  { usingTouch : bool;
    hasMutationObserver : bool;        (* window.MutationObserver *)
    documentMousemove : bool (* followCursorListener is on the document *) }.

(** One instance together with the part of the page it acts on. *)
Record Tippy : Type :=
  { state : State;
    priv : Private;
    options : Options;
    listeners : list Triggers.Listener;
    popperInstance : option PopperInstance;
    reference : Reference;
    popper : PopperElement;
    sched : Scheduler;
    browser : Browser;
    trace : list Hook;
    uncaught : list JS.JsError (* thrown by callbacks that the page ran *) }.

(** *** Field updates *)
Definition upd_state (f : State -> State) (s : Tippy) : Tippy :=
  {| state := f (state s); priv := priv s; options := options s;
     listeners := listeners s; popperInstance := popperInstance s;
     reference := reference s; popper := popper s; sched := sched s;
     browser := browser s; trace := trace s; uncaught := uncaught s |}.

Definition upd_priv (f : Private -> Private) (s : Tippy) : Tippy :=
  {| state := state s; priv := f (priv s); options := options s;
     listeners := listeners s; popperInstance := popperInstance s;
     reference := reference s; popper := popper s; sched := sched s;
     browser := browser s; trace := trace s; uncaught := uncaught s |}.

Definition upd_popperInstance
    (f : option PopperInstance -> option PopperInstance) (s : Tippy) : Tippy :=
  {| state := state s; priv := priv s; options := options s;
     listeners := listeners s; popperInstance := f (popperInstance s);
     reference := reference s; popper := popper s; sched := sched s;
     browser := browser s; trace := trace s; uncaught := uncaught s |}.

Definition upd_reference (f : Reference -> Reference) (s : Tippy) : Tippy :=
  {| state := state s; priv := priv s; options := options s;
     listeners := listeners s; popperInstance := popperInstance s;
     reference := f (reference s); popper := popper s; sched := sched s;
     browser := browser s; trace := trace s; uncaught := uncaught s |}.

Definition upd_popper (f : PopperElement -> PopperElement) (s : Tippy)
  : Tippy :=
  {| state := state s; priv := priv s; options := options s;
     listeners := listeners s; popperInstance := popperInstance s;
     reference := reference s; popper := f (popper s); sched := sched s;
     browser := browser s; trace := trace s; uncaught := uncaught s |}.

Definition upd_sched (f : Scheduler -> Scheduler) (s : Tippy) : Tippy :=
  {| state := state s; priv := priv s; options := options s;
     listeners := listeners s; popperInstance := popperInstance s;
     reference := reference s; popper := popper s; sched := f (sched s);
     browser := browser s; trace := trace s; uncaught := uncaught s |}.

Definition upd_browser (f : Browser -> Browser) (s : Tippy) : Tippy :=
  {| state := state s; priv := priv s; options := options s;
     listeners := listeners s; popperInstance := popperInstance s;
     reference := reference s; popper := popper s; sched := sched s;
     browser := f (browser s); trace := trace s;
     uncaught := uncaught s |}.

(** A hook is called. *)
Definition call (h : Hook) (s : Tippy) : Tippy :=
  {| state := state s; priv := priv s; options := options s;
     listeners := listeners s; popperInstance := popperInstance s;
     reference := reference s; popper := popper s; sched := sched s;
     browser := browser s; trace := trace s ++ [h]; uncaught := uncaught s |}.

(** A callback that the page ran throws. *)
Definition throw (e : JS.JsError) (s : Tippy) : Tippy :=
  {| state := state s; priv := priv s; options := options s;
     listeners := listeners s; popperInstance := popperInstance s;
     reference := reference s; popper := popper s; sched := sched s;
     browser := browser s; trace := trace s; uncaught := uncaught s ++ [e] |}.

Definition set_destroyed (b : bool) : Tippy -> Tippy :=
  upd_state (fun st => {| destroyed := b; visible := visible st;
                          enabled := enabled st |}).
Definition set_visible (b : bool) : Tippy -> Tippy :=
  upd_state (fun st => {| destroyed := destroyed st; visible := b;
                          enabled := enabled st |}).
Definition set_enabled (b : bool) : Tippy -> Tippy :=
  upd_state (fun st => {| destroyed := destroyed st; visible := visible st;
                          enabled := b |}).

Definition set_isPreparingToShow (b : bool) : Tippy -> Tippy :=
  upd_priv (fun p =>
    {| isPreparingToShow := b; showTimeout := showTimeout p;
       hideTimeout := hideTimeout p; lastTriggerEvent := lastTriggerEvent p;
       lastMouseMoveEvent := lastMouseMoveEvent p;
       followCursorListener := followCursorListener p;
       transitionendListener := transitionendListener p;
       mutationObservers := mutationObservers p |}).
Definition set_showTimeout (id : option nat) : Tippy -> Tippy :=
  upd_priv (fun p =>
    {| isPreparingToShow := isPreparingToShow p; showTimeout := id;
       hideTimeout := hideTimeout p; lastTriggerEvent := lastTriggerEvent p;
       lastMouseMoveEvent := lastMouseMoveEvent p;
       followCursorListener := followCursorListener p;
       transitionendListener := transitionendListener p;
       mutationObservers := mutationObservers p |}).
Definition set_hideTimeout (id : option nat) : Tippy -> Tippy :=
  upd_priv (fun p =>
    {| isPreparingToShow := isPreparingToShow p;
       showTimeout := showTimeout p; hideTimeout := id;
       lastTriggerEvent := lastTriggerEvent p;
       lastMouseMoveEvent := lastMouseMoveEvent p;
       followCursorListener := followCursorListener p;
       transitionendListener := transitionendListener p;
       mutationObservers := mutationObservers p |}).
Definition set_lastMouseMoveEvent (e : option Event) : Tippy -> Tippy :=
  upd_priv (fun p =>
    {| isPreparingToShow := isPreparingToShow p;
       showTimeout := showTimeout p; hideTimeout := hideTimeout p;
       lastTriggerEvent := lastTriggerEvent p; lastMouseMoveEvent := e;
       followCursorListener := followCursorListener p;
       transitionendListener := transitionendListener p;
       mutationObservers := mutationObservers p |}).
Definition set_followCursorListener (b : bool) : Tippy -> Tippy :=
  upd_priv (fun p =>
    {| isPreparingToShow := isPreparingToShow p;
       showTimeout := showTimeout p; hideTimeout := hideTimeout p;
       lastTriggerEvent := lastTriggerEvent p;
       lastMouseMoveEvent := lastMouseMoveEvent p;
       followCursorListener := b;
       transitionendListener := transitionendListener p;
       mutationObservers := mutationObservers p |}).
Definition set_transitionendListener (l : option TransitionCallback)
  : Tippy -> Tippy :=
  upd_priv (fun p =>
    {| isPreparingToShow := isPreparingToShow p;
       showTimeout := showTimeout p; hideTimeout := hideTimeout p;
       lastTriggerEvent := lastTriggerEvent p;
       lastMouseMoveEvent := lastMouseMoveEvent p;
       followCursorListener := followCursorListener p;
       transitionendListener := l;
       mutationObservers := mutationObservers p |}).
Definition set_mutationObservers (l : list bool) : Tippy -> Tippy :=
  upd_priv (fun p =>
    {| isPreparingToShow := isPreparingToShow p;
       showTimeout := showTimeout p; hideTimeout := hideTimeout p;
       lastTriggerEvent := lastTriggerEvent p;
       lastMouseMoveEvent := lastMouseMoveEvent p;
       followCursorListener := followCursorListener p;
       transitionendListener := transitionendListener p;
       mutationObservers := l |}).

(** [reference.setAttribute('aria-describedby', ...)] and
    [reference.removeAttribute('aria-describedby')] *)
Definition withAria (b : bool) (r : Reference) : Reference :=
  {| refObj := refObj r; inDocument := inDocument r; title := title r;
     originalTitle := originalTitle r; dataTippy := dataTippy r;
     hasTippy := hasTippy r; ariaDescribedby := b;
     registered := registered r |}.
Definition set_ariaDescribedby (b : bool) : Tippy -> Tippy :=
  upd_reference (withAria b).

Definition set_mounted (b : bool) : Tippy -> Tippy :=
  upd_popper (fun p => {| mounted := b; dataState := dataState p |}).
Definition set_dataState (b : bool) : Tippy -> Tippy :=
  upd_popper (fun p => {| mounted := mounted p; dataState := b |}).

Definition set_documentMousemove (b : bool) : Tippy -> Tippy :=
  upd_browser (fun w => {| usingTouch := usingTouch w;
                           hasMutationObserver := hasMutationObserver w;
                           documentMousemove := b |}).

(** [popperInstance.enableEventListeners()] and
    [popperInstance.disableEventListeners()] *)
Definition set_eventListeners (b : bool) : Tippy -> Tippy :=
  upd_popperInstance (fun o =>
    match o with
    | Some pi => Some {| eventListenersEnabled := b;
                         pi_destroyed := pi_destroyed pi;
                         pendingCallbacks := pendingCallbacks pi |}
    | None => None
    end).

(** *** The scheduler *)

(** [setTimeout(cb, delay)]: the new timer's id is returned with the
    state.  A negative delay counts as zero. *)
Definition setTimeout (cb : Callback) (delay : Z) (s : Tippy) : nat * Tippy :=
  let id := nextTimer (sched s) in
  (id,
   upd_sched (fun sc =>
     {| now := now sc; nextTimer := S (nextTimer sc);
        timers := timers sc
                  ++ [ {| timerId := id; due := (now sc + Z.to_nat delay)%nat;
                          callback := cb |} ];
        frames := frames sc |}) s).

(** [clearTimeout(id)]; [None] is [undefined], which clears nothing. *)
Definition clearTimeout (id : option nat) (s : Tippy) : Tippy :=
  match id with
  | None => s
  | Some i =>
      upd_sched (fun sc =>
        {| now := now sc; nextTimer := nextTimer sc;
           timers := List.filter (fun t => negb (timerId t =? i)%nat) (timers sc);
           frames := frames sc |}) s
  end.

Definition requestAnimationFrame (f : FrameCallback) (s : Tippy) : Tippy :=
  upd_sched (fun sc =>
    {| now := now sc; nextTimer := nextTimer sc; timers := timers sc;
       frames := frames sc ++ [f] |}) s.

(** [defer(fn)]: [requestAnimationFrame(function () { setTimeout(fn); })] *)
Definition defer (f : Deferred) (s : Tippy) : Tippy :=
  requestAnimationFrame (FrDefer f) s.

(** *** Public methods *)

Definition enable (s : Tippy) : Tippy := set_enabled true s.
Definition disable (s : Tippy) : Tippy := set_enabled false s.

(** [hide(duration)]; [None] is a call without argument.  Writes to
    styles and class lists are left out: the functions modelled here never
    read them back.  So is the call [reference.focus()] that [hide] makes
    for an interactive tooltip triggered by [click] whose reference is in
    the viewport: the focus it moves is not part of the state, and the
    listeners that a [focus] event would run are not run here. *)
Definition hide (d : option Z) (s : Tippy) : Tippy :=
  if destroyed (state s) || negb (enabled (state s)) then s
  else
    let s := call onHide s in
    let d := getDuration (match d with
                          | Some n => Num n
                          | None => duration (options s)
                          end) 1 in
    let s := set_visible false s in
    let s := set_dataState false s in
    defer (DfHide d) s.

Definition listener_eqb (a b : Triggers.Listener) : bool :=
  String.eqb (Triggers.event a) (Triggers.event b)
  && match Triggers.handler a, Triggers.handler b with
     | Triggers.handleTrigger, Triggers.handleTrigger
     | Triggers.handleMouseleave, Triggers.handleMouseleave
     | Triggers.handleBlur, Triggers.handleBlur => true
     | _, _ => false
     end.

(** [reference.removeEventListener(listener.event, listener.handler)] *)
Definition removeEventListener (l : Triggers.Listener)
    (regs : list Triggers.Listener) : list Triggers.Listener :=
  List.filter (fun r => negb (listener_eqb r l)) regs.

(** The statements of [destroy] after the one that hides. *)
Definition destroy_cleanup (s : Tippy) : Tippy :=
  let s :=
    upd_reference (fun r =>
      {| refObj := refObj r; inDocument := inDocument r;
         title := if refObj r then originalTitle r
                  else Some (match originalTitle r with
                             | Some t => t
                             | None => "null"%string
                             end);
         originalTitle := None;
         dataTippy := false;
         hasTippy := false;
         ariaDescribedby := ariaDescribedby r;
         registered := fold_left (fun regs l => removeEventListener l regs)
                         (listeners s) (registered r) |}) s in
  let s :=
    upd_popperInstance (fun o =>
      match o with
      | Some pi => Some {| eventListenersEnabled := false;
                           pi_destroyed := true;
                           pendingCallbacks := pendingCallbacks pi |}
      | None => None
      end) s in
  let s := set_mutationObservers
             (map (fun _ => false) (mutationObservers (priv s))) s in
  set_destroyed true s.

(** [destroy()] *)
Definition destroy (s : Tippy) : Tippy :=
  if destroyed (state s) then s
  else
    let s := if visible (state s) then hide (Some 0) s else s in
    destroy_cleanup s.

(** [_createPopperInstance]: the mutation observer it adds (when the
    browser has mutation observers) and the new handle. *)
Definition _createPopperInstance (s : Tippy) : Tippy :=
  let s :=
    if hasMutationObserver (browser s)
    then set_mutationObservers (mutationObservers (priv s) ++ [true]) s
    else s in
  upd_popperInstance (fun _ =>
    Some {| eventListenersEnabled := true; pi_destroyed := false;
            pendingCallbacks := [] |}) s.

(** [_mount(callback)], the callback being the one of [show] with its
    resolved duration [d]. *)
Definition _mount (d : option Z) (s : Tippy) : Tippy :=
  let s :=
    match popperInstance s with
    | None => _createPopperInstance s
    | Some _ =>
        if negb (followCursor (options s)) || usingTouch (browser s)
        then set_eventListeners true s
        else s
    end in
  let s :=
    upd_popperInstance (fun o =>
      match o with
      | Some pi => Some {| eventListenersEnabled := eventListenersEnabled pi;
                           pi_destroyed := pi_destroyed pi;
                           pendingCallbacks := d :: pendingCallbacks pi |}
      | None => None
      end) s in
  if negb (mounted (popper s)) then set_mounted true s else s.

(** [show(duration)] *)
Definition show (d : option Z) (s : Tippy) : Tippy :=
  if destroyed (state s) || negb (enabled (state s)) then s
  else if dynamicTitle (options s)
          && negb (Geometry.truthyAttr (originalTitle (reference s)))
  then s
  else if negb (refObj (reference s)) && negb (inDocument (reference s))
  then destroy s
  else
    let s := call onShow s in
    let d := getDuration (match d with
                          | Some n => Num n
                          | None => duration (options s)
                          end) 0 in
    let s := set_visible true s in
    _mount d s.

(** [_clearDelayTimeouts] *)
Definition _clearDelayTimeouts (s : Tippy) : Tippy :=
  clearTimeout (hideTimeout (priv s)) (clearTimeout (showTimeout (priv s)) s).

(** [_enter(event)] *)
Definition _enter (event : Event) (s : Tippy) : Tippy :=
  let s := _clearDelayTimeouts s in
  if visible (state s) then s
  else
    let s := set_isPreparingToShow true s in
    match wait (options s) with
    | Some w =>
        let s := call waitHook s in
        match w with
        | WaitShowsNow => show None s
        | WaitKeepsShow => s
        end
    | None =>
        let s :=
          if followCursor (options s) && negb (usingTouch (browser s))
          then set_documentMousemove true (set_followCursorListener true s)
          else s in
        let delay := getDuration (delay (options s)) 0 in
        if truthyNum delay then
          let (id, s) := setTimeout CbShow (match delay with
                                            | Some n => n
                                            | None => 0
                                            end) s in
          set_showTimeout (Some id) s
        else show None s
    end.

(** [_leave()] *)
Definition _leave (s : Tippy) : Tippy :=
  let s := _clearDelayTimeouts s in
  if negb (visible (state s)) then s
  else
    let s := set_isPreparingToShow false s in
    let delay := getDuration (delay (options s)) 1 in
    if truthyNum delay then
      let (id, s) := setTimeout CbLeave (match delay with
                                         | Some n => n
                                         | None => 0
                                         end) s in
      set_hideTimeout (Some id) s
    else hide None s.

(** *** Callbacks run by the page *)

(** [updatePosition] of [_makeSticky] *)
Definition updatePosition (s : Tippy) : Tippy :=
  if visible (state s) then requestAnimationFrame FrUpdatePosition s else s.

(** The continuation of [show], run when its transition has ended. *)
Definition afterShow (s : Tippy) : Tippy :=
  call onShown (set_ariaDescribedby true s).

(** The continuation of [hide]. *)
Definition afterHide (s : Tippy) : Tippy :=
  if visible (state s) || negb (mounted (popper s)) then s
  else
    let s :=
      if negb (isPreparingToShow (priv s))
      then set_lastMouseMoveEvent None (set_documentMousemove false s)
      else s in
    let s := set_ariaDescribedby false s in
    let s := set_eventListeners false s in
    let s := set_mounted false s in
    call onHidden s.

Definition runTransitionCallback (k : TransitionCallback) (s : Tippy)
  : Tippy :=
  match k with
  | AfterShow => afterShow s
  | AfterHide => afterHide s
  end.

(** [_onTransitionEnd(duration, callback)]: with a falsy duration the
    callback runs at once; otherwise it replaces the listener on the
    tooltip and runs when the transition ends. *)
Definition _onTransitionEnd (d : option Z) (k : TransitionCallback)
    (s : Tippy) : Tippy :=
  if negb (truthyNum d) then runTransitionCallback k s
  else set_transitionendListener (Some k) s.

(** Whether the callback that [show] hands to [_mount] throws: it calls
    [followCursorListener] when the tooltip follows the cursor and a
    trigger event is recorded, and that property is [undefined] until
    [_enter] has set it. *)
Definition mountCallbackThrows (s : Tippy) : bool :=
  visible (state s)
  && followCursor (options s) && negb (usingTouch (browser s))
  && match lastTriggerEvent (priv s) with Some _ => true | None => false end
  && negb (followCursorListener (priv s)).

(** The callback that [show] hands to [_mount], run by the positioning
    engine after its next update.  When the call of [followCursorListener]
    throws, the statements after it are not run. *)
Definition mountCallback (d : option Z) (s : Tippy) : Tippy :=
  if negb (visible (state s)) then s
  else if mountCallbackThrows s then
    throw (JS.TypeError "followCursorListener is not a function")
      (set_eventListeners false s)
  else
    let s :=
      if followCursor (options s) && negb (usingTouch (browser s)) then
        let s := set_eventListeners false s in
        match lastTriggerEvent (priv s) with
        | Some trigger =>
            if String.eqb (ev_type trigger) "focus" then s
            else
              let delay := getDuration (delay (options s)) 0 in
              let e := match lastMouseMoveEvent (priv s) with
                       | Some m => if truthyNum delay then m else trigger
                       | None => trigger
                       end in
              set_lastMouseMoveEvent (Some e) s
        | None => s
        end
      else s in
    let s := if sticky (options s) then defer DfUpdatePosition s else s in
    let s := set_dataState true s in
    _onTransitionEnd d AfterShow s.

Definition runDeferred (f : Deferred) (s : Tippy) : Tippy :=
  match f with
  | DfHide d => _onTransitionEnd d AfterHide s
  | DfUpdatePosition => updatePosition s
  end.

Definition runCallback (cb : Callback) (s : Tippy) : Tippy :=
  match cb with
  | CbShow => show None s
  | CbLeave => if negb (visible (state s)) then s else hide None s
  | CbDeferred f => runDeferred f s
  end.

Definition runFrame (f : FrameCallback) (s : Tippy) : Tippy :=
  match f with
  | FrDefer g => snd (setTimeout (CbDeferred g) 0 s)
  | FrUpdatePosition => updatePosition s
  end.

(** A timer that is still pending is taken off the list and run. *)
Definition fire (t : Timer) (s : Tippy) : Tippy :=
  if existsb (fun u => (timerId u =? timerId t)%nat) (timers (sched s))
  then runCallback (callback t) (clearTimeout (Some (timerId t)) s)
  else s.

(** Timers ordered by due time, equal times in the order of arming. *)
Fixpoint insertByDue (t : Timer) (l : list Timer) : list Timer :=
  match l with
  | [] => [t]
  | u :: rest => if (due t <? due u)%nat then t :: l
                 else u :: insertByDue t rest
  end.

Definition sortByDue (l : list Timer) : list Timer :=
  fold_left (fun acc t => insertByDue t acc) l [].

(** *** What the page does between two calls *)
Inductive EnvStep : Type :=
| Tick            (* one millisecond passes; the timers now due run *)
| AnimationFrame  (* the callbacks queued for the next frame run *)
| PopperUpdate    (* the positioning engine finishes an update *)
| TransitionEnd   (* the tooltip's CSS transition ends *).

Definition tick (s : Tippy) : Tippy :=
  let s :=
    upd_sched (fun sc =>
      {| now := S (now sc); nextTimer := nextTimer sc; timers := timers sc;
         frames := frames sc |}) s in
  let dueNow :=
    sortByDue (List.filter (fun t => (due t <=? now (sched s))%nat)
                 (timers (sched s))) in
  fold_left (fun s t => fire t s) dueNow s.

Definition animationFrame (s : Tippy) : Tippy :=
  let queued := frames (sched s) in
  let s :=
    upd_sched (fun sc =>
      {| now := now sc; nextTimer := nextTimer sc; timers := timers sc;
         frames := [] |}) s in
  fold_left (fun s f => runFrame f s) queued s.

(** The positioning engine calls the wrapper that [_mount] installed
    last; the wrapper calls the callback and then puts back what it had
    replaced, unless the callback threw. *)
Definition popperUpdate (s : Tippy) : Tippy :=
  match popperInstance s with
  | Some pi =>
      if pi_destroyed pi then s
      else
        match pendingCallbacks pi with
        | d :: rest =>
            if mountCallbackThrows s then mountCallback d s
            else
              mountCallback d
                (upd_popperInstance (fun _ =>
                   Some {| eventListenersEnabled := eventListenersEnabled pi;
                           pi_destroyed := pi_destroyed pi;
                           pendingCallbacks := rest |}) s)
        | [] => s
        end
  | None => s
  end.

Definition transitionEnd (s : Tippy) : Tippy :=
  match transitionendListener (priv s) with
  | Some k => runTransitionCallback k (set_transitionendListener None s)
  | None => s
  end.

Definition envStep (e : EnvStep) (s : Tippy) : Tippy :=
  match e with
  | Tick => tick s
  | AnimationFrame => animationFrame s
  | PopperUpdate => popperUpdate s
  | TransitionEnd => transitionEnd s
  end.

Definition run (steps : list EnvStep) (s : Tippy) : Tippy :=
  fold_left (fun s e => envStep e s) steps s.

Definition isTick (e : EnvStep) : bool :=
  match e with Tick => true | _ => false end.

(** The milliseconds that pass during a list of steps. *)
Definition elapsed (steps : list EnvStep) : nat :=
  length (filter isTick steps).

Definition hook_eqb (a b : Hook) : bool :=
  match a, b with
  | onShow, onShow | onShown, onShown | onHide, onHide
  | onHidden, onHidden | waitHook, waitHook => true
  | _, _ => false
  end.

(** How often a hook was called. *)
Definition calls (h : Hook) (s : Tippy) : nat :=
  length (List.filter (hook_eqb h) (trace s)).

(** A newly created instance (the constructor of [Tippy], called by
    [createTooltips] with [popperInstance: null]). *)
Definition newTippy (o : Options) (r : Reference)
    (ls : list Triggers.Listener) (b : Browser) : Tippy :=
  {| state := {| destroyed := false; visible := false; enabled := true |};
     priv := {| isPreparingToShow := false; showTimeout := None;
                hideTimeout := None; lastTriggerEvent := None;
                lastMouseMoveEvent := None; followCursorListener := false;
                transitionendListener := None; mutationObservers := [] |};
     options := o;
     listeners := ls;
     popperInstance := None;
     reference := r;
     popper := {| mounted := false; dataState := false |};
     sched := {| now := 0; nextTimer := 1; timers := []; frames := [] |};
     browser := b;
     trace := [];
     uncaught := [] |}.

(** Every pending timer that would call [show] is the one whose id
    [_enter] stored in [showTimeout]. *)
Definition showTimersTracked (s : Tippy) : Prop :=
  forall t, In t (timers (sched s)) -> callback t = CbShow ->
            showTimeout (priv s) = Some (timerId t).

(** [Calm s s']: going from [s] to [s'] stored no other timer id in
    [showTimeout] and armed no timer that calls [show]. *)
Definition Calm (s s' : Tippy) : Prop :=
  showTimeout (priv s') = showTimeout (priv s)
  /\ forall t, In t (timers (sched s')) -> callback t = CbShow ->
               In t (timers (sched s)).

(** [Hidden ok s]: the instance is not visible, and every pending timer
    that would call [show] satisfies [ok]. *)
Definition Hidden (ok : Timer -> Prop) (s : Tippy) : Prop :=
  visible (state s) = false
  /\ forall t, In t (timers (sched s)) -> callback t = CbShow -> ok t.

(** What can happen to an instance: a call of one of its entry points,
    or a step of the page. *)
Inductive Action : Type :=
| DoEnter (event : Event)
| DoLeave
| DoShow (d : option Z)
| DoHide (d : option Z)
| DoDestroy
| DoEnable
| DoDisable
| DoEnv (e : EnvStep).

Definition perform (s : Tippy) (a : Action) : Tippy :=
  match a with
  | DoEnter event => _enter event s
  | DoLeave => _leave s
  | DoShow d => show d s
  | DoHide d => hide d s
  | DoDestroy => destroy s
  | DoEnable => enable s
  | DoDisable => disable s
  | DoEnv e => envStep e s
  end.

(** An element reference that is in the document and carries a title. *)
Definition attachedReference : Reference :=
  {| refObj := false; inDocument := true; title := None;
     originalTitle := Some "Hello"%string; dataTippy := true;
     hasTippy := true; ariaDescribedby := false; registered := [] |}.

(** The same reference after its element was removed from the document. *)
Definition detachedReference : Reference :=
  {| refObj := false; inDocument := false; title := None;
     originalTitle := Some "Hello"%string; dataTippy := true;
     hasTippy := true; ariaDescribedby := false; registered := [] |}.

Definition desktopBrowser : Browser :=
  {| usingTouch := false; hasMutationObserver := true;
     documentMousemove := false |}.

(** The default options of [Framework.js] ([delay: 0],
    [duration: [350, 300]]) with another delay and [wait] hook. *)
Definition optionsWith (d : NumOrArray) (w : option WaitBehaviour) : Options :=
  {| delay := d; duration := Arr [350; 300]; wait := w;
     followCursor := false; dynamicTitle := false; sticky := false |}.

(** [Keeps s s']: the step from [s] to [s'] left the timers, the clock,
    the stored timer ids and the options as they were. *)
Definition Keeps (s s' : Tippy) : Prop :=
  showTimeout (priv s') = showTimeout (priv s)
  /\ timers (sched s') = timers (sched s)
  /\ now (sched s') = now (sched s)
  /\ options s' = options s.

End Instance.

(** ** Invariants and derived notions of the instance life cycle *)
Module Lifecycle.
Import Instance.

Definition isShowTimer (t : Timer) : bool :=
  match callback t with CbShow => true | _ => false end.

Definition isHideTimer (t : Timer) : bool :=
  match callback t with CbLeave => true | _ => false end.

(** The timers of a state are well formed: their ids are distinct and
    were all handed out already, a pending timer that would call [show] is
    the one recorded in [showTimeout], and a pending timer that would call
    [hide] is the one recorded in [hideTimeout]. *)
Definition WellFormed (s : Tippy) : Prop :=
  List.NoDup (map timerId (timers (sched s)))
  /\ (forall t, In t (timers (sched s)) ->
                (timerId t < nextTimer (sched s))%nat)
  /\ (forall t, In t (timers (sched s)) -> callback t = CbShow ->
                showTimeout (priv s) = Some (timerId t))
  /\ (forall t, In t (timers (sched s)) -> callback t = CbLeave ->
                hideTimeout (priv s) = Some (timerId t)).

(** A step that touches neither the timers nor the recorded ids. *)
Definition SameTimers (s s' : Tippy) : Prop :=
  timers (sched s') = timers (sched s)
  /\ nextTimer (sched s') = nextTimer (sched s)
  /\ showTimeout (priv s') = showTimeout (priv s)
  /\ hideTimeout (priv s') = hideTimeout (priv s).

(** An instance that ignores [show] and [hide]: destroyed or disabled. *)
Definition Locked (s : Tippy) : Prop :=
  destroyed (state s) = true \/ enabled (state s) = false.

(** The guards of [show] that come after the one on the state. *)
Definition showable (s : Tippy) : bool :=
  negb (dynamicTitle (options s)
        && negb (Geometry.truthyAttr (originalTitle (reference s))))
  && negb (negb (refObj (reference s)) && negb (inDocument (reference s))).

(** [removeTitle(el)] of [Framework.js]: a non-empty title moves to
    [data-original-title], and the [title] attribute is removed. *)
Definition removeTitle (r : Reference) : Reference :=
  {| refObj := refObj r; inDocument := inDocument r;
     title := None;
     originalTitle := if Geometry.truthyAttr (title r) then title r
                      else originalTitle r;
     dataTippy := dataTippy r; hasTippy := hasTippy r;
     ariaDescribedby := ariaDescribedby r;
     registered := registered r |}.

End Lifecycle.

(** ** Notions used to state the laws of [addEventListeners] *)
Module Wiring.
Import Triggers.

(** The registrations on the reference are those it had, followed by the
    shared array [listeners]. *)
Definition Recorded (registered : list ListenerU) (st : WireState) : Prop :=
  ws_registered st = registered ++ ws_listeners st.

(** [st'] comes from [st] by calls of [on]. *)
Definition Extends (st st' : WireState) : Prop :=
  (forall registered, Recorded registered st -> Recorded registered st')
  /\ (forall l, In l (ws_listeners st) -> In l (ws_listeners st')).

End Wiring.

(** ** Notions used to state the laws of option values *)
Module Values.
Import JS.

(** Neither a string, nor an array of one element, nor the number
    negative zero (which [parseFloat] reads as zero): the values that no
    conversion of [getIndividualOptions] touches. *)
Definition plain (v : value) : bool :=
  match v with
  | VStr _ => false
  | VArr [_] => false
  | VNum NegZero => false
  | _ => true
  end.

End Values.

(** ** Notions used to state the laws of strings *)
Module Text.

(** Every character of [s] satisfies [p]. *)
Fixpoint allChars (p : ascii -> bool) (s : string) : bool :=
  match s with
  | EmptyString => true
  | String c s' => p c && allChars p s'
  end.

Definition noDash (s : string) : bool :=
  allChars (fun c => negb (Ascii.eqb c "-"%char)) s.

Definition oneLine (s : string) : bool :=
  allChars (fun c => negb (JS.isLineTerminator c)) s.

End Text.

(** ** Notions used to state the laws of the life cycle *)
Module Laws.
Import Instance.

Definition isEnable (a : Action) : bool :=
  match a with DoEnable => true | _ => false end.

(** Whether a listener is one of a list (same event, same handler). *)
Definition isListenerOf (ls : list Triggers.Listener) (l : Triggers.Listener)
  : bool :=
  existsb (listener_eqb l) ls.

(** What [reference.getAttribute('title')] gives after
    [setAttribute('title', getAttribute('data-original-title'))]: an
    element turns the value into a string, [null] into ["null"]; a
    polyfilled plain object stores the value as it is. *)
Definition restoredTitle (r : Reference) : option string :=
  if refObj r then originalTitle r
  else Some (match originalTitle r with
             | Some t => t
             | None => "null"%string
             end).

(** The reference that [destroy] leaves: the title restored, the two
    data attributes and [_tippy] removed, the listeners of [ls] removed. *)
Definition cleaned (ls : list Triggers.Listener) (r : Reference) : Reference :=
  {| refObj := refObj r; inDocument := inDocument r;
     title := restoredTitle r;
     originalTitle := None;
     dataTippy := false;
     hasTippy := false;
     ariaDescribedby := ariaDescribedby r;
     registered := List.filter (fun l => negb (isListenerOf ls l))
                     (registered r) |}.

(** The reference is as at the start until the instance is destroyed,
    and as [destroy] leaves it from then on, the attribute
    [aria-describedby] apart, which the continuations of [show] and [hide]
    set and remove. *)
Definition RefInv (ls : list Triggers.Listener) (r : Reference) (s : Tippy)
  : Prop :=
  listeners s = ls
  /\ withAria false (reference s)
     = withAria false (if destroyed (state s) then cleaned ls r else r).

Definition isDeferred (t : Timer) : bool :=
  match callback t with CbDeferred _ => true | _ => false end.

(** [Steady s s']: what the guards of [show] and [hide] read, and how
    often [onShow] and [onHide] were called, is the same in both; the
    references may differ in the attribute [aria-describedby]. *)
Definition Steady (s s' : Tippy) : Prop :=
  state s' = state s
  /\ options s' = options s
  /\ withAria false (reference s') = withAria false (reference s)
  /\ listeners s' = listeners s
  /\ calls onShow s' = calls onShow s
  /\ calls onHide s' = calls onHide s.

(** The timer [T] is pending, and no other pending timer calls [show] or
    [hide]. *)
Definition Waiting (T : Timer) (s : Tippy) : Prop :=
  Lifecycle.WellFormed s
  /\ In T (timers (sched s))
  /\ (forall t, In t (timers (sched s)) -> t = T \/ isDeferred t = true).

(** No pending timer calls [show] or [hide]. *)
Definition Settled (s : Tippy) : Prop :=
  forall t, In t (timers (sched s)) -> isDeferred t = true.

(** Every timer of [l] is [T], or is deferred work with another id. *)
Definition Others (T : Timer) (l : list Timer) : Prop :=
  forall u, In u l ->
            u = T \/ (isDeferred u = true /\ timerId u <> timerId T).

(** The state after [T] has fired, [s1] being the state it fired in. *)
Definition Fired (T : Timer) (s1 s : Tippy) : Prop :=
  Steady (runCallback (callback T) (clearTimeout (Some (timerId T)) s1)) s
  /\ (forall t, In t (timers (sched s)) ->
                isDeferred t = true /\ timerId t <> timerId T).


(** How far the continuation of a [hide] with resolved duration [r] has
    come: its popper is out of the document; or it waits for the next
    animation frame; or for the next run of the timers; or for the end of
    the transition. *)
Definition Unmounted (s : Tippy) : Prop := mounted (popper s) = false.

Definition HideQueued (r : option Z) (s : Tippy) : Prop :=
  In (FrDefer (DfHide r)) (frames (sched s)).

Definition HideArmed (r : option Z) (s : Tippy) : Prop :=
  exists t, In t (timers (sched s))
            /\ callback t = CbDeferred (DfHide r)
            /\ (due t <= now (sched s))%nat.

Definition HideListening (r : option Z) (s : Tippy) : Prop :=
  truthyNum r = true /\ transitionendListener (priv s) = Some AfterHide.

Definition Stage (k : nat) (r : option Z) (s : Tippy) : Prop :=
  match k with
  | 0%nat => Unmounted s \/ HideQueued r s \/ HideArmed r s
             \/ HideListening r s
  | 1%nat => Unmounted s \/ HideArmed r s \/ HideListening r s
  | 2%nat => Unmounted s \/ HideListening r s
  | _ => Unmounted s
  end.

Definition isUpdatePosition (f : FrameCallback) : bool :=
  match f with FrUpdatePosition => true | FrDefer _ => false end.



(** The popper is in the document while the instance is visible, a popper
    in the document has its positioning handle, and [onHidden] was called
    once for every earlier [onShow] whose popper is no longer in the
    document, at most. *)
Definition Consistent (s : Tippy) : Prop :=
  (visible (state s) = true -> mounted (popper s) = true)
  /\ (mounted (popper s) = true -> popperInstance s <> None)
  /\ (calls onHidden s + (if mounted (popper s) then 1 else 0)
      <= calls onShow s)%nat.

End Laws.

(** ** [Framework.js]: creation of one tooltip *)
Module Creation.
Import Instance.

(** The options that [createTooltips] reads besides those of
    [Instance.Options]; [html] is the truthiness of [options.html]. *)
Record Config : Type :=
  { html : bool;
    createPopperInstanceOnInit : bool;
    trigger : string;
    touchHold : bool }.

(** [_addMutationObserver]: the observer is stored when the browser has
    mutation observers. *)
Definition _addMutationObserver (s : Tippy) : Tippy :=
  if hasMutationObserver (browser s)
  then set_mutationObservers (mutationObservers (priv s) ++ [true]) s
  else s.

(** The callback of [els.reduce] in [createTooltips], for one reference
    and the options [evaluateOptions] gave: [None] when no instance is
    created.  The popper element itself ([createPopperElement]) is left
    out; [supportsTouch] is [browser.supportsTouch]. *)
Definition createTooltip (supportsTouch : bool) (o : Options) (c : Config)
    (b : Browser) (r : Reference) : option Tippy :=
  if negb (Geometry.truthyAttr (title r)) && negb (html c)
     && negb (dynamicTitle o)
  then None
  else
    (* reference.setAttribute('data-tippy', '') *)
    let r := {| refObj := refObj r; inDocument := inDocument r;
                title := title r; originalTitle := originalTitle r;
                dataTippy := true; hasTippy := hasTippy r;
                ariaDescribedby := ariaDescribedby r;
                registered := registered r |} in
    let r := Lifecycle.removeTitle r in
    let s := newTippy o r [] b in
    let s :=
      if createPopperInstanceOnInit c
      then set_eventListeners false (_createPopperInstance s)
      else s in
    let wired :=
      Triggers.wireTriggers supportsTouch (trigger c) (touchHold c)
        (registered (reference s)) in
    let s :=
      {| state := state s; priv := priv s; options := options s;
         listeners := snd wired; popperInstance := popperInstance s;
         reference :=
           {| refObj := refObj (reference s);
              inDocument := inDocument (reference s);
              title := title (reference s);
              originalTitle := originalTitle (reference s);
              dataTippy := dataTippy (reference s);
              hasTippy := hasTippy (reference s);
              ariaDescribedby := ariaDescribedby (reference s);
              registered := fst wired |};
         popper := popper s; sched := sched s; browser := browser s;
         trace := trace s; uncaught := uncaught s |} in
    let s := if dynamicTitle o then _addMutationObserver s else s in
    (* reference._tippy = tippy *)
    Some (upd_reference (fun r =>
            {| refObj := refObj r; inDocument := inDocument r;
               title := title r; originalTitle := originalTitle r;
               dataTippy := dataTippy r; hasTippy := true;
               ariaDescribedby := ariaDescribedby r;
               registered := registered r |}) s).

End Creation.

(** ** [evaluateOptions], and the options object that references share *)
Module Evaluate.
Import JS.

Section Evaluate.
(** References, and what calling a function of the options object
    returns: [call f None] is [f()], [call f (Some r)] is [f(r)]. *)
Variable Ref : Type.
Variable call : string -> option Ref -> value.

Definition isFunction (v : value) : bool :=
  match v with VFun _ => true | _ => false end.

(** [Framework.js]: the object [options] is changed in place and
    returned; the map is its state afterwards. *)
Definition evaluateOptions (reference : Ref) (options : gmap string value)
  : gmap string value :=
  let options :=
    if truthy (getProp options "arrow")
    then <["animateFill" := VBool false]> options
    else options in
  let options :=
    match getProp options "appendTo" with
    | VFun f => <["appendTo" := call f None]> options
    | _ => options
    end in
  match getProp options "html" with
  | VFun f => <["html" := call f (Some reference)]> options
  | _ => options
  end.

(** [utils.js]: the changes go to a new object [out], and the result is
    [{ ...options, ...out }]; [options] stays as it was. *)
Definition evaluateOptions_utils (reference : Ref)
    (options : gmap string value) : gmap string value :=
  let out : gmap string value := ∅ in
  let out :=
    if truthy (getProp options "arrow")
    then <["animateFill" := VBool false]> out
    else out in
  let out :=
    match getProp options "appendTo" with
    | VFun f => <["appendTo" := call f (Some reference)]> out
    | _ => out
    end in
  let out :=
    match getProp options "html" with
    | VFun f => <["html" := call f (Some reference)]> out
    | _ => out
    end in
  out ∪ options.

(** [createTooltips] of [Framework.js] with [config.performance] set:
    every reference is evaluated on the one object [config].  The result
    is what each reference read from that object when its tooltip was
    made, and the object at the end. *)
Fixpoint sharedOptions (config : gmap string value) (els : list Ref)
  : list (gmap string value) * gmap string value :=
  match els with
  | [] => ([], config)
  | reference :: rest =>
      let config := evaluateOptions reference config in
      let (seen, final) := sharedOptions config rest in
      (config :: seen, final)
  end.
End Evaluate.

End Evaluate.

(** ** [Framework.js]: detection of touch and mouse input

    [touchHandler] and [mousemoveHandler] of [bindEventListeners]. *)
Module InputDetection.

(** The argument of [browser.onUserInputChange]. *)
Inductive Input : Type := touch | mouse.

Definition input_eqb (a b : Input) : bool :=
  match a, b with
  | touch, touch | mouse, mouse => true
  | _, _ => false
  end.

Definition other (a : Input) : Input :=
  match a with touch => mouse | mouse => touch end.

(** What the handlers read and never write: [browser.iOS],
    [browser.dynamicInputDetection] and whether [window.performance]
    exists. *)
Record Env : Type :=
  { iOS : bool; dynamicInputDetection : bool; hasPerformance : bool }.

Record State : Type :=
  { usingTouch : bool;       (* browser.usingTouch *)
    listening : bool;        (* mousemoveHandler listens on the document *)
    time : option Z;         (* the closure's [time]; None is undefined *)
    touchClass : bool;       (* document.body has the class tippy-touch *)
    notified : list Input    (* the calls of browser.onUserInputChange *) }.

(** The state when [bindEventListeners] returns, on a page whose body
    does not carry the class. *)
Definition initial : State :=
  {| usingTouch := false; listening := false; time := None;
     touchClass := false; notified := [] |}.

Definition touchHandler (env : Env) (s : State) : State :=
  if usingTouch s then s
  else
    {| usingTouch := true;
       listening := if dynamicInputDetection env && hasPerformance env
                    then true else listening s;
       time := time s;
       touchClass := if iOS env then true else touchClass s;
       notified := notified s ++ [touch] |}.

(** [now] is [performance.now()]; with [time] undefined the difference
    is not a number and the comparison is false. *)
Definition mousemoveHandler (env : Env) (now : Z) (s : State) : State :=
  let close := match time s with
               | Some t => now - t <? 20
               | None => false
               end in
  let s :=
    if close then
      {| usingTouch := false;
         listening := false;
         time := time s;
         touchClass := if negb (iOS env) then false else touchClass s;
         notified := notified s ++ [mouse] |}
    else s in
  {| usingTouch := usingTouch s; listening := listening s;
     time := Some now; touchClass := touchClass s;
     notified := notified s |}.

(** What happens on the page: a [touchstart] (or a [pointerdown], where
    that is bound to the same handler), or a [mousemove] at a time. *)
Inductive Event : Type :=
| Touchstart
| Mousemove (now : Z).

Definition dispatch (env : Env) (s : State) (e : Event) : State :=
  match e with
  | Touchstart => touchHandler env s
  | Mousemove now => if listening s then mousemoveHandler env now s else s
  end.

(** The members of [l] are [first], the other one, [first], and so on. *)
Fixpoint alternating (first : Input) (l : list Input) : bool :=
  match l with
  | [] => true
  | x :: rest => input_eqb x first && alternating (other first) rest
  end.

(** Touch and mouse notifications alternate, starting with touch; touch
    is in use exactly after a touch notification; the [mousemove]
    listener is bound only while touch is in use; and the body carries
    the class exactly on iOS after the first touch. *)
Definition Coherent (env : Env) (s : State) : Prop :=
  alternating touch (notified s) = true
  /\ usingTouch s = Nat.odd (length (notified s))
  /\ (listening s = true -> usingTouch s = true)
  /\ touchClass s = iOS env && negb (Nat.eqb (length (notified s)) 0).

End InputDetection.

(** ** [Framework.js]: the listeners of an instance and the handlers of
    the document *)
Module Page.
Import Instance.

(** [options.hideOnClick]: [true], ['persistent'], or any other value. *)
Inductive HideOnClick : Type := HocTrue | HocPersistent | HocOther.

Definition isTrue (h : HideOnClick) : bool :=
  match h with HocTrue => true | _ => false end.

Definition isPersistent (h : HideOnClick) : bool :=
  match h with HocPersistent => true | _ => false end.

(** The options that the listeners and the handlers of the document read
    and that [Instance.Options] does not hold. *)
Record Extra : Type :=
  { hideOnClick : HideOnClick;
    trigger : string;
    interactive : bool;
    multiple : bool;
    touchHold : bool;
    border : Geometry.Options }.

(** An instance on the page.  [watchers] counts the pairs of listeners
    that [handleMouseleave] has bound and that are still bound: [hide] on
    [document.body] for [mouseleave], [handleMousemove] on the document
    for [mousemove]. *)
Record Entry : Type := { tip : Tippy; extra : Extra; watchers : nat }.

Definition with_tip (e : Entry) (s : Tippy) : Entry :=
  {| tip := s; extra := extra e; watchers := watchers e |}.

(** [browser.supportsTouch], [browser.iOS], and whether the reference
    has a [click] method. *)
Record Env : Type :=
  { supportsTouch : bool; iOS : bool; referenceHasClick : bool }.

(** [hay.indexOf(needle) > -1] *)
Fixpoint includes (needle hay : string) : bool :=
  match Numeric.stripPrefix needle hay with
  | Some _ => true
  | None =>
      match hay with
      | String _ rest => includes needle rest
      | EmptyString => false
      end
  end.

Definition set_lastTriggerEvent (e : option Event) : Tippy -> Tippy :=
  upd_priv (fun p =>
    {| isPreparingToShow := isPreparingToShow p;
       showTimeout := showTimeout p; hideTimeout := hideTimeout p;
       lastTriggerEvent := e;
       lastMouseMoveEvent := lastMouseMoveEvent p;
       followCursorListener := followCursorListener p;
       transitionendListener := transitionendListener p;
       mutationObservers := mutationObservers p |}).

(** *** The listeners of [_getEventListeners] *)

(** [handleTrigger(event)]; the second component tells whether
    [reference.click()] was called at the end. *)
Definition handleTrigger (env : Env) (event : Event) (e : Entry)
  : Entry * bool :=
  let s := tip e in
  if negb (enabled (state s)) then (e, false)
  else
    let shouldStopEvent :=
      supportsTouch env && usingTouch (browser s)
      && (String.eqb (ev_type event) "mouseenter"
          || String.eqb (ev_type event) "focus") in
    if shouldStopEvent && touchHold (extra e) then (e, false)
    else
      let s := set_lastTriggerEvent (Some event) s in
      let s :=
        if String.eqb (ev_type event) "click"
           && negb (isPersistent (hideOnClick (extra e)))
           && visible (state s)
        then _leave s
        else _enter event s in
      (with_tip e s, shouldStopEvent && iOS env && referenceHasClick env).

(** [handleMouseleave(event)]: for an interactive tooltip it binds one
    more pair of listeners and leaves the hiding to them. *)
Definition handleMouseleave (env : Env) (event : Event) (e : Entry) : Entry :=
  if String.eqb (ev_type event) "mouseleave"
     && supportsTouch env && usingTouch (browser (tip e))
     && touchHold (extra e)
  then e
  else if interactive (extra e)
  then {| tip := tip e; extra := extra e; watchers := S (watchers e) |}
  else with_tip e (_leave (tip e)).

(** What [handleMousemove] reads from a [mousemove] on the document:
    whether the popper of the instance, or its reference, is the closest
    one above the target; the cursor; and the popper's placement and
    box. *)
Record MoveEvent : Type :=
  { overPopper : bool;
    overReference : bool;
    cursor : Geometry.MouseEvent;
    popperBox : Geometry.Popper }.

(** One [handleMousemove]: outside the border it unbinds itself and its
    [hide], and calls [_leave]. *)
Definition handleMousemove (m : MoveEvent) (e : Entry) : Entry :=
  if overPopper m || overReference m then e
  else if Geometry.cursorIsOutsideInteractiveBorder (cursor m) (popperBox m)
            (border (extra e))
  then {| tip := _leave (tip e); extra := extra e;
          watchers := Nat.pred (watchers e) |}
  else e.

(** A [mousemove] on the document runs every [handleMousemove] that was
    bound when it arrived. *)
Definition documentMousemove (m : MoveEvent) (e : Entry) : Entry :=
  Nat.iter (watchers e) (handleMousemove m) e.

(** A [mouseleave] on [document.body] runs every [hide] that is bound;
    they stay bound. *)
Definition bodyMouseleave (e : Entry) : Entry :=
  with_tip e (Nat.iter (watchers e) _leave (tip e)).

(** A [blur]: [relatedInPopper] is [None] when [event.relatedTarget] is
    null, else whether a popper is at or above the related target. *)
Definition handleBlur (relatedInPopper : option bool) (e : Entry) : Entry :=
  match relatedInPopper with
  | None => e
  | Some inPopper =>
      if usingTouch (browser (tip e)) then e
      else if inPopper then e
      else with_tip e (_leave (tip e))
  end.

(** *** An event on the reference *)

Record DomEvent : Type :=
  { dom : Event; relatedInPopper : option bool }.

Definition runListener (env : Env) (l : Triggers.Listener) (d : DomEvent)
    (e : Entry) : Entry * bool :=
  match Triggers.handler l with
  | Triggers.handleTrigger => handleTrigger env (dom d) e
  | Triggers.handleMouseleave => (handleMouseleave env (dom d) e, false)
  | Triggers.handleBlur => (handleBlur (relatedInPopper d) e, false)
  end.

(** A listener bound twice for the same event is bound once. *)
Fixpoint distinct (ls : list Triggers.Listener) : list Triggers.Listener :=
  match ls with
  | [] => []
  | l :: rest =>
      l :: List.filter (fun x => negb (listener_eqb x l)) (distinct rest)
  end.

(** The listeners of the reference for an event type, in the order in
    which they were bound. *)
Definition listenersFor (type : string) (e : Entry)
  : list Triggers.Listener :=
  distinct (List.filter (fun l => String.eqb (Triggers.event l) type)
              (registered (reference (tip e)))).

(** The event reaches the listeners that were bound when it was
    dispatched and are still bound when their turn comes; the second
    component counts the calls of [reference.click()]. *)
Definition dispatchOnReference (env : Env) (d : DomEvent) (e : Entry)
  : Entry * nat :=
  fold_left
    (fun (acc : Entry * nat) l =>
       let (e, clicks) := acc in
       if Laws.isListenerOf (registered (reference (tip e))) l then
         let (e', clicked) := runListener env l d e in
         (e', (clicks + (if clicked then 1 else 0))%nat)
       else acc)
    (listenersFor (ev_type (dom d)) e) (e, 0%nat).

(** *** The handlers of the document *)

(** [hideAllPoppers(excludeTippy)].  The page lists the instances in the
    order of their poppers in the document; [exclude] is the position of
    [excludeTippy].  The result is the page afterwards and the exception,
    if one was thrown: [popper._reference._tippy] is [undefined] once
    [destroy] has deleted it, and reading [options] of it throws. *)
Fixpoint hideAllPoppers_from (i : nat) (exclude : option nat)
    (page : list Entry) : list Entry * option JS.JsError :=
  match page with
  | [] => ([], None)
  | e :: rest =>
      if mounted (popper (tip e)) then
        if negb (hasTippy (reference (tip e)))
        then (page, Some (JS.TypeError "tippy is undefined"))
        else
          let e' :=
            if (isTrue (hideOnClick (extra e))
                || includes "focus" (trigger (extra e)))
               && negb (match exclude with
                        | Some x => (x =? i)%nat
                        | None => false
                        end)
            then with_tip e (hide None (tip e))
            else e in
          let (rest', err) := hideAllPoppers_from (S i) exclude rest in
          (e' :: rest', err)
      else
        let (rest', err) := hideAllPoppers_from (S i) exclude rest in
        (e :: rest', err)
  end.

Definition hideAllPoppers (exclude : option nat) (page : list Entry)
  : list Entry * option JS.JsError :=
  hideAllPoppers_from 0 exclude page.

(** The target of a click: not an element; or an element, with the
    closest reference above it ([Some None] is an element that carries
    [data-tippy] and no instance, [Some (Some i)] the reference of the
    instance at position [i]) and the closest popper above it. *)
Inductive ClickTarget : Type :=
| NotElement
| Element (reference : option (option nat)) (popper : option nat).

(** [clickHandler(event)]; [touchInUse] is [browser.usingTouch]. *)
Definition clickHandler (touchInUse : bool) (target : ClickTarget)
    (page : list Entry) : list Entry * option JS.JsError :=
  match target with
  | NotElement => hideAllPoppers None page
  | Element reference popper =>
      let undefinedTippy := Some (JS.TypeError "_tippy is undefined") in
      let inInteractive :=
        match popper with
        | None => Some false
        | Some j =>
            match nth_error page j with
            | Some p => if hasTippy (Instance.reference (tip p))
                        then Some (interactive (extra p))
                        else None
            | None => None
            end
        end in
      match inInteractive with
      | None => (page, undefinedTippy)
      | Some true => (page, None)
      | Some false =>
          match reference with
          | None => hideAllPoppers None page
          | Some None => (page, undefinedTippy)
          | Some (Some i) =>
              match nth_error page i with
              | None => (page, undefinedTippy)
              | Some r =>
                  if negb (hasTippy (Instance.reference (tip r)))
                  then (page, undefinedTippy)
                  else
                    let clickTriggered :=
                      includes "click" (trigger (extra r)) in
                    if (negb (multiple (extra r)) && touchInUse)
                       || (negb (multiple (extra r)) && clickTriggered)
                    then hideAllPoppers (Some i) page
                    else if negb (isTrue (hideOnClick (extra r)))
                            || clickTriggered
                    then (page, None)
                    else hideAllPoppers None page
              end
          end
      end
  end.



End Page.

(* ===================================================================== *)
(** * Part II: theorems                                                   *)
(* ===================================================================== *)

(** ** Interactive border *)
Section InteractiveBorder.
Import Geometry.

Lemma outside_no_placement placementOf event popper options :
  truthyAttr (x_placement popper) = false ->
  cursorIsOutsideInteractiveBorder_with placementOf event popper options
  = true.
Proof.
  intros H. unfold cursorIsOutsideInteractiveBorder_with.
  now rewrite H.
Qed.

(** With a placement, the predicate is the disjunction over the four
    sides of "beyond the side by more than its threshold". *)
Lemma outside_placed placementOf event popper options attr p :
  x_placement popper = Some attr ->
  attr <> EmptyString ->
  placementOf attr = sideName p ->
  cursorIsOutsideInteractiveBorder_with placementOf event popper options
  = true
  <-> exists s : Side,
        threshold p s options < beyond s event (boundingClientRect popper).
Proof.
  intros Hattr Hne Hp.
  unfold cursorIsOutsideInteractiveBorder_with.
  assert (Ht : truthyAttr (x_placement popper) = true).
  { rewrite Hattr. unfold truthyAttr.
    destruct (String.eqb_spec attr EmptyString) as [E | E]; [ | reflexivity].
    now elim Hne. }
  rewrite Ht, Hattr, Hp. cbn [negb].
  split.
  - intros H.
    destruct p; cbn in H;
      repeat (apply orb_true_iff in H; destruct H as [H | H]);
      apply Z.ltb_lt in H;
      first [ now (exists Top) | now (exists Bottom)
            | now (exists Left) | now (exists Right) ].
  - intros [s Hs].
    destruct p, s; cbn in Hs |- *; apply Z.ltb_lt in Hs; rewrite Hs;
      now rewrite ?orb_true_r.
Qed.
End InteractiveBorder.

(** C7.  For every mouse position, popper box, placement among top, bottom,
    left and right, interactive-border width [b] and distance [d], the
    cursor-outside-interactive-border predicate is true exactly when the
    cursor lies beyond the box on some side by more than [b], the side equal
    to the current placement using the threshold [b + d] instead; and with
    no placement assigned yet the predicate is true.  Both revisions of the
    function ([Framework.js] and [utils.js]) are covered. *)
Theorem cursor_outside_interactive_border :
  forall (event : Geometry.MouseEvent) (popper : Geometry.Popper)
         (options : Geometry.Options),
    (Geometry.truthyAttr (Geometry.x_placement popper) = false ->
     Geometry.cursorIsOutsideInteractiveBorder event popper options = true
     /\ Geometry.cursorIsOutsideInteractiveBorder_utils event popper options
        = true)
    /\ (forall (attr : string) (p : Geometry.Side),
          Geometry.x_placement popper = Some attr ->
          attr <> EmptyString ->
          (Geometry.getPopperPlacement attr = Geometry.sideName p ->
           Geometry.cursorIsOutsideInteractiveBorder event popper options
           = true
           <-> exists s : Geometry.Side,
                 Geometry.threshold p s options
                 < Geometry.beyond s event
                     (Geometry.boundingClientRect popper))
          /\ (Geometry.getPopperPlacement_utils attr = Geometry.sideName p ->
              Geometry.cursorIsOutsideInteractiveBorder_utils event popper
                options = true
              <-> exists s : Geometry.Side,
                    Geometry.threshold p s options
                    < Geometry.beyond s event
                        (Geometry.boundingClientRect popper))).
Proof.
  intros event popper options. split.
  - intros H. split; now apply outside_no_placement.
  - intros attr p Hattr Hne. split; intros Hp.
    + now apply (outside_placed _ event popper options attr p).
    + now apply (outside_placed _ event popper options attr p).
Qed.

Lemma cursor_outside_interactive_border_witness :
  let event := {| Geometry.clientX := 50; Geometry.clientY := 80 |} in
  let popper :=
    {| Geometry.x_placement := Some "top-start"%string;
       Geometry.boundingClientRect :=
         {| Geometry.top := 100; Geometry.bottom := 140;
            Geometry.left := 40; Geometry.right := 90 |} |} in
  let options :=
    {| Geometry.interactiveBorder := 2; Geometry.distance := 10 |} in
  Geometry.cursorIsOutsideInteractiveBorder event popper options = true
  <-> exists s : Geometry.Side,
        Geometry.threshold Geometry.Top s options
        < Geometry.beyond s event (Geometry.boundingClientRect popper).
Proof.
  intros event popper options.
  apply (proj1 (proj2 (cursor_outside_interactive_border event popper options)
                  "top-start"%string Geometry.Top eq_refl
                  ltac:(discriminate)));
    reflexivity.
Defined.

(** ** Follow-cursor positioning *)
Section FollowCursorBounds.
Import FollowCursor.

(** Twice the rounded half covers the whole width. *)
Lemma roundHalf_covers (n : Z) : n <= 2 * roundHalf n <= n + 1.
Proof.
  unfold roundHalf.
  pose proof (Z.div_mod (n + 1) 2 ltac:(lia)) as Hd.
  pose proof (Z.mod_pos_bound (n + 1) 2 ltac:(lia)) as Hm.
  lia.
Qed.

(** For the placements [left] and [right] the listener writes the
    unclamped coordinate. *)
Lemma follow_cursor_side_unclamped (i : Input) :
  lastTriggerIsFocus i = false ->
  placement i = "right"%string ->
  exists pos, followCursorListener i = Some pos
              /\ pos_x pos = Some (pageX i + 5).
Proof.
  intros Hf Hp. unfold followCursorListener. rewrite Hf, Hp. cbn.
  eexists. split; reflexivity.
Qed.
End FollowCursorBounds.

(** C8, the claim as stated fails: with the placement [right] the
    horizontal position is [pageX + 5] whatever the page width.  Here the
    page is 100 wide, the floating element 20, the cursor at 100: the
    position is 105, beyond [100 - 5 - 20 = 75].  And with the placement
    [top] on a page narrower than the floating element plus the padding
    (page 100, element 200) the interval is empty: the position is 5. *)
Lemma follow_cursor_right_placement_escapes :
  let i :=
    {| FollowCursor.lastTriggerIsFocus := false;
       FollowCursor.documentElementOffsetWidth := 100;
       FollowCursor.bodyOffsetWidth := 100;
       FollowCursor.popperOffsetWidth := 20;
       FollowCursor.popperOffsetHeight := 10;
       FollowCursor.offset := 0;
       FollowCursor.optionsPlacement := "right"%string;
       FollowCursor.popperPlacementAttr := None;
       FollowCursor.pageX := 100;
       FollowCursor.pageY := 30 |} in
  let j :=
    {| FollowCursor.lastTriggerIsFocus := false;
       FollowCursor.documentElementOffsetWidth := 100;
       FollowCursor.bodyOffsetWidth := 100;
       FollowCursor.popperOffsetWidth := 200;
       FollowCursor.popperOffsetHeight := 10;
       FollowCursor.offset := 0;
       FollowCursor.optionsPlacement := "top"%string;
       FollowCursor.popperPlacementAttr := None;
       FollowCursor.pageX := 50;
       FollowCursor.pageY := 30 |} in
  (FollowCursor.followCursorListener i
   = Some {| FollowCursor.pos_x := Some 105; FollowCursor.pos_y := Some 25 |}
   /\ ~ (FollowCursor.PADDING <= 105
         <= FollowCursor.pageWidth i - FollowCursor.PADDING
            - FollowCursor.popperOffsetWidth i))
  /\ (FollowCursor.followCursorListener j
      = Some {| FollowCursor.pos_x := Some 5; FollowCursor.pos_y := Some 20 |}
      /\ ~ (FollowCursor.PADDING <= 5
            <= FollowCursor.pageWidth j - FollowCursor.PADDING
               - FollowCursor.popperOffsetWidth j)).
Proof.
  cbv zeta. split; (split; [reflexivity | ]);
    vm_compute; intros [_ H]; now apply H.
Qed.

(** C8, amended.  For a follow-cursor listener whose placement is [top] or
    [bottom], and a page wide enough for the floating element plus
    [PADDING] on both sides, every mousemove event (not ignored because the
    trigger was a focus) is given a horizontal position [x] with
    [PADDING <= x <= pageWidth - PADDING - 2 * round(width / 2)], hence
    within [[PADDING, pageWidth - PADDING - floatingWidth]]. *)
Theorem follow_cursor_x_within_bounds :
  forall i : FollowCursor.Input,
    FollowCursor.lastTriggerIsFocus i = false ->
    FollowCursor.placement i = "top"%string
    \/ FollowCursor.placement i = "bottom"%string ->
    2 * FollowCursor.PADDING
    + 2 * FollowCursor.roundHalf (FollowCursor.popperOffsetWidth i)
    <= FollowCursor.pageWidth i ->
    exists (pos : FollowCursor.Position) (x : Z),
      FollowCursor.followCursorListener i = Some pos
      /\ FollowCursor.pos_x pos = Some x
      /\ FollowCursor.PADDING <= x
      /\ x <= FollowCursor.pageWidth i - FollowCursor.PADDING
              - 2 * FollowCursor.roundHalf (FollowCursor.popperOffsetWidth i)
      /\ x <= FollowCursor.pageWidth i - FollowCursor.PADDING
              - FollowCursor.popperOffsetWidth i.
Proof.
  intros i Hf Hp Hw.
  pose proof (roundHalf_covers (FollowCursor.popperOffsetWidth i)) as Hc.
  unfold FollowCursor.followCursorListener. rewrite Hf.
  unfold FollowCursor.PADDING in *.
  set (W := FollowCursor.pageWidth i) in *.
  set (h := FollowCursor.roundHalf (FollowCursor.popperOffsetWidth i)) in *.
  assert (Hx :
    exists x,
      (if (FollowCursor.pageX i - 5 - h + FollowCursor.offset i <? 0)
       then Some 5
       else if (W <? FollowCursor.pageX i + 5 + h + FollowCursor.offset i)
            then Some (W - 5 - 2 * h)
            else Some (FollowCursor.pageX i - h + FollowCursor.offset i))
      = Some x /\ 5 <= x <= W - 5 - 2 * h).
  { destruct (Z.ltb_spec (FollowCursor.pageX i - 5 - h + FollowCursor.offset i) 0);
      [ exists 5; split; [reflexivity | lia] | ].
    destruct (Z.ltb_spec W (FollowCursor.pageX i + 5 + h + FollowCursor.offset i));
      eexists; (split; [reflexivity | lia]). }
  destruct Hx as (x & Hx & Hb).
  destruct Hp as [Hp | Hp]; rewrite Hp; cbn [String.eqb Ascii.eqb Bool.eqb orb fst snd];
    eexists; exists x; (split; [reflexivity | ]); cbn [FollowCursor.pos_x];
    (split; [ | lia]);
    rewrite <- Hx;
    destruct (FollowCursor.pageX i - 5 - h + FollowCursor.offset i <? 0);
    destruct (W <? FollowCursor.pageX i + 5 + h + FollowCursor.offset i);
    reflexivity.
Qed.

Lemma follow_cursor_x_within_bounds_witness :
  exists (pos : FollowCursor.Position) (x : Z),
    FollowCursor.followCursorListener
      {| FollowCursor.lastTriggerIsFocus := false;
         FollowCursor.documentElementOffsetWidth := 1000;
         FollowCursor.bodyOffsetWidth := 1000;
         FollowCursor.popperOffsetWidth := 121;
         FollowCursor.popperOffsetHeight := 40;
         FollowCursor.offset := 0;
         FollowCursor.optionsPlacement := "top-start"%string;
         FollowCursor.popperPlacementAttr := None;
         FollowCursor.pageX := 990;
         FollowCursor.pageY := 300 |} = Some pos
    /\ FollowCursor.pos_x pos = Some x
    /\ FollowCursor.PADDING <= x
    /\ x <= 1000 - FollowCursor.PADDING - 2 * FollowCursor.roundHalf 121
    /\ x <= 1000 - FollowCursor.PADDING - 121.
Proof.
  apply (follow_cursor_x_within_bounds
           {| FollowCursor.lastTriggerIsFocus := false;
              FollowCursor.documentElementOffsetWidth := 1000;
              FollowCursor.bodyOffsetWidth := 1000;
              FollowCursor.popperOffsetWidth := 121;
              FollowCursor.popperOffsetHeight := 40;
              FollowCursor.offset := 0;
              FollowCursor.optionsPlacement := "top-start"%string;
              FollowCursor.popperPlacementAttr := None;
              FollowCursor.pageX := 990;
              FollowCursor.pageY := 300 |}).
  - reflexivity.
  - left. reflexivity.
  - vm_compute. discriminate.
Defined.

(** ** Virtual references *)
Section VirtualReferenceLaws.
Import JS VirtualReference.
Variable host : Host.

Lemma lookupProps_objectPrototype k :
  In k objectPrototypeKeys <-> lookupProps objectPrototypeProps k <> None.
Proof.
  unfold objectPrototypeKeys, objectPrototypeProps, lookupProps.
  cbn [map fst List.find In].
  repeat match goal with
    | |- context [String.eqb ?a k] =>
        destruct (String.eqb_spec a k) as [<- | ?]
    end; cbn [snd]; split; intros H; try discriminate; try congruence;
    try (now repeat (first [left; reflexivity | right]));
    intuition congruence.
Qed.

Lemma inherited_objectPrototype k :
  ~ In k objectPrototypeKeys -> inherited host ObjectPrototype k = None.
Proof.
  intros H. cbn [inherited].
  destruct (lookupProps objectPrototypeProps k) eqn:E; [ | reflexivity].
  exfalso. apply H. apply lookupProps_objectPrototype. congruence.
Qed.

Lemma proto_not_inherited k :
  ~ In k objectPrototypeKeys -> String.eqb k "__proto__" = false.
Proof.
  intros H. destruct (String.eqb_spec k "__proto__") as [-> | ]; [ | easy].
  exfalso. apply H. unfold objectPrototypeKeys, objectPrototypeProps.
  cbn. tauto.
Qed.

(** On an ordinary chain of prototypes no read and no write throws. *)
Lemma inherited_ordinary p k r :
  ordinary p = true -> inherited host p k = Some r -> exists v, r = Ok v.
Proof.
  induction p as [ | | props parent IH | v]; cbn [ordinary inherited];
    intros Ho H; try discriminate.
  - destruct (lookupProps _ k); [ | discriminate]. injection H as <-. eauto.
  - destruct (lookupProps props k); [injection H as <-; eauto | eauto].
Qed.

Lemma extends_ordinary p k : ordinary p = true -> extends host p k = true.
Proof.
  induction p as [ | | props parent IH | v]; cbn [ordinary extends];
    intros Ho; try reflexivity; try discriminate.
  destruct (lookupProps props k); [reflexivity | auto].
Qed.

Lemma readProp_returns o k :
  ordinary (proto o) = true -> returns (readProp host o k).
Proof.
  intros Ho. unfold readProp. destruct (own o !! k); [exact I | ].
  destruct (throughAccessor o k); [exact I | ].
  destruct (inherited host (proto o) k) as [r | ] eqn:E; [ | exact I].
  destruct (inherited_ordinary _ _ _ Ho E) as [v ->]. exact I.
Qed.

Lemma writeProp_returns o k v :
  ordinary (proto o) = true -> returns (writeProp host o k v).
Proof.
  intros Ho. unfold writeProp. destruct (throughAccessor o k).
  - now destruct (asProto v).
  - destruct (own o !! k); [exact I | ].
    now rewrite (extends_ordinary _ k Ho).
Qed.

(** Writing under a name other than [__proto__] adds or replaces the own
    property and leaves the prototype as it was. *)
Lemma writeProp_own o k v o' :
  String.eqb k "__proto__" = false ->
  writeProp host o k v = Ok o' ->
  own o' = <[k := v]> (own o) /\ proto o' = proto o.
Proof.
  intros Hk. unfold writeProp, throughAccessor. rewrite Hk. cbn [andb].
  destruct (own o !! k); [intros [= <-]; now split | ].
  destruct (extends host (proto o) k); [ | discriminate].
  intros [= <-]. now split.
Qed.

(** Writing [true], or any other primitive, never changes the prototype;
    under [__proto__] it changes nothing at all when the accessor is
    reached. *)
Lemma writeProp_true o k o' :
  writeProp host o k (VBool true) = Ok o' ->
  proto o' = proto o
  /\ (own o' = <[k := VBool true]> (own o)
      \/ (throughAccessor o k = true /\ o' = o)).
Proof.
  unfold writeProp. destruct (throughAccessor o k) eqn:Ht.
  - cbn [asProto]. intros [= <-]. split; [reflexivity | now right].
  - destruct (own o !! k).
    + intros [= <-]. split; [reflexivity | now left].
    + destruct (extends host (proto o) k); [ | discriminate].
      intros [= <-]. split; [reflexivity | now left].
Qed.

Lemma readProp_own o k v : own o !! k = Some v -> readProp host o k = Ok v.
Proof. intros H. unfold readProp. now rewrite H. Qed.

Lemma inOperator_own o k v : own o !! k = Some v -> inOperator host o k = true.
Proof. intros H. unfold inOperator. now rewrite H. Qed.

(** After [delete], the name is in the object exactly if it inherits
    it. *)
Lemma inOperator_delete o k :
  inOperator host (deleteProp o k) k
  = match inherited host (proto o) k with Some _ => true | None => false end.
Proof.
  unfold inOperator, deleteProp. cbn [own proto]. now rewrite lookup_delete_eq.
Qed.

(** Another name is not disturbed. *)
Lemma throughAccessor_own o o' k' :
  own o' !! k' = own o !! k' -> proto o' = proto o ->
  throughAccessor o' k' = throughAccessor o k'.
Proof. intros H1 H2. unfold throughAccessor. now rewrite H1, H2. Qed.

Lemma readProp_other o o' k' :
  own o' !! k' = own o !! k' -> proto o' = proto o ->
  readProp host o' k' = readProp host o k'.
Proof.
  intros H1 H2. unfold readProp.
  now rewrite (throughAccessor_own o o' k' H1 H2), H1, H2.
Qed.

Lemma inOperator_other o o' k' :
  own o' !! k' = own o !! k' -> proto o' = proto o ->
  inOperator host o' k' = inOperator host o k'.
Proof. intros H1 H2. unfold inOperator. now rewrite H1, H2. Qed.

(** No operation of the [reference.js] polyfill raises on a reference
    whose dictionaries inherit from ordinary objects only. *)
Lemma polyfilled_operations_return (r : Polyfilled) (k : string) (v : value) :
  ordinary (proto (attributes r)) = true ->
  ordinary (proto (classNames r)) = true ->
  returns (setAttribute host k v r) /\ returns (getAttribute host k r)
  /\ returns (removeAttribute k r) /\ returns (hasAttribute host k r)
  /\ returns (addEventListener k r) /\ returns (removeEventListener k r)
  /\ returns (classList_add host k r) /\ returns (classList_remove k r)
  /\ returns (classList_contains host k r).
Proof.
  intros Ha Hc.
  pose proof (writeProp_returns (attributes r) k v Ha) as W.
  pose proof (writeProp_returns (classNames r) k (VBool true) Hc) as W'.
  pose proof (readProp_returns (attributes r) k Ha) as R.
  unfold setAttribute, classList_add, getAttribute.
  destruct (writeProp host (attributes r) k v); [ | contradiction].
  destruct (writeProp host (classNames r) k (VBool true)); [ | contradiction].
  cbn. tauto.
Qed.

Lemma polyfilled_isVirtual (o : PlainObject) :
  isVirtual (polyfillElementPrototypeProperties o) = true.
Proof. reflexivity. Qed.

End VirtualReferenceLaws.

(** X29.  The round trips of a polyfilled virtual reference, for a name
    that [Object.prototype] does not have.  On a reference whose two
    dictionaries inherit from [Object.prototype] (as the objects that
    [{}] makes do), for every key [k] that is none of the names inherited
    from [Object.prototype] and every value [v]: the four operations
    return; after [setAttribute(k, v)], [getAttribute(k)] returns [v] and
    [hasAttribute(k)] is true; after [removeAttribute(k)],
    [hasAttribute(k)] is false; after [classList.add(k)],
    [classList.contains(k)] is true; after [classList.remove(k)],
    [classList.contains(k)] is false. *)
Theorem round_trips_of_own_names :
  forall (host : JS.Host) (r : VirtualReference.Polyfilled) (k : string)
         (v : JS.value),
    JS.proto (VirtualReference.attributes r) = JS.ObjectPrototype ->
    JS.proto (VirtualReference.classNames r) = JS.ObjectPrototype ->
    ~ In k JS.objectPrototypeKeys ->
    (exists r', VirtualReference.setAttribute host k v r = JS.Ok r'
                /\ VirtualReference.getAttribute host k r' = JS.Ok v
                /\ VirtualReference.hasAttribute host k r' = JS.Ok true)
    /\ (exists r', VirtualReference.removeAttribute k r = JS.Ok r'
                   /\ VirtualReference.hasAttribute host k r' = JS.Ok false)
    /\ (exists r', VirtualReference.classList_add host k r = JS.Ok r'
                   /\ VirtualReference.classList_contains host k r'
                      = JS.Ok true)
    /\ (exists r', VirtualReference.classList_remove k r = JS.Ok r'
                   /\ VirtualReference.classList_contains host k r'
                      = JS.Ok false).
Proof.
  intros host r k v Ha Hc Hk.
  pose proof (proto_not_inherited k Hk) as Hp.
  pose proof (inherited_objectPrototype host k Hk) as Hi.
  assert (W : forall o x, JS.proto o = JS.ObjectPrototype ->
                exists o', JS.writeProp host o k x = JS.Ok o'
                           /\ JS.own o' !! k = Some x).
  { intros o x Ho. unfold JS.writeProp, JS.throughAccessor. rewrite Hp, Ho.
    cbn [andb JS.extends].
    destruct (JS.own o !! k); eexists; (split; [reflexivity | ]);
      cbn [JS.own]; apply lookup_insert_eq. }
  repeat split.
  - destruct (W (VirtualReference.attributes r) v Ha) as (a & Hw & Hl).
    unfold VirtualReference.setAttribute. rewrite Hw. cbn [JS.bind]. eexists.
    split; [reflexivity | ].
    unfold VirtualReference.getAttribute, VirtualReference.hasAttribute.
    cbn [VirtualReference.attributes].
    now rewrite (readProp_own host a k v Hl), (inOperator_own host a k v Hl).
  - eexists. split; [reflexivity | ].
    unfold VirtualReference.hasAttribute. cbn [VirtualReference.attributes].
    now rewrite inOperator_delete, Ha, Hi.
  - destruct (W (VirtualReference.classNames r) (JS.VBool true) Hc)
      as (c & Hw & Hl).
    unfold VirtualReference.classList_add. rewrite Hw. cbn [JS.bind]. eexists.
    split; [reflexivity | ].
    unfold VirtualReference.classList_contains.
    cbn [VirtualReference.classNames].
    now rewrite (inOperator_own host c k _ Hl).
  - eexists. split; [reflexivity | ].
    unfold VirtualReference.classList_contains.
    cbn [VirtualReference.classNames].
    now rewrite inOperator_delete, Hc, Hi.
Qed.

Lemma round_trips_of_own_names_witness :
  let host := {| JS.builtin := fun _ _ => None;
                 JS.assignable := fun _ _ => true |} in
  let r := VirtualReference.polyfillElementPrototypeProperties
             {| VirtualReference.po_attributes := None |} in
  JS.bind (VirtualReference.setAttribute host "title" (JS.VStr "Hello") r)
    (VirtualReference.getAttribute host "title")
  = JS.Ok (JS.VStr "Hello")
  /\ JS.bind (VirtualReference.removeAttribute "title" r)
       (VirtualReference.hasAttribute host "title")
     = JS.Ok false.
Proof.
  intros host r.
  destruct (round_trips_of_own_names host r "title" (JS.VStr "Hello")
              ltac:(reflexivity) ltac:(reflexivity))
    as ((r1 & S1 & S2 & _) & (r2 & R1 & R2) & _).
  - unfold JS.objectPrototypeKeys, JS.objectPrototypeProps. cbn [map fst In].
    intuition discriminate.
  - rewrite S1, R1. cbn [JS.bind]. split; [exact S2 | exact R2].
Defined.

(** C10, evaluated on [reference.js].  [hasAttribute] and
    [classList.contains] test [key in] a plain object, which is also true
    of the names that every object inherits from [Object.prototype].  On
    the reference that [polyfillElementPrototypeProperties] makes of [{}],
    for each of these names [k] ([constructor], [toString], ...):
    [hasAttribute(k)] is true after [removeAttribute(k)], and
    [classList.contains(k)] is true after [classList.remove(k)]; and after
    [setAttribute('__proto__', 'x')], [getAttribute('__proto__')] returns
    the prototype of the dictionary, not ['x']. *)
Theorem inherited_names_break_round_trips :
  forall (host : JS.Host) (k : string),
    let r := VirtualReference.polyfillElementPrototypeProperties
               {| VirtualReference.po_attributes := None |} in
    (In k JS.objectPrototypeKeys ->
     JS.bind (VirtualReference.removeAttribute k r)
       (VirtualReference.hasAttribute host k) = JS.Ok true
     /\ JS.bind (VirtualReference.classList_remove k r)
          (VirtualReference.classList_contains host k) = JS.Ok true)
    /\ JS.bind (VirtualReference.removeAttribute "constructor" r)
         (VirtualReference.hasAttribute host "constructor") = JS.Ok true
    /\ JS.bind (VirtualReference.setAttribute host "__proto__" (JS.VStr "x") r)
         (VirtualReference.getAttribute host "__proto__")
       = JS.Ok (JS.VObj JS.objectPrototypeProps).
Proof.
  intros host k r. split; [ | split; reflexivity].
  intros Hk. apply (lookupProps_objectPrototype k) in Hk.
  cbn [JS.bind VirtualReference.removeAttribute
         VirtualReference.classList_remove].
  unfold VirtualReference.hasAttribute, VirtualReference.classList_contains.
  cbn [VirtualReference.attributes VirtualReference.classNames].
  rewrite !inOperator_delete. subst r.
  cbn [VirtualReference.polyfillElementPrototypeProperties
         VirtualReference.po_attributes VirtualReference.attributes
         VirtualReference.classNames JS.literal JS.proto JS.inherited].
  destruct (JS.lookupProps JS.objectPrototypeProps k); [ | congruence].
  now split.
Qed.

(** ** The factory *)
Section FactoryFacts.
Import JS VirtualReference Factory.
Variable Instance : Type.
Variable Defaults : gmap string value.
Variable createTippy : Reference -> gmap string value -> Instance.
Variable querySelectorAll : string -> option (list nat).


Lemma validate_accepts_in (keys : list string) :
  (forall key, In key keys -> hasProp Defaults key = true) ->
  validate Defaults keys = Ok tt.
Proof.
  induction keys as [| k rest IH]; intros H; [reflexivity | ].
  cbn [validate]. rewrite (H k (or_introl eq_refl)). cbn [negb].
  apply IH. intros key Hk. apply H. now right.
Qed.

Lemma validate_accepts (keys : list string) :
  (forall key, In key keys -> is_Some (Defaults !! key)) ->
  validate Defaults keys = Ok tt.
Proof.
  intros H. apply validate_accepts_in. intros key Hk.
  destruct (H key Hk) as [v Hv]. unfold hasProp. now rewrite Hv.
Qed.

Lemma createAll_length options refs (w : World Instance) :
  length (fst (createAll Instance createTippy options refs w)) = length refs.
Proof.
  revert w. induction refs as [| r rest IH]; intros w; [reflexivity | ].
  cbn [createAll].
  specialize (IH {| eventListenersBound := eventListenersBound w;
                    globalBindings := globalBindings w;
                    built := built w ++ [createTippy r options] |}).
  destruct (createAll Instance createTippy options rest _) as [others w2].
  cbn in *. now rewrite IH.
Qed.

Lemma createAll_built options refs (w : World Instance) :
  built (snd (createAll Instance createTippy options refs w))
  = built w ++ fst (createAll Instance createTippy options refs w).
Proof.
  revert w. induction refs as [| r rest IH]; intros w.
  - cbn. now rewrite app_nil_r.
  - cbn [createAll].
    specialize (IH {| eventListenersBound := eventListenersBound w;
                      globalBindings := globalBindings w;
                      built := built w ++ [createTippy r options] |}).
    destruct (createAll Instance createTippy options rest _) as [others w2].
    cbn in *. rewrite IH. now rewrite <- app_assoc.
Qed.

(** With recognized options only, a plain object yields a collection
    with one reference and one instance. *)
Lemma tippy_plain_object o supplied one (w : World Instance) :
  (forall key, In key (map fst supplied) -> is_Some (Defaults !! key)) ->
  exists c w',
    tippy Instance Defaults createTippy querySelectorAll
      (TPlainObject o) (Some supplied) one w = (Ok c, w')
    /\ c_references c = [RVirtual (polyfillVirtualReferenceProps o)]
    /\ length (c_instances c) = 1%nat
    /\ built w' = built w ++ c_instances c.
Proof.
  intros Hok. unfold tippy.
  rewrite (validate_accepts _ Hok).
  cbn [getArrayOfElements].
  assert (Hch : (match one with
                 | true => [RVirtual (polyfillVirtualReferenceProps o)]
                 | false => [RVirtual (polyfillVirtualReferenceProps o)]
                 end) = [RVirtual (polyfillVirtualReferenceProps o)])
    by now destruct one.
  rewrite Hch. cbn [createAll].
  eexists. eexists. split; [reflexivity | ].
  cbn. repeat split. now destruct (eventListenersBound w).
Qed.
End FactoryFacts.

(** C3, evaluated on the factory.  [tippy] tests a supplied key with
    [key in Defaults], which is also true of the names that [Defaults]
    inherits from [Object.prototype].  Whatever the defaults are, the
    options object [{toString: v}], whose key is no option, is accepted:
    [tippy] throws nothing, the instances are built, one for every
    reference (for the first one only with [one]), and the options they
    get hold [v] under [toString]. *)
Theorem inherited_option_name_is_accepted :
  forall (Instance : Type) (Defaults : gmap string JS.value)
         (createTippy : Factory.Reference -> gmap string JS.value -> Instance)
         (querySelectorAll : string -> option (list nat))
         (targets : Factory.Targets) (v : JS.value) (one : bool)
         (w : Factory.World Instance),
    exists c w',
      Factory.tippy Instance Defaults createTippy querySelectorAll
        targets (Some [("toString"%string, v)]) one w = (JS.Ok c, w')
      /\ Factory.c_options c !! "toString"%string = Some v
      /\ length (Factory.c_instances c)
         = length (match one, Factory.c_references c with
                   | true, first :: _ => [first]
                   | _, _ => Factory.c_references c
                   end)
      /\ Factory.built w' = Factory.built w ++ Factory.c_instances c.
Proof.
  intros Instance Defaults createTippy qsa targets v one w.
  unfold Factory.tippy.
  rewrite (validate_accepts_in Defaults (map fst [("toString"%string, v)])).
  2:{ intros key [<- | []]. cbn [fst]. unfold JS.hasProp.
      destruct (Defaults !! "toString"%string); reflexivity. }
  match goal with
  | |- context [Factory.createAll _ _ ?o ?refs ?w0] =>
      pose proof (createAll_length Instance createTippy o refs w0) as HL;
      pose proof (createAll_built Instance createTippy o refs w0) as HB;
      destruct (Factory.createAll Instance createTippy o refs w0)
        as [instances w1]
  end.
  cbn [fst snd] in HL, HB.
  eexists. eexists. split; [reflexivity | ].
  cbn [Factory.c_options Factory.c_instances Factory.c_references].
  split; [apply lookup_insert_eq | ]. split; [exact HL | ].
  rewrite HB. now destruct (Factory.eventListenersBound w).
Qed.



(** C9, evaluated on [utils.js].  A plain object without an [attributes]
    property, handed to the factory with no options, gives a collection
    with exactly one reference and one instance, and the polyfilled
    reference has [isVirtual = true]; but on that reference
    [setAttribute] throws a [ReferenceError] (its body names [out], which
    is bound nowhere), [hasAttribute] does not exist, and [getAttribute]
    and [removeAttribute] read a property of [undefined].  Only the
    class-list operations return. *)
Theorem virtual_reference_utils_operations_raise :
  forall (Instance : Type) (Defaults : gmap string JS.value)
         (createTippy : Factory.Reference -> gmap string JS.value -> Instance)
         (querySelectorAll : string -> option (list nat))
         (one : bool) (w : Factory.World Instance),
    let o := {| VirtualReference.po_attributes := None |} in
    let r := VirtualReference.polyfillVirtualReferenceProps o in
    (exists c w',
        Factory.tippy Instance Defaults createTippy querySelectorAll
          (Factory.TPlainObject o) None one w = (JS.Ok c, w')
        /\ Factory.c_references c = [Factory.RVirtual r]
        /\ length (Factory.c_instances c) = 1%nat)
    /\ VirtualReference.u_isVirtual r = true
    /\ (forall k v,
          VirtualReference.setAttribute_utils k v r
          = JS.Throw (JS.ReferenceError "out"))
    /\ (forall k,
          VirtualReference.hasAttribute_utils k r
          = JS.Throw (JS.TypeError "reference.hasAttribute is not a function"))
    /\ (forall host k,
          VirtualReference.getAttribute_utils host k r
          = JS.Throw (JS.TypeError "virtualReference.attributes is undefined"))
    /\ (forall k,
          VirtualReference.removeAttribute_utils k r
          = JS.Throw (JS.TypeError "virtualReference.attributes is undefined"))
    /\ (forall host k,
          JS.returns (VirtualReference.classList_add_utils host k r)
          /\ JS.returns (VirtualReference.classList_remove_utils k r)
          /\ JS.returns (VirtualReference.classList_contains_utils host k r)).
Proof.
  intros Instance Defaults createTippy qsa one w o r.
  split.
  - unfold Factory.tippy. cbn [map Factory.validate Factory.getArrayOfElements].
    fold o. fold r.
    assert (Hch : (match one with
                   | true => [Factory.RVirtual r]
                   | false => [Factory.RVirtual r]
                   end) = [Factory.RVirtual r]) by now destruct one.
    rewrite Hch. cbn [Factory.createAll].
    eexists. eexists. split; [reflexivity | ]. cbn. split; reflexivity.
  - split; [reflexivity | ].
    split; [intros k v; reflexivity | ].
    split; [intros k; reflexivity | ].
    split; [intros host k; reflexivity | ].
    split; [intros k; reflexivity | ].
    intros host k.
    pose proof (writeProp_returns host (VirtualReference.u_classNames r) k
                  (JS.VBool true) eq_refl) as W.
    pose proof (readProp_returns host (VirtualReference.u_classNames r) k
                  eq_refl) as R.
    unfold VirtualReference.classList_add_utils,
      VirtualReference.classList_contains_utils.
    destruct (JS.writeProp host _ k _); [ | contradiction].
    destruct (JS.readProp host _ k); [ | contradiction].
    cbn. tauto.
Qed.

(** Even when the caller's object brings its own [attributes], the
    [utils.js] polyfill cannot set an attribute. *)
Lemma setAttribute_utils_always_raises (o : VirtualReference.PlainObject) k v :
  VirtualReference.setAttribute_utils k v
    (VirtualReference.polyfillVirtualReferenceProps o)
  = JS.Throw (JS.ReferenceError "out").
Proof. reflexivity. Qed.

(** ** Trigger wiring *)
Section TriggerFacts.
Import Triggers.

(** [createTrigger] of [Framework.js] registers, for each trigger name,
    its own listeners and nothing else. *)
Lemma createTrigger_manual supportsTouch registered touchHold :
  createTrigger supportsTouch "manual" registered touchHold
  = (registered, []).
Proof. reflexivity. Qed.

Lemma createTrigger_mouseenter supportsTouch registered touchHold :
  createTrigger supportsTouch "mouseenter" registered touchHold
  = let own :=
      {| event := "mouseenter"; handler := handleTrigger |}
      :: (if supportsTouch && touchHold
          then [ {| event := "touchstart"; handler := handleTrigger |};
                 {| event := "touchend"; handler := handleMouseleave |} ]
          else [])
      ++ [ {| event := "mouseleave"; handler := handleMouseleave |} ] in
    (registered ++ own, own).
Proof.
  unfold createTrigger, register.
  destruct (supportsTouch && touchHold); cbn;
    now rewrite <- ?app_assoc.
Qed.

Lemma createTrigger_focus supportsTouch registered touchHold :
  createTrigger supportsTouch "focus" registered touchHold
  = let own := [ {| event := "focus"; handler := handleTrigger |};
                 {| event := "blur"; handler := handleBlur |} ] in
    (registered ++ own, own).
Proof. unfold createTrigger, register. cbn. now rewrite <- app_assoc. Qed.

Lemma createTrigger_other supportsTouch e registered touchHold :
  e <> "manual"%string -> e <> "mouseenter"%string -> e <> "focus"%string ->
  createTrigger supportsTouch e registered touchHold
  = (registered ++ [ {| event := e; handler := handleTrigger |} ],
     [ {| event := e; handler := handleTrigger |} ]).
Proof.
  intros H1 H2 H3. unfold createTrigger, register.
  apply String.eqb_neq in H1, H2, H3. now rewrite H1, H2, H3.
Qed.

(** A collection of three references with [trigger = "manual"]: no
    listener at all. *)
(** Whatever the reference already carries, [createTrigger] appends the
    listeners of the trigger name and returns exactly those. *)
Lemma createTrigger_appends supportsTouch e registered touchHold :
  createTrigger supportsTouch e registered touchHold
  = (registered ++ snd (createTrigger supportsTouch e [] touchHold),
     snd (createTrigger supportsTouch e [] touchHold)).
Proof.
  unfold createTrigger, register.
  destruct (String.eqb e "manual"); cbn [fst snd];
    [now rewrite app_nil_r | ].
  destruct (String.eqb e "mouseenter"), (String.eqb e "focus"),
    (supportsTouch && touchHold); cbn [fst snd app];
    now rewrite <- ?app_assoc.
Qed.

(** A whole trigger configuration: the listeners are those of its
    names, in order, and nothing else. *)
Lemma wireTriggers_listeners supportsTouch trigger touchHold registered :
  let own :=
    concat (map (fun e => snd (createTrigger supportsTouch e [] touchHold))
              (JS.split " "%char (JS.trim trigger))) in
  wireTriggers supportsTouch trigger touchHold registered
  = (registered ++ own, own).
Proof.
  unfold wireTriggers.
  generalize (JS.split " "%char (JS.trim trigger)). intros names.
  assert (G : forall regs acc,
             fold_left
               (fun st eventType =>
                  let r := createTrigger supportsTouch eventType (fst st)
                             touchHold in
                  (fst r, snd st ++ snd r))
               names (regs, acc)
             = (regs ++ concat (map (fun e => snd (createTrigger supportsTouch
                                                     e [] touchHold)) names),
                acc ++ concat (map (fun e => snd (createTrigger supportsTouch
                                                    e [] touchHold)) names))).
  { induction names as [| e rest IH]; intros regs acc; cbn [fold_left map concat].
    - now rewrite !app_nil_r.
    - cbn [fst snd]. rewrite (createTrigger_appends _ e regs).
      cbn [fst snd]. rewrite IH. now rewrite <- !app_assoc. }
  cbv zeta. now rewrite G.
Qed.

Lemma wireTriggers_manual supportsTouch touchHold registered :
  wireTriggers supportsTouch "manual" touchHold registered
  = (registered, []).
Proof. reflexivity. Qed.
End TriggerFacts.

(** C6, evaluated on [utils.js].  In direct mode (no [target] option),
    the trigger configuration ["mouseenter"] makes [addEventListeners]
    register three listeners on the reference: the trigger handler, the
    [mouseleave] handler, and also the [blur] handler that belongs to the
    trigger name [focus], because the [case 'mouseenter'] of the [switch]
    has no [break].  ["manual"] registers nothing. *)
Theorem addEventListeners_mouseenter_registers_blur :
  Triggers.addEventListeners false [] "mouseenter" false
  = ( [ {| Triggers.eventType := "mouseenter";
           Triggers.handlerU := Triggers.onTrigger |};
        {| Triggers.eventType := "mouseleave";
           Triggers.handlerU := Triggers.onMouseLeave |};
        {| Triggers.eventType := "blur";
           Triggers.handlerU := Triggers.onBlur |} ],
      [ {| Triggers.eventType := "mouseenter";
           Triggers.handlerU := Triggers.onTrigger |};
        {| Triggers.eventType := "mouseleave";
           Triggers.handlerU := Triggers.onMouseLeave |};
        {| Triggers.eventType := "blur";
           Triggers.handlerU := Triggers.onBlur |} ] )
  /\ Triggers.addEventListeners false [] "manual" false = ([], [])
  /\ fst (Triggers.createTrigger false "mouseenter" [] false)
     = [ {| Triggers.event := "mouseenter";
            Triggers.handler := Triggers.handleTrigger |};
         {| Triggers.event := "mouseleave";
            Triggers.handler := Triggers.handleMouseleave |} ].
Proof. repeat split. Qed.

(** The array [listeners] is shared by the iterations of the [reduce], so
    with two trigger names the returned array repeats the listeners of the
    first name; the reference itself gets each listener once. *)
Example addEventListeners_two_names :
  Triggers.addEventListeners false [] "focus click" false
  = ( [ {| Triggers.eventType := "focus";
           Triggers.handlerU := Triggers.onTrigger |};
        {| Triggers.eventType := "blur";
           Triggers.handlerU := Triggers.onBlur |};
        {| Triggers.eventType := "focus";
           Triggers.handlerU := Triggers.onTrigger |};
        {| Triggers.eventType := "blur";
           Triggers.handlerU := Triggers.onBlur |};
        {| Triggers.eventType := "click";
           Triggers.handlerU := Triggers.onTrigger |} ],
      [ {| Triggers.eventType := "focus";
           Triggers.handlerU := Triggers.onTrigger |};
        {| Triggers.eventType := "blur";
           Triggers.handlerU := Triggers.onBlur |};
        {| Triggers.eventType := "click";
           Triggers.handlerU := Triggers.onTrigger |} ] ).
Proof. reflexivity. Qed.

(** ** The instance state machine *)
Section InstanceFacts.
Import Instance.

Lemma calls_call h h' s :
  calls h (call h' s) = (calls h s + (if hook_eqb h h' then 1 else 0))%nat.
Proof.
  unfold calls, call. cbn [trace].
  rewrite List.filter_app, length_app. cbn.
  now destruct (hook_eqb h h').
Qed.

Lemma In_filter_in {A} (f : A -> bool) (l : list A) (x : A) :
  In x (List.filter f l) -> In x l.
Proof. intros H. now apply List.filter_In in H. Qed.

Lemma In_insertByDue t u l : In t (insertByDue u l) -> t = u \/ In t l.
Proof.
  induction l as [| v rest IH]; cbn [insertByDue].
  - intros [E | []]. now left.
  - destruct (due u <? due v)%nat.
    + intros [E | H]; [now left | now right].
    + intros [E | H]; [right; now left | ].
      destruct (IH H) as [E | H']; [now left | right; now right].
Qed.

Lemma In_sortByDue t l : In t (sortByDue l) -> In t l.
Proof.
  unfold sortByDue.
  assert (G : forall acc, In t (fold_left (fun acc t => insertByDue t acc) l acc)
                          -> In t acc \/ In t l).
  { induction l as [| u rest IH]; cbn; intros acc H; [now left | ].
    destruct (IH _ H) as [H' | H']; [ | right; now right].
    destruct (In_insertByDue _ _ _ H') as [-> | H'']; [right; now left | now left]. }
  intros H. destruct (G [] H) as [[] | H']. exact H'.
Qed.

(** What [clearTimeout] leaves. *)
Lemma clearTimeout_spec id s :
  state (clearTimeout id s) = state s
  /\ priv (clearTimeout id s) = priv s
  /\ options (clearTimeout id s) = options s
  /\ browser (clearTimeout id s) = browser s
  /\ trace (clearTimeout id s) = trace s
  /\ now (sched (clearTimeout id s)) = now (sched s)
  /\ nextTimer (sched (clearTimeout id s)) = nextTimer (sched s)
  /\ (forall t, In t (timers (sched (clearTimeout id s))) ->
                In t (timers (sched s)) /\ Some (timerId t) <> id).
Proof.
  destruct id as [i |]; cbn.
  - do 7 (split; [reflexivity | ]).
    intros t H. apply List.filter_In in H. destruct H as [H1 H2].
    split; [assumption | ].
    apply negb_true_iff, Nat.eqb_neq in H2. congruence.
  - do 7 (split; [reflexivity | ]).
    intros t H. split; [assumption | discriminate].
Qed.

Lemma clearDelayTimeouts_spec s :
  state (_clearDelayTimeouts s) = state s
  /\ priv (_clearDelayTimeouts s) = priv s
  /\ options (_clearDelayTimeouts s) = options s
  /\ browser (_clearDelayTimeouts s) = browser s
  /\ trace (_clearDelayTimeouts s) = trace s
  /\ now (sched (_clearDelayTimeouts s)) = now (sched s)
  /\ nextTimer (sched (_clearDelayTimeouts s)) = nextTimer (sched s)
  /\ (forall t, In t (timers (sched (_clearDelayTimeouts s))) ->
                In t (timers (sched s))
                /\ Some (timerId t) <> showTimeout (priv s)).
Proof.
  unfold _clearDelayTimeouts.
  pose proof (clearTimeout_spec (showTimeout (priv s)) s)
    as (E1 & E2 & E3 & E4 & E5 & E6 & E7 & E8).
  pose proof (clearTimeout_spec (hideTimeout (priv s))
                (clearTimeout (showTimeout (priv s)) s))
    as (F1 & F2 & F3 & F4 & F5 & F6 & F7 & F8).
  rewrite F1, F2, F3, F4, F5, F6, F7, E1, E2, E3, E4, E5, E6, E7.
  do 7 (split; [reflexivity | ]).
  intros t H. apply F8 in H. destruct H as [H _]. now apply E8 in H.
Qed.

Ltac case_ifs :=
  repeat match goal with
    | |- context [if ?c then _ else _] => destruct c eqn:?
    | |- context [match ?x with _ => _ end] => destruct x eqn:?
    end.

Ltac calls_same :=
  unfold calls; cbn; rewrite ?List.filter_app, ?length_app; cbn;
  rewrite ?Nat.add_0_r; try reflexivity.

Lemma Keeps_refl s : Keeps s s.
Proof. now repeat split. Qed.

Lemma Keeps_trans s1 s2 s3 : Keeps s1 s2 -> Keeps s2 s3 -> Keeps s1 s3.
Proof.
  intros (A1 & A2 & A3 & A4) (B1 & B2 & B3 & B4).
  repeat split; congruence.
Qed.

Lemma Keeps_Calm s s' : Keeps s s' -> Calm s s'.
Proof.
  intros (A1 & A2 & _). split; [assumption | ].
  intros t H _. now rewrite <- A2.
Qed.

Lemma Calm_refl s : Calm s s.
Proof. split; [reflexivity | auto]. Qed.

Lemma Calm_trans s1 s2 s3 : Calm s1 s2 -> Calm s2 s3 -> Calm s1 s3.
Proof.
  intros (A1 & A2) (B1 & B2). split; [congruence | ].
  intros t H Hc. apply A2; [ | assumption]. now apply B2.
Qed.

Lemma hide_keeps d s : Keeps s (hide d s).
Proof. unfold hide. case_ifs; now repeat split. Qed.

Lemma hide_calls_onShow d s : calls onShow (hide d s) = calls onShow s.
Proof. unfold hide. case_ifs; calls_same. Qed.

Lemma hide_visible d s :
  destroyed (state s) = false -> enabled (state s) = true ->
  visible (state (hide d s)) = false.
Proof. intros H1 H2. unfold hide. now rewrite H1, H2. Qed.

Lemma hide_not_visible d s :
  visible (state s) = false -> visible (state (hide d s)) = false.
Proof. intros H. unfold hide. case_ifs; assumption || reflexivity. Qed.

Lemma destroy_cleanup_keeps s : Keeps s (destroy_cleanup s).
Proof. unfold destroy_cleanup. now repeat split. Qed.

Lemma destroy_keeps s : Keeps s (destroy s).
Proof.
  unfold destroy. case_ifs; [apply Keeps_refl | | apply destroy_cleanup_keeps].
  eapply Keeps_trans; [apply hide_keeps | apply destroy_cleanup_keeps].
Qed.

Lemma destroy_calls_onShow s : calls onShow (destroy s) = calls onShow s.
Proof.
  unfold destroy. case_ifs; try reflexivity.
  transitivity (calls onShow (hide (Some 0) s));
    [reflexivity | apply hide_calls_onShow].
Qed.

Lemma mount_keeps d s : Keeps s (_mount d s).
Proof.
  unfold _mount, _createPopperInstance. case_ifs; now repeat split.
Qed.

Lemma show_keeps d s : Keeps s (show d s).
Proof.
  unfold show.
  case_ifs;
    first [ apply Keeps_refl | apply destroy_keeps
          | eapply Keeps_trans; [ | apply mount_keeps]; now repeat split ].
Qed.

Lemma onTransitionEnd_keeps d k s : Keeps s (_onTransitionEnd d k s).
Proof.
  unfold _onTransitionEnd, runTransitionCallback, afterShow, afterHide.
  case_ifs; now repeat split.
Qed.

Lemma onTransitionEnd_visible d k s :
  visible (state (_onTransitionEnd d k s)) = visible (state s).
Proof.
  unfold _onTransitionEnd, runTransitionCallback, afterShow, afterHide.
  case_ifs; cbn; congruence.
Qed.

Lemma onTransitionEnd_calls_onShow d k s :
  calls onShow (_onTransitionEnd d k s) = calls onShow s.
Proof.
  unfold _onTransitionEnd, runTransitionCallback, afterShow, afterHide.
  case_ifs; calls_same.
Qed.

Lemma runDeferred_keeps f s : Keeps s (runDeferred f s).
Proof.
  destruct f; cbn [runDeferred]; [apply onTransitionEnd_keeps | ].
  unfold updatePosition. case_ifs; now repeat split.
Qed.

Lemma runDeferred_visible f s :
  visible (state (runDeferred f s)) = visible (state s).
Proof.
  destruct f; cbn [runDeferred]; [apply onTransitionEnd_visible | ].
  unfold updatePosition. case_ifs; cbn; congruence.
Qed.

Lemma runDeferred_calls_onShow f s :
  calls onShow (runDeferred f s) = calls onShow s.
Proof.
  destruct f; cbn [runDeferred]; [apply onTransitionEnd_calls_onShow | ].
  unfold updatePosition. case_ifs; reflexivity.
Qed.

(** No callback arms a timer. *)
Lemma runCallback_keeps cb s : Keeps s (runCallback cb s).
Proof.
  destruct cb; cbn [runCallback].
  - apply show_keeps.
  - case_ifs; [apply Keeps_refl | apply hide_keeps].
  - apply runDeferred_keeps.
Qed.

(** A callback other than the one of [_enter] leaves a hidden instance
    hidden and calls no [onShow]. *)
Lemma runCallback_hidden cb s :
  cb <> CbShow -> visible (state s) = false ->
  visible (state (runCallback cb s)) = false
  /\ calls onShow (runCallback cb s) = calls onShow s.
Proof.
  intros Hcb Hv. destruct cb; [congruence | | ]; cbn [runCallback].
  - rewrite Hv. cbn. now split.
  - rewrite runDeferred_visible, runDeferred_calls_onShow. now split.
Qed.

Lemma runFrame_spec f s :
  Calm s (runFrame f s)
  /\ now (sched (runFrame f s)) = now (sched s)
  /\ options (runFrame f s) = options s
  /\ visible (state (runFrame f s)) = visible (state s)
  /\ calls onShow (runFrame f s) = calls onShow s.
Proof.
  destruct f; cbn [runFrame].
  - split; [ | now repeat split].
    split; [reflexivity | ].
    cbn. intros t H Hc. apply in_app_or in H. destruct H as [H | [E | []]];
      [assumption | ]. subst t. discriminate.
  - unfold updatePosition. case_ifs;
      (split; [apply Calm_refl || (split; [reflexivity | now cbn]) | now repeat split]).
Qed.

Lemma fire_spec t s :
  Calm s (fire t s)
  /\ now (sched (fire t s)) = now (sched s)
  /\ options (fire t s) = options s
  /\ (callback t <> CbShow -> visible (state s) = false ->
      visible (state (fire t s)) = false
      /\ calls onShow (fire t s) = calls onShow s).
Proof.
  unfold fire.
  destruct (existsb _ _); [ | split; [apply Calm_refl | now repeat split]].
  pose proof (clearTimeout_spec (Some (timerId t)) s)
    as (E1 & E2 & E3 & E4 & E5 & E6 & E7 & E8).
  pose proof (runCallback_keeps (callback t) (clearTimeout (Some (timerId t)) s))
    as (K1 & K2 & K3 & K4).
  split; [ | split; [congruence | split; [congruence | ]]].
  - split; [congruence | ].
    intros u Hu Hc. rewrite K2 in Hu. now apply E8 in Hu.
  - intros Hcb Hv.
    destruct (runCallback_hidden (callback t) (clearTimeout (Some (timerId t)) s) Hcb)
      as [V C]; [now rewrite E1 | ].
    split; [assumption | ]. rewrite C. unfold calls. now rewrite E5.
Qed.

Lemma fold_fire_spec l s :
  Calm s (fold_left (fun s t => fire t s) l s)
  /\ now (sched (fold_left (fun s t => fire t s) l s)) = now (sched s)
  /\ options (fold_left (fun s t => fire t s) l s) = options s
  /\ ((forall t, In t l -> callback t <> CbShow) ->
      visible (state s) = false ->
      visible (state (fold_left (fun s t => fire t s) l s)) = false
      /\ calls onShow (fold_left (fun s t => fire t s) l s) = calls onShow s).
Proof.
  revert s. induction l as [| t rest IH]; intros s; cbn [fold_left].
  - split; [apply Calm_refl | now repeat split].
  - destruct (fire_spec t s) as (C & N & O & V).
    destruct (IH (fire t s)) as (C' & N' & O' & V').
    split; [eapply Calm_trans; eassumption | ].
    split; [congruence | split; [congruence | ]].
    intros Hl Hv.
    destruct (V (Hl t (or_introl eq_refl)) Hv) as [V1 V2].
    destruct (V' (fun u Hu => Hl u (or_intror Hu)) V1) as [V3 V4].
    split; [assumption | congruence].
Qed.

Lemma fold_runFrame_spec l s :
  Calm s (fold_left (fun s f => runFrame f s) l s)
  /\ now (sched (fold_left (fun s f => runFrame f s) l s)) = now (sched s)
  /\ options (fold_left (fun s f => runFrame f s) l s) = options s
  /\ visible (state (fold_left (fun s f => runFrame f s) l s))
     = visible (state s)
  /\ calls onShow (fold_left (fun s f => runFrame f s) l s) = calls onShow s.
Proof.
  revert s. induction l as [| f rest IH]; intros s; cbn [fold_left].
  - split; [apply Calm_refl | now repeat split].
  - destruct (runFrame_spec f s) as (C & N & O & V & T).
    destruct (IH (runFrame f s)) as (C' & N' & O' & V' & T').
    split; [eapply Calm_trans; eassumption | ].
    repeat split; congruence.
Qed.

Lemma tick_spec s :
  Calm s (tick s)
  /\ now (sched (tick s)) = S (now (sched s))
  /\ options (tick s) = options s
  /\ ((forall t, In t (timers (sched s)) -> callback t = CbShow ->
                 (S (now (sched s)) < due t)%nat) ->
      visible (state s) = false ->
      visible (state (tick s)) = false
      /\ calls onShow (tick s) = calls onShow s).
Proof.
  unfold tick.
  set (s1 := upd_sched _ s).
  set (l := sortByDue _).
  destruct (fold_fire_spec l s1) as (C & N & O & V).
  split; [ | split; [exact N | split; [exact O | ]]].
  - destruct C as [C1 C2]. split; [exact C1 | ].
    intros t H Hc. exact (C2 t H Hc).
  - intros Hdue Hv. apply V; [ | exact Hv].
    intros t Ht Hc. apply In_sortByDue, List.filter_In in Ht.
    destruct Ht as [Ht Hd]. apply Nat.leb_le in Hd. cbn in Ht, Hd.
    specialize (Hdue t Ht Hc). lia.
Qed.

Lemma animationFrame_spec s :
  Calm s (animationFrame s)
  /\ now (sched (animationFrame s)) = now (sched s)
  /\ options (animationFrame s) = options s
  /\ visible (state (animationFrame s)) = visible (state s)
  /\ calls onShow (animationFrame s) = calls onShow s.
Proof.
  unfold animationFrame.
  set (s1 := upd_sched _ s).
  destruct (fold_runFrame_spec (frames (sched s)) s1) as (C & N & O & V & T).
  split; [ | now repeat split].
  destruct C as [C1 C2]. split; [exact C1 | ].
  intros t H Hc. exact (C2 t H Hc).
Qed.

Lemma mountCallback_spec d s :
  Keeps s (mountCallback d s)
  /\ visible (state (mountCallback d s)) = visible (state s)
  /\ calls onShow (mountCallback d s) = calls onShow s.
Proof.
  unfold mountCallback.
  destruct (visible (state s)) eqn:Hv; cbn [negb];
    [ | split; [apply Keeps_refl | now split]].
  destruct (mountCallbackThrows s);
    [split; [now repeat split | now split] | ].
  match goal with
  | |- context [_onTransitionEnd d AfterShow ?x] => set (s1 := x)
  end.
  pose proof (onTransitionEnd_keeps d AfterShow s1) as K.
  rewrite onTransitionEnd_visible, onTransitionEnd_calls_onShow.
  assert (K1 : Keeps s s1 /\ visible (state s1) = true
               /\ calls onShow s1 = calls onShow s).
  { subst s1. case_ifs; cbn; (split; [now repeat split | now split]). }
  destruct K1 as (K1 & V1 & T1).
  split; [eapply Keeps_trans; eassumption | now split].
Qed.

Lemma popperUpdate_spec s :
  Keeps s (popperUpdate s)
  /\ visible (state (popperUpdate s)) = visible (state s)
  /\ calls onShow (popperUpdate s) = calls onShow s.
Proof.
  unfold popperUpdate.
  destruct (popperInstance s) as [pi |];
    [ | split; [apply Keeps_refl | now split]].
  destruct (pi_destroyed pi); [split; [apply Keeps_refl | now split] | ].
  destruct (pendingCallbacks pi) as [| d rest];
    [split; [apply Keeps_refl | now split] | ].
  destruct (mountCallbackThrows s); [apply mountCallback_spec | ].
  match goal with
  | |- context [mountCallback d ?x] => set (s1 := x)
  end.
  destruct (mountCallback_spec d s1) as (K & V & T).
  split; [ | now split].
  eapply Keeps_trans; [ | exact K]. now repeat split.
Qed.

Lemma transitionEnd_spec s :
  Keeps s (transitionEnd s)
  /\ visible (state (transitionEnd s)) = visible (state s)
  /\ calls onShow (transitionEnd s) = calls onShow s.
Proof.
  unfold transitionEnd, runTransitionCallback, afterShow, afterHide.
  case_ifs; cbn; (split; [now repeat split | split; [congruence | calls_same]]).
Qed.

(** One step of the page: it arms no [show] timer; and while no pending
    [show] timer comes due, a hidden instance stays hidden and [onShow]
    is not called. *)
Lemma envStep_spec e s :
  Calm s (envStep e s)
  /\ now (sched (envStep e s))
     = (now (sched s) + (if isTick e then 1 else 0))%nat
  /\ options (envStep e s) = options s
  /\ ((isTick e = true ->
       forall t, In t (timers (sched s)) -> callback t = CbShow ->
                 (S (now (sched s)) < due t)%nat) ->
      visible (state s) = false ->
      visible (state (envStep e s)) = false
      /\ calls onShow (envStep e s) = calls onShow s).
Proof.
  destruct e; cbn [envStep isTick].
  - destruct (tick_spec s) as (C & N & O & V).
    split; [exact C | split; [lia | split; [exact O | ]]].
    intros H. apply V. now apply H.
  - destruct (animationFrame_spec s) as (C & N & O & V & T).
    split; [exact C | split; [lia | split; [exact O | ]]].
    intros _ Hv. split; congruence.
  - destruct (popperUpdate_spec s) as ((K1 & K2 & K3 & K4) & V & T).
    split; [apply Keeps_Calm; now repeat split | ].
    split; [lia | split; [exact K4 | ]].
    intros _ Hv. split; congruence.
  - destruct (transitionEnd_spec s) as ((K1 & K2 & K3 & K4) & V & T).
    split; [apply Keeps_Calm; now repeat split | ].
    split; [lia | split; [exact K4 | ]].
    intros _ Hv. split; congruence.
Qed.

Lemma elapsed_cons e steps :
  elapsed (e :: steps) = ((if isTick e then 1 else 0) + elapsed steps)%nat.
Proof. unfold elapsed. cbn. now destruct (isTick e). Qed.

(** Any number of steps, as long as the pending [show] timers are not
    yet due when the steps are over. *)
Lemma run_hidden steps : forall (ok : Timer -> Prop) s,
  Hidden ok s ->
  (forall t, ok t -> (now (sched s) + elapsed steps < due t)%nat) ->
  Hidden ok (run steps s)
  /\ showTimeout (priv (run steps s)) = showTimeout (priv s)
  /\ calls onShow (run steps s) = calls onShow s
  /\ now (sched (run steps s)) = (now (sched s) + elapsed steps)%nat
  /\ options (run steps s) = options s.
Proof.
  induction steps as [| e rest IH]; intros ok s [Hv Ht] Hdue.
  - cbn. repeat split; try assumption. unfold elapsed. cbn. lia.
  - change (run (e :: rest) s) with (run rest (envStep e s)).
    rewrite elapsed_cons in *.
    destruct (envStep_spec e s) as ((C1 & C2) & N & O & V).
    destruct V as [V1 V2]; [ | exact Hv | ].
    { intros He t Hin Hc. specialize (Hdue t (Ht t Hin Hc)).
      rewrite He in Hdue. lia. }
    destruct (IH ok (envStep e s)) as (H1 & H2 & H3 & H4 & H5).
    + split; [exact V1 | ]. intros t Hin Hc. apply Ht; [ | exact Hc].
      now apply C2.
    + intros t Hok. specialize (Hdue t Hok). rewrite N. lia.
    + split; [exact H1 | ]. split; [congruence | ]. split; [congruence | ].
      split; [rewrite H4, N; lia | congruence].
Qed.

(** [_enter] on a hidden instance without [wait] hook and with a non-zero
    delay-in: the only pending [show] timer is the new one. *)
Lemma enter_arms s event d :
  showTimersTracked s ->
  visible (state s) = false ->
  wait (options s) = None ->
  getDuration (delay (options s)) 0 = Some d -> d <> 0 ->
  let id := nextTimer (sched s) in
  let at_ := (now (sched s) + Z.to_nat d)%nat in
  Hidden (fun t => timerId t = id /\ due t = at_) (_enter event s)
  /\ showTimeout (priv (_enter event s)) = Some id
  /\ In {| timerId := id; due := at_; callback := CbShow |}
        (timers (sched (_enter event s)))
  /\ now (sched (_enter event s)) = now (sched s)
  /\ options (_enter event s) = options s
  /\ calls onShow (_enter event s) = calls onShow s.
Proof.
  intros Hwf Hv Hw Hd Hnz id at_.
  pose proof (clearDelayTimeouts_spec s)
    as (E1 & E2 & E3 & E4 & E5 & E6 & E7 & E8).
  unfold _enter.
  set (c := _clearDelayTimeouts s) in *.
  rewrite E1, Hv.
  cbn [options set_isPreparingToShow upd_priv].
  rewrite E3, Hw.
  assert (Ht : truthyNum (Some d) = true).
  { cbn. apply negb_true_iff, Z.eqb_neq. exact Hnz. }
  destruct (followCursor (options s) && negb _);
    cbn [options set_documentMousemove set_followCursorListener
         set_isPreparingToShow upd_priv upd_browser];
    rewrite E3, Hd, Ht; unfold setTimeout, Hidden, calls; cbn;
    rewrite ?E1, ?E3, ?E5, ?E6, ?E7; fold id; fold at_;
    (split; [ | split; [reflexivity | split; [ | now repeat split]]]);
    try (apply in_or_app; right; now left);
    (split; [exact Hv | ];
     intros t Hin Hc; apply in_app_or in Hin;
     destruct Hin as [Hin | [E | []]]; [ | subst t; now split];
     exfalso; apply E8 in Hin; destruct Hin as [Hin Hne];
     apply Hne; symmetry; now apply Hwf).
Qed.

(** [_leave] on a hidden instance clears the timer named by
    [showTimeout] and stops. *)
Lemma leave_cancels (ok : Timer -> Prop) s id :
  Hidden ok s ->
  showTimeout (priv s) = Some id ->
  (forall t, ok t -> timerId t = id) ->
  Hidden (fun _ => False) (_leave s)
  /\ (forall t, In t (timers (sched (_leave s))) -> timerId t <> id)
  /\ calls onShow (_leave s) = calls onShow s.
Proof.
  intros [Hv Ht] Hs Hok.
  pose proof (clearDelayTimeouts_spec s)
    as (E1 & E2 & E3 & E4 & E5 & E6 & E7 & E8).
  unfold _leave.
  set (c := _clearDelayTimeouts s) in *.
  rewrite E1, Hv. cbn [negb].
  split; [split; [now rewrite E1 | ] | split].
  - intros t Hin Hc. apply E8 in Hin. destruct Hin as [Hin Hne].
    apply Hne. rewrite Hs. f_equal. apply Hok. now apply Ht.
  - intros t Hin. apply E8 in Hin. destruct Hin as [_ Hne].
    rewrite Hs in Hne. congruence.
  - unfold calls. now rewrite E5.
Qed.

(** The invariant behind [showTimersTracked]: it holds of a new instance
    and every action keeps it. *)
Lemma showTimersTracked_Calm s s' :
  showTimersTracked s -> Calm s s' -> showTimersTracked s'.
Proof.
  intros H [C1 C2] t Hin Hc. rewrite C1. apply H; [ | exact Hc].
  now apply C2.
Qed.

Lemma showTimersTracked_new o r ls b : showTimersTracked (newTippy o r ls b).
Proof. intros t []. Qed.

Lemma clearDelayTimeouts_Calm s : Calm s (_clearDelayTimeouts s).
Proof.
  pose proof (clearDelayTimeouts_spec s)
    as (E1 & E2 & E3 & E4 & E5 & E6 & E7 & E8).
  split; [now rewrite E2 | ]. intros t Hin _. now apply E8 in Hin.
Qed.

Lemma leave_Calm s : Calm s (_leave s).
Proof.
  unfold _leave.
  set (c := _clearDelayTimeouts s).
  pose proof (clearDelayTimeouts_Calm s) as C. fold c in C.
  destruct (negb (visible (state c))); [exact C | ].
  eapply Calm_trans; [exact C | ].
  destruct (truthyNum _).
  - unfold setTimeout. cbn. split; [reflexivity | ].
    cbn. intros t Hin Hc. apply in_app_or in Hin.
    destruct Hin as [Hin | [E | []]]; [exact Hin | subst t; discriminate].
  - eapply Calm_trans; [ | apply Keeps_Calm, hide_keeps].
    split; [reflexivity | auto].
Qed.

Lemma enter_tracked s event :
  showTimersTracked s -> showTimersTracked (_enter event s).
Proof.
  intros Hwf.
  pose proof (clearDelayTimeouts_spec s)
    as (E1 & E2 & E3 & E4 & E5 & E6 & E7 & E8).
  pose proof (showTimersTracked_Calm _ _ Hwf (clearDelayTimeouts_Calm s)) as Hc.
  unfold _enter.
  set (c := _clearDelayTimeouts s) in *.
  destruct (visible (state c)); [exact Hc | ].
  cbn [options set_isPreparingToShow upd_priv].
  assert (Hp : showTimersTracked (set_isPreparingToShow true c))
    by (intros t Hin Hcb; exact (Hc t Hin Hcb)).
  destruct (wait (options c)) as [[ | ] | ].
  - eapply showTimersTracked_Calm; [ | apply Keeps_Calm, show_keeps].
    intros t Hin Hcb. exact (Hc t Hin Hcb).
  - intros t Hin Hcb. exact (Hc t Hin Hcb).
  - match goal with
    | |- context [truthyNum (getDuration (delay (options ?x)) 0)] =>
        set (c1 := x)
    end.
    assert (H1 : showTimersTracked c1
                 /\ timers (sched c1) = timers (sched c)
                 /\ showTimeout (priv c1) = showTimeout (priv c)).
    { subst c1. destruct (_ && _); (split; [ | now split]);
        intros t Hin Hcb; exact (Hc t Hin Hcb). }
    destruct H1 as (H1 & H2 & H3).
    destruct (truthyNum _).
    + unfold setTimeout. cbn. intros t Hin Hcb. cbn in Hin |- *.
      apply in_app_or in Hin. destruct Hin as [Hin | [E | []]];
        [ | now subst t].
      exfalso. rewrite H2 in Hin. apply E8 in Hin.
      destruct Hin as [Hin Hne]. apply Hne. symmetry. now apply Hwf.
    + eapply showTimersTracked_Calm; [exact H1 | ].
      apply Keeps_Calm, show_keeps.
Qed.

Lemma perform_tracked s a :
  showTimersTracked s -> showTimersTracked (perform s a).
Proof.
  intros H. destruct a; cbn [perform].
  - now apply enter_tracked.
  - eapply showTimersTracked_Calm; [exact H | apply leave_Calm].
  - eapply showTimersTracked_Calm; [exact H | apply Keeps_Calm, show_keeps].
  - eapply showTimersTracked_Calm; [exact H | apply Keeps_Calm, hide_keeps].
  - eapply showTimersTracked_Calm; [exact H | apply Keeps_Calm, destroy_keeps].
  - intros t Hin Hc. exact (H t Hin Hc).
  - intros t Hin Hc. exact (H t Hin Hc).
  - eapply showTimersTracked_Calm; [exact H | apply envStep_spec].
Qed.

(** Every state that an instance can reach keeps track of its [show]
    timer. *)
Lemma reachable_tracked o r ls b (acts : list Action) :
  showTimersTracked (fold_left perform acts (newTippy o r ls b)).
Proof.
  generalize (showTimersTracked_new o r ls b).
  generalize (newTippy o r ls b).
  induction acts as [| a rest IH]; intros s H; cbn [fold_left];
    [exact H | ].
  apply IH. now apply perform_tracked.
Qed.

(** [destroy] twice is [destroy] once. *)
Lemma destroy_destroyed s : destroyed (state (destroy s)) = true.
Proof.
  unfold destroy. destruct (destroyed (state s)) eqn:E; [exact E | ].
  reflexivity.
Qed.

End InstanceFacts.

(** C1, the claim as stated fails: options may carry a [wait] hook, and
    then [_enter] arms no timer but hands [show] to the hook.  With a hook
    that calls [show] at once and [delay = 100], the instance is visible
    after the request to show, and the request to hide that follows only
    arms the hide timer: the instance is still visible. *)
Lemma wait_hook_leaves_instance_visible :
  let s := Instance.newTippy
             (Instance.optionsWith (Instance.Num 100)
                (Some Instance.WaitShowsNow))
             Instance.attachedReference [] Instance.desktopBrowser in
  let event := {| Instance.ev_type := "mouseenter" |} in
  Instance.getDuration (Instance.delay (Instance.options s)) 0 = Some 100
  /\ Instance.visible (Instance.state s) = false
  /\ Instance.visible
       (Instance.state (Instance._leave (Instance._enter event s))) = true
  /\ Instance.trace (Instance._leave (Instance._enter event s))
     = [Instance.waitHook; Instance.onShow]
  /\ Instance.timers (Instance.sched (Instance._leave (Instance._enter event s)))
     = [ {| Instance.timerId := 1%nat; Instance.due := 100%nat;
            Instance.callback := Instance.CbLeave |} ].
Proof. cbv zeta. repeat split. Qed.

(** C1, amended.  For an instance that is hidden, has no [wait] hook and a
    non-zero delay-in [d]: after a request to show ([_enter]) the timer
    that will call [show] is pending; if fewer than [d] milliseconds pass
    (whatever else the page does meanwhile) and a request to hide
    ([_leave]) follows, then the instance is still hidden, no pending
    timer has the id of the show timer or would call [show], and from then
    on, whatever the page does and however long, the instance stays hidden
    and [onShow] is never called. *)
Theorem enter_then_leave_cancels_show :
  forall (s : Instance.Tippy) (event : Instance.Event) (d : Z)
         (before after : list Instance.EnvStep),
    Instance.showTimersTracked s ->
    Instance.visible (Instance.state s) = false ->
    Instance.wait (Instance.options s) = None ->
    Instance.getDuration (Instance.delay (Instance.options s)) 0 = Some d ->
    d <> 0 ->
    (Instance.elapsed before < Z.to_nat d)%nat ->
    let armed := Instance._enter event s in
    let id := Instance.nextTimer (Instance.sched s) in
    let left := Instance._leave (Instance.run before armed) in
    In {| Instance.timerId := id;
          Instance.due := (Instance.now (Instance.sched s) + Z.to_nat d)%nat;
          Instance.callback := Instance.CbShow |}
       (Instance.timers (Instance.sched armed))
    /\ Instance.showTimeout (Instance.priv armed) = Some id
    /\ Instance.visible (Instance.state left) = false
    /\ (forall t, In t (Instance.timers (Instance.sched left)) ->
                  Instance.timerId t <> id
                  /\ Instance.callback t <> Instance.CbShow)
    /\ Instance.visible (Instance.state (Instance.run after left)) = false
    /\ Instance.calls Instance.onShow (Instance.run after left)
       = Instance.calls Instance.onShow s.
Proof.
  intros s event d before after Hwf Hv Hw Hd Hnz Hlt armed id left.
  destruct (enter_arms s event d Hwf Hv Hw Hd Hnz)
    as (A1 & A2 & A3 & A4 & A5 & A6).
  fold armed in A1, A2, A3, A4, A5, A6. fold id in A1, A2, A3.
  destruct (run_hidden before _ armed A1) as (B1 & B2 & B3 & B4 & B5).
  { intros t [_ Hdue]. rewrite Hdue, A4. lia. }
  destruct (leave_cancels _ (Instance.run before armed) id B1) as (C1 & C2 & C3).
  { now rewrite B2. }
  { now intros t [E _]. }
  fold left in C1, C2, C3.
  destruct (run_hidden after _ left C1) as (D1 & D2 & D3 & D4 & D5).
  { intros t []. }
  split; [exact A3 | ]. split; [exact A2 | ].
  split; [exact (proj1 C1) | ].
  split.
  - intros t Hin. split; [now apply C2 | ].
    intros Hc. exact (proj2 C1 t Hin Hc).
  - split; [exact (proj1 D1) | congruence].
Qed.

Lemma enter_then_leave_cancels_show_witness :
  let s := Instance.newTippy
             (Instance.optionsWith (Instance.Arr [100; 50]) None)
             Instance.attachedReference [] Instance.desktopBrowser in
  let event := {| Instance.ev_type := "mouseenter" |} in
  let before := [Instance.Tick; Instance.AnimationFrame; Instance.Tick] in
  let after := repeat Instance.Tick 200 in
  let left := Instance._leave (Instance.run before (Instance._enter event s)) in
  Instance.visible (Instance.state left) = false
  /\ Instance.visible (Instance.state (Instance.run after left)) = false
  /\ Instance.calls Instance.onShow (Instance.run after left)
     = Instance.calls Instance.onShow s.
Proof.
  intros s event before after left.
  pose proof (enter_then_leave_cancels_show s event 100 before after
                ltac:(intros t [])
                ltac:(reflexivity) ltac:(reflexivity) ltac:(reflexivity)
                ltac:(lia) ltac:(vm_compute; lia)) as H.
  cbv zeta in H. destruct H as (_ & _ & H1 & _ & H2 & H3).
  split; [exact H1 | split; [exact H2 | exact H3]].
Defined.

(** Without the request to hide, the same instance is shown when the
    delay has elapsed. *)
Example show_timer_fires_when_not_cancelled :
  let s := Instance.newTippy
             (Instance.optionsWith (Instance.Arr [100; 50]) None)
             Instance.attachedReference [] Instance.desktopBrowser in
  let event := {| Instance.ev_type := "mouseenter" |} in
  Instance.visible
    (Instance.state
       (Instance.run (repeat Instance.Tick 99) (Instance._enter event s)))
  = false
  /\ Instance.visible
       (Instance.state
          (Instance.run (repeat Instance.Tick 100) (Instance._enter event s)))
     = true.
Proof. vm_compute. split; reflexivity. Qed.

(** C2, evaluated on [Framework.js].  [destroy] calls [hide(0)] on a
    visible instance ("Ensure the popper is hidden"), but [hide] returns
    at once on a disabled instance.  On the instance below, which was
    created, shown and then disabled, [destroy()] calls no [onHide] and
    queues nothing: the instance ends destroyed with [visible] still true
    and its popper still in the document. *)
Theorem destroy_disabled_visible_skips_hide :
  let s := Instance.disable
             (Instance.show None
                (Instance.newTippy
                   (Instance.optionsWith (Instance.Num 0) None)
                   Instance.attachedReference [] Instance.desktopBrowser)) in
  Instance.visible (Instance.state s) = true
  /\ Instance.destroyed (Instance.state s) = false
  /\ Instance.trace s = [Instance.onShow]
  /\ Instance.trace (Instance.destroy s) = [Instance.onShow]
  /\ Instance.visible (Instance.state (Instance.destroy s)) = true
  /\ Instance.destroyed (Instance.state (Instance.destroy s)) = true
  /\ Instance.mounted (Instance.popper (Instance.destroy s)) = true
  /\ Instance.frames (Instance.sched (Instance.destroy s)) = [].
Proof. cbv zeta. repeat split. Qed.



(** C4, the claim as stated fails: [show] first returns on a destroyed or
    disabled instance, before it looks at the reference.  A disabled
    instance whose reference left the document is not destroyed by a show
    request; nor is an enabled one with [dynamicTitle] whose stored title
    is empty. *)
Lemma show_disabled_detached_does_nothing :
  let s := Instance.disable
             (Instance.newTippy
                (Instance.optionsWith (Instance.Num 0) None)
                Instance.detachedReference [] Instance.desktopBrowser) in
  let t := Instance.newTippy
             {| Instance.delay := Instance.Num 0;
                Instance.duration := Instance.Arr [350; 300];
                Instance.wait := None; Instance.followCursor := false;
                Instance.dynamicTitle := true; Instance.sticky := false |}
             {| Instance.refObj := false; Instance.inDocument := false;
                Instance.title := None; Instance.originalTitle := None;
                Instance.dataTippy := true; Instance.hasTippy := true;
                Instance.ariaDescribedby := false;
                Instance.registered := [] |}
             [] Instance.desktopBrowser in
  (Instance.refObj (Instance.reference s) = false
   /\ Instance.inDocument (Instance.reference s) = false
   /\ Instance.show None s = s
   /\ Instance.destroyed (Instance.state (Instance.show None s)) = false)
  /\ (Instance.enabled (Instance.state t) = true
      /\ Instance.inDocument (Instance.reference t) = false
      /\ Instance.show None t = t
      /\ Instance.destroyed (Instance.state (Instance.show None t)) = false).
Proof. cbv zeta. repeat split. Qed.

(** C4, amended.  For every instance that is enabled and not destroyed,
    whose reference is not virtual and no longer in its document (and,
    when [dynamicTitle] is set, whose stored title is not empty), a call
    of [show] does what [destroy] does: afterwards [destroyed] is true and
    [visible] is false, [onShow] was not called, and the only hook called
    is [onHide], when the instance was visible. *)
Theorem show_detached_reference_destroys :
  forall (s : Instance.Tippy) (d : option Z),
    Instance.destroyed (Instance.state s) = false ->
    Instance.enabled (Instance.state s) = true ->
    Instance.dynamicTitle (Instance.options s) = false
    \/ Geometry.truthyAttr (Instance.originalTitle (Instance.reference s))
       = true ->
    Instance.refObj (Instance.reference s) = false ->
    Instance.inDocument (Instance.reference s) = false ->
    Instance.show d s = Instance.destroy s
    /\ Instance.destroyed (Instance.state (Instance.show d s)) = true
    /\ Instance.visible (Instance.state (Instance.show d s)) = false
    /\ Instance.trace (Instance.show d s)
       = Instance.trace s
         ++ (if Instance.visible (Instance.state s) then [Instance.onHide]
             else []).
Proof.
  intros s d Hd He Ht Hr Hi.
  assert (Hs : Instance.show d s = Instance.destroy s).
  { unfold Instance.show. rewrite Hd, He, Hr, Hi. cbn [negb orb andb].
    destruct Ht as [Ht | Ht]; rewrite Ht; cbn [negb andb];
      [reflexivity | now rewrite andb_false_r]. }
  rewrite Hs. split; [reflexivity | ].
  split; [apply destroy_destroyed | ].
  unfold Instance.destroy. rewrite Hd.
  destruct (Instance.visible (Instance.state s)) eqn:Hv.
  - unfold Instance.hide. rewrite Hd, He. cbn. split; reflexivity.
  - cbn. rewrite Hv. split; [reflexivity | now rewrite app_nil_r].
Qed.

Lemma show_detached_reference_destroys_witness :
  let s := Instance.newTippy
             (Instance.optionsWith (Instance.Num 0) None)
             Instance.detachedReference [] Instance.desktopBrowser in
  Instance.show None s = Instance.destroy s
  /\ Instance.destroyed (Instance.state (Instance.show None s)) = true
  /\ Instance.visible (Instance.state (Instance.show None s)) = false
  /\ Instance.trace (Instance.show None s)
     = Instance.trace s
       ++ (if Instance.visible (Instance.state s) then [Instance.onHide]
           else []).
Proof.
  intros s.
  apply (show_detached_reference_destroys s None);
    [reflexivity | reflexivity | left; reflexivity | reflexivity | reflexivity].
Defined.

(** A reference removed from the document while the tooltip is showing:
    the next show request hides and destroys the instance. *)
Example show_after_detach_hides_and_destroys :
  let shown := Instance.show None
                 (Instance.newTippy
                    (Instance.optionsWith (Instance.Num 0) None)
                    Instance.attachedReference [] Instance.desktopBrowser) in
  let s := Instance.upd_reference (fun _ => Instance.detachedReference) shown in
  Instance.visible (Instance.state s) = true
  /\ Instance.trace (Instance.show None s)
     = [Instance.onShow; Instance.onHide]
  /\ Instance.visible (Instance.state (Instance.show None s)) = false
  /\ Instance.destroyed (Instance.state (Instance.show None s)) = true.
Proof. cbv zeta. repeat split. Qed.

(** ** Numeric literals followed by white space *)
Section ScanFacts.
Import JS Numeric Text.

Lemma append_String c (s t : string) : String c s +:+ t = String c (s +:+ t).
Proof. reflexivity. Qed.

Lemma append_empty (t : string) : "" +:+ t = t.
Proof. reflexivity. Qed.

Lemma append_assoc_r (s t u : string) : (s +:+ t) +:+ u = s +:+ (t +:+ u).
Proof.
  induction s as [| c s IH]; [reflexivity | ].
  rewrite !append_String. now rewrite IH.
Qed.

Lemma white_char w :
  isWhiteSpace w = true ->
  w = "009"%char \/ w = "010"%char \/ w = "011"%char \/ w = "012"%char
  \/ w = "013"%char \/ w = " "%char.
Proof.
  destruct w as [[] [] [] [] [] [] [] []]; intros H; vm_compute in H;
    try discriminate H; tauto.
Qed.

Ltac white w H :=
  destruct (white_char w H) as [-> | [-> | [-> | [-> | [-> | ->]]]]].

Lemma takeDigits_app u ws :
  allChars isWhiteSpace ws = true ->
  takeDigits (u +:+ ws) = (fst (takeDigits u), snd (takeDigits u) +:+ ws).
Proof.
  intros Hws. induction u as [| c u IH].
  - rewrite append_empty. destruct ws as [| w ws]; [reflexivity | ].
    cbn [allChars] in Hws. apply andb_prop in Hws. destruct Hws as [Hw _].
    white w Hw; reflexivity.
  - rewrite append_String. cbn [takeDigits].
    destruct (isDigit c); [ | reflexivity].
    rewrite IH. now destruct (takeDigits u).
Qed.

Lemma stripPrefix_app p : forall u ws,
  allChars isWhiteSpace ws = true ->
  allChars (fun c => negb (isWhiteSpace c)) p = true ->
  stripPrefix p (u +:+ ws)
  = match stripPrefix p u with
    | Some r => Some (r +:+ ws)
    | None => None
    end.
Proof.
  induction p as [| a p IH]; intros u ws Hws Hp; [reflexivity | ].
  cbn [allChars] in Hp. apply andb_prop in Hp. destruct Hp as [Ha Hp].
  apply negb_true_iff in Ha.
  destruct u as [| b u].
  - rewrite append_empty. destruct ws as [| w ws]; [reflexivity | ].
    cbn [allChars] in Hws. apply andb_prop in Hws. destruct Hws as [Hw _].
    cbn [stripPrefix].
    destruct (Ascii.eqb_spec a w) as [-> | _]; [congruence | reflexivity].
  - rewrite append_String. cbn [stripPrefix].
    destruct (Ascii.eqb a b); [now apply IH | reflexivity].
Qed.

Lemma scanExponent_app r ws :
  allChars isWhiteSpace ws = true ->
  scanExponent (r +:+ ws)
  = match scanExponent r with
    | Some (x, rest) => Some (x, rest +:+ ws)
    | None => None
    end.
Proof.
  intros Hws. destruct r as [| c s1].
  - rewrite append_empty. destruct ws as [| w ws]; [reflexivity | ].
    pose proof Hws as H. cbn [allChars] in H. apply andb_prop in H.
    destruct H as [Hw _]. white w Hw; reflexivity.
  - rewrite append_String. cbn [scanExponent].
    destruct (Ascii.eqb c "e"%char || Ascii.eqb c "E"%char); [ | reflexivity].
    assert (G : forall neg s2,
               (let (ds, rest) := takeDigits (s2 +:+ ws) in
                if String.eqb ds EmptyString then None
                else Some (if neg : bool then - digitsValue ds
                           else digitsValue ds, rest))
               = match (let (ds, rest) := takeDigits s2 in
                        if String.eqb ds EmptyString then None
                        else Some (if neg then - digitsValue ds
                                   else digitsValue ds, rest)) with
                 | Some (x, rest) => Some (x, rest +:+ ws)
                 | None => None
                 end).
    { intros neg s2. rewrite (takeDigits_app s2 ws Hws).
      destruct (takeDigits s2) as [ds rest]. cbn [fst snd].
      now destruct (String.eqb ds EmptyString). }
    destruct s1 as [| d s2].
    + rewrite append_empty. destruct ws as [| w ws]; [reflexivity | ].
      pose proof Hws as H. cbn [allChars] in H. apply andb_prop in H.
      destruct H as [Hw _]. white w Hw; reflexivity.
    + rewrite append_String.
      destruct (Ascii.eqb_spec d "+"%char) as [-> | Hp]; [apply (G false) | ].
      destruct (Ascii.eqb_spec d "-"%char) as [-> | Hm]; [apply (G true) | ].
      assert (E : forall (A : Type) (x y z : string -> A) t,
                 match String d t with
                 | String "+"%char r => x r
                 | String "-"%char r => y r
                 | _ => z (String d t)
                 end = z (String d t)).
      { intros A x y z t.
        destruct d as [[] [] [] [] [] [] [] []]; try reflexivity;
          congruence. }
      rewrite (E _ (fun r => (false, r)) (fun r => (true, r))
                 (fun s => (false, s))).
      rewrite (E _ (fun r => (false, r)) (fun r => (true, r))
                 (fun s => (false, s))).
      rewrite <- append_String. apply (G false).
Qed.

Lemma scanUnsignedDecimal_app u ws :
  allChars isWhiteSpace ws = true ->
  scanUnsignedDecimal (u +:+ ws)
  = match scanUnsignedDecimal u with
    | Some (n, rest) => Some (n, rest +:+ ws)
    | None => None
    end.
Proof.
  intros Hws. unfold scanUnsignedDecimal.
  rewrite (stripPrefix_app "Infinity" u ws Hws eq_refl).
  destruct (stripPrefix "Infinity" u) as [rest | ]; [reflexivity | ].
  rewrite (takeDigits_app u ws Hws).
  destruct (takeDigits u) as [ip r1]. cbn [fst snd].
  set (F := fun r1 : string =>
              match r1 with
              | String "."%char r =>
                  let (fp, r2) := takeDigits r in
                  if String.eqb ip EmptyString && String.eqb fp EmptyString
                  then (EmptyString, r1)
                  else (fp, r2)
              | _ => (EmptyString, r1)
              end).
  change (match r1 +:+ ws with
          | String "."%char r => _
          | _ => _
          end) with (F (r1 +:+ ws)).
  change (match r1 with
          | String "."%char r => _
          | _ => _
          end) with (F r1).
  assert (HF : F (r1 +:+ ws) = (fst (F r1), snd (F r1) +:+ ws)).
  { destruct r1 as [| d r].
    - rewrite append_empty. destruct ws as [| w ws]; [reflexivity | ].
      pose proof Hws as H. cbn [allChars] in H. apply andb_prop in H.
      destruct H as [Hw _]. white w Hw; reflexivity.
    - rewrite append_String.
      destruct (Ascii.eqb_spec d "."%char) as [-> | Hd].
      + subst F. cbv beta iota. rewrite (takeDigits_app r ws Hws).
        destruct (takeDigits r) as [fp r2]. cbn [fst snd].
        now destruct (String.eqb ip EmptyString && String.eqb fp EmptyString).
      + assert (E : forall t, F (String d t) = (EmptyString, String d t)).
        { intros t. subst F. cbv beta iota.
          destruct d as [[] [] [] [] [] [] [] []]; try reflexivity;
            congruence. }
        now rewrite !E. }
  rewrite HF. destruct (F r1) as [fp r2]. cbn [fst snd].
  destruct (String.eqb ip EmptyString && String.eqb fp EmptyString);
    [reflexivity | ].
  cbv zeta. rewrite (scanExponent_app r2 ws Hws).
  now destruct (scanExponent r2) as [[x rest] | ].
Qed.

Lemma scanDecimal_app u ws :
  allChars isWhiteSpace ws = true ->
  scanDecimal (u +:+ ws)
  = match scanDecimal u with
    | Some (n, rest) => Some (n, rest +:+ ws)
    | None => None
    end.
Proof.
  intros Hws.
  pose proof (scanUnsignedDecimal_app EmptyString ws Hws) as H0.
  rewrite append_empty in H0.
  destruct u as [| c r].
  - rewrite append_empty. destruct ws as [| w ws]; [reflexivity | ].
    pose proof Hws as H. cbn [allChars] in H. apply andb_prop in H.
    destruct H as [Hw _].
    assert (E : scanDecimal (String w ws) = scanUnsignedDecimal (String w ws))
      by (white w Hw; reflexivity).
    rewrite E. exact H0.
  - rewrite append_String.
    destruct (Ascii.eqb_spec c "+"%char) as [-> | Hp].
    { change (scanUnsignedDecimal (r +:+ ws)
              = match scanUnsignedDecimal r with
                | Some (n, rest) => Some (n, rest +:+ ws)
                | None => None
                end).
      now apply scanUnsignedDecimal_app. }
    destruct (Ascii.eqb_spec c "-"%char) as [-> | Hm].
    { cbn [scanDecimal]. rewrite (scanUnsignedDecimal_app r ws Hws).
      now destruct (scanUnsignedDecimal r) as [[n rest] | ]. }
    assert (E : forall t, scanDecimal (String c t)
                          = scanUnsignedDecimal (String c t)).
    { intros t. destruct c as [[] [] [] [] [] [] [] []]; try reflexivity;
        congruence. }
    rewrite !E, <- append_String. now apply scanUnsignedDecimal_app.
Qed.

(** A string is its trimmed end followed by white space. *)
Lemma trimEnd_split s :
  exists ws, s = trimEnd s +:+ ws /\ allChars isWhiteSpace ws = true.
Proof.
  induction s as [| c s (ws & E & Hws)]; [now exists EmptyString | ].
  cbn [trimEnd].
  destruct (isWhiteSpace c) eqn:Hc; cbn [andb].
  - destruct (String.eqb_spec (trimEnd s) EmptyString) as [Et | _].
    + exists (String c s). split; [reflexivity | ].
      cbn [allChars]. rewrite Hc. cbn [andb].
      rewrite Et, append_empty in E. now rewrite E.
    + exists ws. rewrite append_String. split; [congruence | exact Hws].
  - exists ws. rewrite append_String. split; [congruence | exact Hws].
Qed.

Lemma trimStart_white ws :
  allChars isWhiteSpace ws = true -> trimStart ws = EmptyString.
Proof.
  induction ws as [| w ws IH]; [reflexivity | ]. cbn [allChars trimStart].
  intros H. apply andb_prop in H. destruct H as [Hw Hs]. rewrite Hw. auto.
Qed.

(** The trimmed string is empty exactly when the string is white space
    only. *)
Lemma trim_empty s :
  trim s = EmptyString -> trimStart s = EmptyString.
Proof.
  unfold trim. intros H.
  destruct (trimEnd_split (trimStart s)) as (ws & E & Hws).
  rewrite H, append_empty in E.
  destruct (trimStart s) as [| c r] eqn:Es; [reflexivity | ].
  exfalso.
  assert (Hc : isWhiteSpace c = false).
  { clear - Es. induction s as [| d s IH]; [discriminate | ].
    cbn [trimStart] in Es. destruct (isWhiteSpace d) eqn:Hd; [auto | ].
    injection Es as -> _. exact Hd. }
  subst ws. cbn [allChars] in Hws. rewrite Hc in Hws. discriminate.
Qed.

(** [parseFloat] reads the literal that [Number] reads: when the whole
    string, white space at its ends apart, is a decimal literal, both give
    its value. *)
Lemma parseFloat_decimal v n :
  scanDecimal (trim v) = Some (n, EmptyString) ->
  parseFloat v = n.
Proof.
  intros H. unfold parseFloat, trim in *.
  destruct (trimEnd_split (trimStart v)) as (ws & E & Hws).
  rewrite E, (scanDecimal_app _ ws Hws), H. reflexivity.
Qed.

Lemma scanDecimal_not_NaN s n rest :
  scanDecimal s = Some (n, rest) -> isNaNnum n = false.
Proof.
  assert (D : forall m x, isNaNnum (decimal m x) = false).
  { intros m x. unfold decimal, roundToDouble, canonical.
    repeat match goal with
      | |- context [if ?b then _ else _] => destruct b
      end; reflexivity. }
  assert (U : forall s n rest, scanUnsignedDecimal s = Some (n, rest) ->
                               isNaNnum n = false).
  { clear s n rest. intros s n rest. unfold scanUnsignedDecimal.
    destruct (stripPrefix "Infinity" s); [intros [= <- _]; reflexivity | ].
    destruct (takeDigits s) as [ip r1].
    destruct (match r1 with String "."%char r => _ | _ => _ end) as [fp r2].
    destruct (_ && _); [discriminate | ]. cbv zeta.
    destruct (scanExponent r2) as [[x r3] | ]; intros [= <- _]; apply D. }
  destruct s as [| c r]; [discriminate | ].
  destruct (Ascii.eqb_spec c "+"%char) as [-> | Hp]; [apply U | ].
  destruct (Ascii.eqb_spec c "-"%char) as [-> | Hm].
  { cbn [scanDecimal]. destruct (scanUnsignedDecimal r) as [[k r'] | ] eqn:E;
      [ | discriminate].
    intros [= <- _]. apply U in E. destruct k; try discriminate; cbn.
    - reflexivity.
    - reflexivity.
    - now destruct (m =? 0). }
  assert (E : scanDecimal (String c r) = scanUnsignedDecimal (String c r)).
  { destruct c as [[] [] [] [] [] [] [] []]; try reflexivity; congruence. }
  rewrite E. apply U.
Qed.

(** A hexadecimal, octal or binary literal starts with a zero, which is
    all that [parseFloat] reads of it. *)
Lemma parseFloat_nonDecimal v n :
  nonDecimalLiteral (trim v) = Some n -> parseFloat v = Fin 0 0.
Proof.
  unfold parseFloat, trim. intros H.
  destruct (trimEnd_split (trimStart v)) as (ws & E & Hws).
  rewrite E. set (t := trimEnd (trimStart v)) in *.
  destruct t as [| a rest]; [discriminate H | ].
  destruct (Ascii.eqb_spec a "0"%char) as [-> | Ha].
  2:{ exfalso. destruct a as [[] [] [] [] [] [] [] []]; try discriminate H.
      congruence. }
  destruct rest as [| c digits]; [discriminate H | ].
  cbn [nonDecimalLiteral] in H.
  assert (Hc : Ascii.eqb c "x"%char || Ascii.eqb c "X"%char
               || Ascii.eqb c "o"%char || Ascii.eqb c "O"%char
               || Ascii.eqb c "b"%char || Ascii.eqb c "B"%char = true).
  { destruct (Ascii.eqb c "x"%char || Ascii.eqb c "X"%char); cbn [orb];
      [reflexivity | ].
    destruct (Ascii.eqb c "o"%char || Ascii.eqb c "O"%char); cbn [orb];
      [reflexivity | ].
    destruct (Ascii.eqb c "b"%char || Ascii.eqb c "B"%char); cbn [orb];
      [reflexivity | ].
    discriminate H. }
  rewrite !append_String.
  assert (G : forall rest, scanDecimal (String "0" (String c rest))
                           = Some (Fin 0 0, String c rest)).
  { intros rest.
    repeat match type of Hc with
      | _ || _ = true => apply orb_prop in Hc; destruct Hc as [Hc | Hc]
      end; apply Ascii.eqb_eq in Hc; subst c; reflexivity. }
  now rewrite G.
Qed.
End ScanFacts.

(** ** Options from declarative attributes *)
Section AttributeFacts.
Import JS Numeric Attributes.

Lemma trimStart_head s :
  trimStart s = EmptyString
  \/ exists c r, trimStart s = String c r /\ isWhiteSpace c = false.
Proof.
  induction s as [| c s IH]; cbn [trimStart]; [now left | ].
  destruct (isWhiteSpace c) eqn:E; [exact IH | ].
  right. now exists c, s.
Qed.

(** The first character of the trimmed string is the first character that
    is not white space. *)
Lemma firstCharIs_trim c s :
  firstCharIs c (trim s) = firstCharIs c (trimStart s).
Proof.
  unfold trim. destruct (trimStart_head s) as [-> | (d & r & -> & Hd)];
    [reflexivity | ].
  cbn [trimEnd]. now rewrite Hd.
Qed.

Lemma trimStart_nonempty s :
  s <> EmptyString -> isWhiteSpace match s with
                                   | String c _ => c
                                   | EmptyString => " "%char
                                   end = false ->
  trimStart s = s.
Proof. destruct s as [| c s]; [congruence | ]. cbn. now intros _ ->. Qed.

(** What the accumulator holds after a [reduce] over distinct keys. *)
Lemma reduce_assign_lookup conv keys : forall acc acc',
  List.NoDup keys ->
  reduce (assign conv) keys acc = Ok acc' ->
  forall key,
    key <> "__proto__"%string ->
    (In key keys ->
     exists o, conv key = o
               /\ match o with
                  | Some (Ok x) => acc' !! key = Some x
                  | Some (Throw _) => False
                  | None => acc' !! key = acc !! key
                  end)
    /\ (~ In key keys -> acc' !! key = acc !! key).
Proof.
  induction keys as [| k rest IH]; intros acc acc' Hnd Hred key Hproto.
  - cbn in Hred. injection Hred as <-. split; [intros [] | reflexivity].
  - apply List.NoDup_cons_iff in Hnd. destruct Hnd as [Hk Hnd].
    cbn [reduce] in Hred. unfold assign at 1 in Hred.
    destruct (conv k) as [[x | e] | ] eqn:Ec; cbn [bind] in Hred;
      [ | discriminate | ].
    + destruct (IH _ _ Hnd Hred key Hproto) as [I1 I2]. split.
      * intros [-> | Hin].
        -- exists (Some (Ok x)). split; [exact Ec | ].
           rewrite (I2 Hk).
           apply String.eqb_neq in Hproto. rewrite Hproto.
           apply lookup_insert_eq.
        -- destruct (I1 Hin) as (o & Ho & Hm). exists o. split; [exact Ho | ].
           destruct o as [[y | e] | ]; try exact Hm.
           rewrite Hm. destruct (String.eqb k "__proto__"); [reflexivity | ].
           apply lookup_insert_ne. intros ->. contradiction.
      * intros Hn. rewrite I2 by (intros H; apply Hn; now right).
        destruct (String.eqb k "__proto__"); [reflexivity | ].
        apply lookup_insert_ne. intros ->. apply Hn. now left.
    + destruct (IH _ _ Hnd Hred key Hproto) as [I1 I2]. split.
      * intros [-> | Hin].
        -- exists None. split; [exact Ec | ]. now apply I2.
        -- exact (I1 Hin).
      * intros Hn. apply I2. intros H. apply Hn. now right.
Qed.


(** The tests of the two revisions for a number, and the reading of the
    claim.  [isNumeric] of [utils.js] holds exactly of the strings that
    write a number, finite or not.  The test of [Framework.js] holds
    exactly of the strings that write a finite number, and [parseFloat]
    then gives that number, when the string is not a hexadecimal, octal
    or binary literal. *)
Lemma number_tests v :
  isNumeric v = writesNumber v
  /\ (nonDecimalLiteral (trim v) = None ->
      isFinite (VStr v) && negb (isNaNnum (parseFloat v))
      = writesFiniteNumber v
      /\ (writesFiniteNumber v = true -> parseFloat v = StringToNumber v)).
Proof.
  unfold isNumeric, writesNumber, writesFiniteNumber, isFinite, isNaN.
  cbn [ToNumber]. unfold StringToNumber. cbv zeta.
  destruct (String.eqb_spec (trim v) EmptyString) as [Et | Et]; cbn [negb andb].
  - assert (Hp : parseFloat v = NaN).
    { unfold parseFloat. now rewrite (trim_empty v Et). }
    rewrite Hp. cbn. split; [reflexivity | ]. intros _. split; [reflexivity | ].
    discriminate.
  - destruct (nonDecimalLiteral (trim v)) as [n | ] eqn:En.
    + rewrite (parseFloat_nonDecimal v n En). cbn [isNaNnum negb].
      rewrite andb_true_r. split; [reflexivity | discriminate].
    + destruct (scanDecimal (trim v)) as [[n rest] | ] eqn:Es;
        [ | cbn; split; [reflexivity | intros _; split;
                                       [reflexivity | discriminate]]].
      destruct rest as [| c rest];
        [ | cbn; split; [reflexivity | intros _; split;
                                       [reflexivity | discriminate]]].
      rewrite (parseFloat_decimal v n Es).
      rewrite (scanDecimal_not_NaN _ _ _ Es). cbn [negb].
      rewrite !andb_true_r. split; [reflexivity | ]. intros _.
      split; reflexivity.
Qed.

(** [getIndividualOptions] of [Framework.js] on a non-empty attribute
    that is not a hexadecimal, octal or binary literal: the rule as the
    claim states it. *)
Lemma individualOption_attribute JSON_parse attributes instanceOptions key v :
  attributes !! ("data-tippy-" +:+ toLowerCase key) = Some v ->
  v <> EmptyString ->
  nonDecimalLiteral (trim v) = None ->
  individualOption JSON_parse attributes instanceOptions key
  = claimedConversion JSON_parse v.
Proof.
  intros Ha Hv Hn. unfold individualOption, claimedConversion, convertedAs.
  rewrite Ha. apply String.eqb_neq in Hv. rewrite Hv. cbv zeta.
  destruct (String.eqb_spec v "false") as [-> | Hf]; [reflexivity | ].
  destruct (String.eqb_spec v "true") as [-> | Ht]; [reflexivity | ].
  destruct (proj2 (number_tests v) Hn) as [T V].
  change (parseFloatValue (VStr v)) with (parseFloat v). rewrite T.
  destruct (writesFiniteNumber v); [now rewrite V | ].
  now rewrite firstCharIs_trim.
Qed.

(** [getDataAttributeOptions] of [utils.js] on a non-empty attribute. *)
Lemma dataAttributeOption_utils_attribute JSON_parse attributes key v :
  attributes !! ("data-tippy-" +:+ key) = Some v ->
  v <> EmptyString ->
  dataAttributeOption_utils JSON_parse attributes key
  = Some (convertedAs writesNumber StringToNumber
            (if String.eqb key "target" then fun s => Ok (VStr s)
             else parseJSON JSON_parse) v).
Proof.
  intros Ha Hv. unfold dataAttributeOption_utils, convertedAs.
  rewrite Ha. apply String.eqb_neq in Hv. rewrite Hv.
  rewrite firstCharIs_trim, (proj1 (number_tests v)).
  destruct (String.eqb v "true"); [reflexivity | ].
  destruct (String.eqb v "false"); [reflexivity | ].
  destruct (writesNumber v); [reflexivity | ].
  destruct (String.eqb key "target"); cbn [negb andb]; [ | reflexivity].
  now destruct (firstCharIs _ _).
Qed.


Lemma defaultsKeys_NoDup : List.NoDup defaultsKeys.
Proof.
  unfold defaultsKeys, defaults. cbn [map fst].
  repeat (apply List.NoDup_cons; [cbn; intuition discriminate | ]).
  apply List.NoDup_nil.
Qed.

Lemma defaultsKeys_not_proto key :
  In key defaultsKeys -> key <> "__proto__"%string.
Proof.
  unfold defaultsKeys, defaults. cbn [map fst In].
  intros H ->. intuition discriminate.
Qed.
End AttributeFacts.


(** In [utils.js] the literals [Infinity] and [1e1000] pass [isNumeric]
    and become the number infinity; [getIndividualOptions] of
    [Framework.js], which tests [isFinite], keeps them strings. *)
Example infinity_attribute :
  let attributes : gmap string string :=
    <["data-tippy-delay"%string := "Infinity"%string]>
      (<["data-tippy-distance"%string := "1e1000"%string]> ∅) in
  Attributes.dataAttributeOption_utils (fun _ => None) attributes "delay"
  = Some (JS.Ok (JS.VNum (JS.Infinity false)))
  /\ Attributes.dataAttributeOption_utils (fun _ => None) attributes "distance"
     = Some (JS.Ok (JS.VNum (JS.Infinity false)))
  /\ Attributes.individualOption (fun _ => None) attributes ∅ "delay"
     = JS.Ok (JS.VStr "Infinity")
  /\ Attributes.individualOption (fun _ => None) attributes ∅ "distance"
     = JS.Ok (JS.VStr "1e1000").
Proof. cbv zeta. repeat split; vm_compute; reflexivity. Qed.

(** The number that a hexadecimal literal writes is lost in
    [Framework.js]: the test [isFinite] reads ["0x1F"] as 31, and
    [parseFloat], which gives the value, reads its leading zero only.
    [utils.js], which takes the value from [Number], gives 31. *)
Example hexadecimal_attribute :
  let attributes : gmap string string :=
    <["data-tippy-delay"%string := "0x1F"%string]> ∅ in
  Attributes.individualOption (fun _ => None) attributes ∅ "delay"
  = JS.Ok (JS.VNum (JS.Fin 0 0))
  /\ Attributes.dataAttributeOption_utils (fun _ => None) attributes "delay"
     = Some (JS.Ok (JS.VNum (JS.Fin 31 0)))
  /\ Numeric.StringToNumber "0x1F" = JS.Fin 31 0.
Proof. cbv zeta. repeat split; vm_compute; reflexivity. Qed.



(** ** Timers of an instance: at most one of each kind *)
Section TimerFacts.
Import Instance Lifecycle.

Ltac split_ifs :=
  repeat match goal with
    | |- context [if ?c then _ else _] => destruct c eqn:?
    | |- context [match ?x with _ => _ end] => destruct x eqn:?
    end.

Lemma SameTimers_refl s : SameTimers s s.
Proof. now repeat split. Qed.

Lemma SameTimers_trans s1 s2 s3 :
  SameTimers s1 s2 -> SameTimers s2 s3 -> SameTimers s1 s3.
Proof.
  intros (A1 & A2 & A3 & A4) (B1 & B2 & B3 & B4). repeat split; congruence.
Qed.

Lemma hide_same d s : SameTimers s (hide d s).
Proof. unfold hide. split_ifs; now repeat split. Qed.

Lemma destroy_cleanup_same s : SameTimers s (destroy_cleanup s).
Proof. unfold destroy_cleanup. now repeat split. Qed.

Lemma destroy_same s : SameTimers s (destroy s).
Proof.
  unfold destroy.
  destruct (destroyed (state s)); [apply SameTimers_refl | ].
  eapply SameTimers_trans; [ | apply destroy_cleanup_same].
  destruct (visible (state s)); [apply hide_same | apply SameTimers_refl].
Qed.

Lemma show_same d s : SameTimers s (show d s).
Proof.
  unfold show.
  destruct (_ || _); [apply SameTimers_refl | ].
  destruct (_ && _); [apply SameTimers_refl | ].
  destruct (_ && _); [apply destroy_same | ].
  unfold _mount, _createPopperInstance. split_ifs; now repeat split.
Qed.

Lemma onTransitionEnd_same d k s : SameTimers s (_onTransitionEnd d k s).
Proof.
  unfold _onTransitionEnd, runTransitionCallback, afterShow, afterHide.
  split_ifs; now repeat split.
Qed.

Lemma runDeferred_same f s : SameTimers s (runDeferred f s).
Proof.
  destruct f; cbn [runDeferred]; [apply onTransitionEnd_same | ].
  unfold updatePosition. split_ifs; now repeat split.
Qed.

Lemma runCallback_same cb s : SameTimers s (runCallback cb s).
Proof.
  destruct cb; cbn [runCallback].
  - apply show_same.
  - destruct (negb _); [apply SameTimers_refl | apply hide_same].
  - apply runDeferred_same.
Qed.

Lemma mountCallback_same d s : SameTimers s (mountCallback d s).
Proof.
  unfold mountCallback.
  destruct (negb _); [apply SameTimers_refl | ].
  destruct (mountCallbackThrows s); [now repeat split | ].
  eapply SameTimers_trans; [ | apply onTransitionEnd_same].
  split_ifs; now repeat split.
Qed.

Lemma popperUpdate_same s : SameTimers s (popperUpdate s).
Proof.
  unfold popperUpdate.
  destruct (popperInstance s) as [pi |]; [ | apply SameTimers_refl].
  destruct (pi_destroyed pi); [apply SameTimers_refl | ].
  destruct (pendingCallbacks pi); [apply SameTimers_refl | ].
  destruct (mountCallbackThrows s); [apply mountCallback_same | ].
  eapply SameTimers_trans; [ | apply mountCallback_same]. now repeat split.
Qed.

Lemma transitionEnd_same s : SameTimers s (transitionEnd s).
Proof.
  unfold transitionEnd, runTransitionCallback, afterShow, afterHide.
  split_ifs; now repeat split.
Qed.

Lemma WellFormed_same s s' : WellFormed s -> SameTimers s s' -> WellFormed s'.
Proof.
  intros (W1 & W2 & W3 & W4) (E1 & E2 & E3 & E4).
  unfold WellFormed. rewrite E1, E2, E3, E4. now repeat split.
Qed.

Lemma NoDup_map_filter {A B} (f : A -> B) (p : A -> bool) (l : list A) :
  List.NoDup (map f l) -> List.NoDup (map f (List.filter p l)).
Proof.
  induction l as [| x l IH]; cbn; [auto | ].
  intros H. apply List.NoDup_cons_iff in H. destruct H as [Hx Hl].
  destruct (p x); cbn; [ | now apply IH].
  apply List.NoDup_cons; [ | now apply IH].
  intros Hin. apply Hx. apply in_map_iff in Hin.
  destruct Hin as (y & Hy & Hin). apply in_map_iff. exists y.
  split; [exact Hy | ]. now apply List.filter_In in Hin.
Qed.

Lemma WellFormed_clearTimeout id s :
  WellFormed s -> WellFormed (clearTimeout id s).
Proof.
  intros (W1 & W2 & W3 & W4). destruct id as [i |]; [ | now repeat split].
  unfold WellFormed. cbn.
  split; [now apply NoDup_map_filter | ].
  repeat split; intros t Hin; apply List.filter_In in Hin;
    destruct Hin as [Hin _]; auto.
Qed.

Lemma NoDup_snoc {A} (l : list A) (x : A) :
  List.NoDup l -> ~ In x l -> List.NoDup (l ++ [x]).
Proof.
  induction l as [| y l IH]; cbn; intros Hnd Hx.
  - apply List.NoDup_cons; [intros [] | apply List.NoDup_nil].
  - apply List.NoDup_cons_iff in Hnd. destruct Hnd as [Hy Hl].
    apply List.NoDup_cons.
    + intros Hin. apply in_app_or in Hin.
      destruct Hin as [Hin | [E | []]]; [now apply Hy | apply Hx; now left].
    + apply IH; [exact Hl | intros Hin; apply Hx; now right].
Qed.

(** Arming a timer whose callback is neither [show] nor [hide]. *)
Lemma WellFormed_setTimeout_deferred f delay s :
  WellFormed s -> WellFormed (snd (setTimeout (CbDeferred f) delay s)).
Proof.
  intros (W1 & W2 & W3 & W4). unfold WellFormed, setTimeout. cbn.
  split; [ | repeat split].
  - rewrite map_app. cbn. apply NoDup_snoc; [exact W1 | ].
    intros Hi. apply in_map_iff in Hi.
    destruct Hi as (t & Ht & Hin). specialize (W2 t Hin). lia.
  - intros t Hin. apply in_app_or in Hin. destruct Hin as [Hin | [<- | []]];
      [specialize (W2 t Hin); lia | cbn; lia].
  - intros t Hin Hc. apply in_app_or in Hin.
    destruct Hin as [Hin | [<- | []]]; [auto | discriminate].
  - intros t Hin Hc. apply in_app_or in Hin.
    destruct Hin as [Hin | [<- | []]]; [auto | discriminate].
Qed.

Lemma WellFormed_fire t s : WellFormed s -> WellFormed (fire t s).
Proof.
  intros W. unfold fire. destruct (existsb _ _); [ | exact W].
  eapply WellFormed_same; [ | apply runCallback_same].
  now apply WellFormed_clearTimeout.
Qed.

Lemma WellFormed_tick s : WellFormed s -> WellFormed (tick s).
Proof.
  intros W. unfold tick.
  set (s1 := upd_sched _ s).
  assert (W1 : WellFormed s1) by exact W.
  generalize (sortByDue (List.filter (fun t => (due t <=? now (sched s1))%nat)
                           (timers (sched s1)))).
  intros l. revert W1. generalize s1. clear.
  induction l as [| t l IH]; intros s W; cbn [fold_left]; [exact W | ].
  apply IH. now apply WellFormed_fire.
Qed.

Lemma WellFormed_runFrame f s : WellFormed s -> WellFormed (runFrame f s).
Proof.
  intros W. destruct f; cbn [runFrame].
  - now apply WellFormed_setTimeout_deferred.
  - unfold updatePosition. destruct (visible (state s)); exact W.
Qed.

Lemma WellFormed_animationFrame s :
  WellFormed s -> WellFormed (animationFrame s).
Proof.
  intros W. unfold animationFrame.
  set (s1 := upd_sched _ s).
  assert (W1 : WellFormed s1) by exact W.
  generalize (frames (sched s)). intros l. revert W1. generalize s1. clear.
  induction l as [| f l IH]; intros s W; cbn [fold_left]; [exact W | ].
  apply IH. now apply WellFormed_runFrame.
Qed.

Lemma WellFormed_envStep e s : WellFormed s -> WellFormed (envStep e s).
Proof.
  intros W. destruct e; cbn [envStep].
  - now apply WellFormed_tick.
  - now apply WellFormed_animationFrame.
  - eapply WellFormed_same; [exact W | apply popperUpdate_same].
  - eapply WellFormed_same; [exact W | apply transitionEnd_same].
Qed.

(** After [_clearDelayTimeouts] no timer that calls [show] or [hide] is
    pending. *)
Lemma clearDelayTimeouts_wf s :
  WellFormed s ->
  WellFormed (_clearDelayTimeouts s)
  /\ (forall t, In t (timers (sched (_clearDelayTimeouts s))) ->
                callback t <> CbShow /\ callback t <> CbLeave).
Proof.
  intros W. split.
  - unfold _clearDelayTimeouts. now do 2 apply WellFormed_clearTimeout.
  - destruct W as (W1 & W2 & W3 & W4). intros t Hin.
    unfold _clearDelayTimeouts in Hin.
    pose proof (clearTimeout_spec (hideTimeout (priv s))
                  (clearTimeout (showTimeout (priv s)) s))
      as (_ & _ & _ & _ & _ & _ & _ & F).
    pose proof (clearTimeout_spec (showTimeout (priv s)) s)
      as (_ & _ & _ & _ & _ & _ & _ & E).
    apply F in Hin. destruct Hin as [Hin Hh]. apply E in Hin.
    destruct Hin as [Hin Hs]. split; intros Hc.
    + apply Hs. symmetry. now apply W3.
    + apply Hh. symmetry. now apply W4.
Qed.

Lemma WellFormed_arm (cb : Callback) delay s :
  WellFormed s ->
  (forall t, In t (timers (sched s)) ->
             callback t <> CbShow /\ callback t <> CbLeave) ->
  let id := fst (setTimeout cb delay s) in
  let s' := snd (setTimeout cb delay s) in
  WellFormed (match cb with
              | CbShow => set_showTimeout (Some id) s'
              | CbLeave => set_hideTimeout (Some id) s'
              | CbDeferred _ => s'
              end).
Proof.
  intros (W1 & W2 & W3 & W4) Hno id s'.
  assert (N : List.NoDup (map timerId (timers (sched s'))) /\
              (forall t, In t (timers (sched s')) ->
                         (timerId t < nextTimer (sched s'))%nat) /\
              (forall t, In t (timers (sched s')) ->
                         In t (timers (sched s))
                         \/ (timerId t = id /\ callback t = cb))).
  { subst s' id. unfold setTimeout. cbn. split; [ | split].
    - rewrite map_app. cbn. apply NoDup_snoc; [exact W1 | ].
      intros Hi. apply in_map_iff in Hi.
      destruct Hi as (t & Ht & Hin). specialize (W2 t Hin). lia.
    - intros t Hin. apply in_app_or in Hin.
      destruct Hin as [Hin | [<- | []]];
        [specialize (W2 t Hin); lia | cbn; lia].
    - intros t Hin. apply in_app_or in Hin.
      destruct Hin as [Hin | [<- | []]]; [now left | right; now split]. }
  destruct N as (N1 & N2 & N3).
  destruct cb; unfold WellFormed; cbn;
    (split; [exact N1 | split; [exact N2 | split]]);
    intros t Hin Hc; destruct (N3 t Hin) as [Hold | [Hid Hcb]];
    try (exfalso; destruct (Hno t Hold) as [H1 H2]; congruence);
    try congruence; auto.
Qed.

Lemma WellFormed_enter event s : WellFormed s -> WellFormed (_enter event s).
Proof.
  intros W. destruct (clearDelayTimeouts_wf s W) as [Wc Hno].
  unfold _enter. set (c := _clearDelayTimeouts s) in *.
  destruct (visible (state c)); [exact Wc | ].
  assert (Wp : WellFormed (set_isPreparingToShow true c)) by exact Wc.
  destruct (wait (options (set_isPreparingToShow true c))) as [[ | ] | ].
  - eapply WellFormed_same; [ | apply show_same]. exact Wc.
  - exact Wc.
  - match goal with
    | |- context [truthyNum (getDuration (delay (options ?x)) 0)] =>
        set (c1 := x)
    end.
    assert (W1 : WellFormed c1
                 /\ forall t, In t (timers (sched c1)) ->
                              callback t <> CbShow /\ callback t <> CbLeave).
    { subst c1. destruct (_ && _); (split; [exact Wc | exact Hno]). }
    destruct W1 as [W1 Hno1].
    destruct (truthyNum _).
    + pose proof (WellFormed_arm CbShow
                    (match getDuration (delay (options c1)) 0 with
                     | Some n => n
                     | None => 0
                     end) c1 W1 Hno1) as H.
      cbv zeta in H. destruct (setTimeout CbShow _ c1) as [i r]. exact H.
    + eapply WellFormed_same; [exact W1 | apply show_same].
Qed.

Lemma WellFormed_leave s : WellFormed s -> WellFormed (_leave s).
Proof.
  intros W. destruct (clearDelayTimeouts_wf s W) as [Wc Hno].
  unfold _leave. set (c := _clearDelayTimeouts s) in *.
  destruct (negb (visible (state c))); [exact Wc | ].
  assert (Wp : WellFormed (set_isPreparingToShow false c)) by exact Wc.
  destruct (truthyNum _).
  - pose proof (WellFormed_arm CbLeave
                  (match getDuration
                           (delay (options (set_isPreparingToShow false c))) 1
                   with
                   | Some n => n
                   | None => 0
                   end) (set_isPreparingToShow false c) Wp Hno) as H.
    cbv zeta in H. destruct (setTimeout CbLeave _ _) as [i r]. exact H.
  - eapply WellFormed_same; [exact Wp | apply hide_same].
Qed.

Lemma WellFormed_perform s a : WellFormed s -> WellFormed (perform s a).
Proof.
  intros W. destruct a; cbn [perform].
  - now apply WellFormed_enter.
  - now apply WellFormed_leave.
  - eapply WellFormed_same; [exact W | apply show_same].
  - eapply WellFormed_same; [exact W | apply hide_same].
  - eapply WellFormed_same; [exact W | apply destroy_same].
  - exact W.
  - exact W.
  - now apply WellFormed_envStep.
Qed.

Lemma WellFormed_new o r ls b : WellFormed (newTippy o r ls b).
Proof.
  unfold WellFormed. cbn. split; [apply List.NoDup_nil | ].
  repeat split; intros t [].
Qed.

Lemma WellFormed_reachable o r ls b acts :
  WellFormed (fold_left perform acts (newTippy o r ls b)).
Proof.
  generalize (WellFormed_new o r ls b). generalize (newTippy o r ls b).
  induction acts as [| a rest IH]; intros s W; cbn [fold_left]; [exact W | ].
  apply IH. now apply WellFormed_perform.
Qed.

(** Timers that all carry one id, among timers of distinct ids: at most
    one. *)
Lemma at_most_one_with_id (p : Timer -> bool) (l : list Timer) (i : nat) :
  List.NoDup (map timerId l) ->
  (forall t, In t l -> p t = true -> timerId t = i) ->
  (length (List.filter p l) <= 1)%nat.
Proof.
  induction l as [| x l IH]; cbn; [lia | ].
  intros Hnd Hid. apply List.NoDup_cons_iff in Hnd. destruct Hnd as [Hx Hl].
  destruct (p x) eqn:Hp; cbn; [ | apply IH; auto].
  assert (Hnone : List.filter p l = []).
  { destruct (List.filter p l) as [| y r] eqn:E; [reflexivity | exfalso].
    assert (Hy : In y (List.filter p l)) by (rewrite E; now left).
    apply List.filter_In in Hy. destruct Hy as [Hy Hpy].
    apply Hx. apply in_map_iff. exists y. split; [ | exact Hy].
    rewrite (Hid x (or_introl eq_refl) Hp). apply Hid; [now right | exact Hpy]. }
  rewrite Hnone. cbn. lia.
Qed.
End TimerFacts.

(** X1.  In every state that an instance reaches from its creation,
    through any calls of [_enter], [_leave], [show], [hide], [destroy],
    [enable], [disable] and any steps of the page, at most one timer that
    will call [show] and at most one timer that will call [hide] are
    pending. *)
Theorem at_most_one_timer_of_each_kind :
  forall (o : Instance.Options) (r : Instance.Reference)
         (ls : list Triggers.Listener) (b : Instance.Browser)
         (acts : list Instance.Action),
    let s := fold_left Instance.perform acts (Instance.newTippy o r ls b) in
    (length (List.filter Lifecycle.isShowTimer
               (Instance.timers (Instance.sched s))) <= 1)%nat
    /\ (length (List.filter Lifecycle.isHideTimer
                  (Instance.timers (Instance.sched s))) <= 1)%nat.
Proof.
  intros o r ls b acts s.
  destruct (WellFormed_reachable o r ls b acts) as (W1 & W2 & W3 & W4).
  fold s in W1, W2, W3, W4. split.
  - destruct (Instance.showTimeout (Instance.priv s)) as [i |] eqn:E.
    + apply (at_most_one_with_id _ _ i W1). intros t Hin Hp.
      unfold Lifecycle.isShowTimer in Hp.
      destruct (Instance.callback t) eqn:Hc; try discriminate.
      specialize (W3 t Hin Hc). congruence.
    + apply (at_most_one_with_id _ _ 0%nat W1). intros t Hin Hp.
      unfold Lifecycle.isShowTimer in Hp.
      destruct (Instance.callback t) eqn:Hc; try discriminate.
      specialize (W3 t Hin Hc). congruence.
  - destruct (Instance.hideTimeout (Instance.priv s)) as [i |] eqn:E.
    + apply (at_most_one_with_id _ _ i W1). intros t Hin Hp.
      unfold Lifecycle.isHideTimer in Hp.
      destruct (Instance.callback t) eqn:Hc; try discriminate.
      specialize (W4 t Hin Hc). congruence.
    + apply (at_most_one_with_id _ _ 0%nat W1). intros t Hin Hp.
      unfold Lifecycle.isHideTimer in Hp.
      destruct (Instance.callback t) eqn:Hc; try discriminate.
      specialize (W4 t Hin Hc). congruence.
Qed.

Section DebounceFacts.
Import Instance Lifecycle.



Lemma filter_none {A} (p : A -> bool) (l : list A) :
  (forall x, In x l -> p x = false) -> List.filter p l = [].
Proof.
  induction l as [| x l IH]; cbn; intros H; [reflexivity | ].
  rewrite (H x (or_introl eq_refl)). apply IH. intros y Hy. apply H. now right.
Qed.
End DebounceFacts.


(** ** An induction principle for invariants of the instance *)
Section Invariant.
Import Instance Lifecycle.

(** A property that no change of the scheduler, of the private store, of
    the browser flags, of an existing positioning handle, of [data-state]
    or of the attribute [aria-describedby] affects, that an exception
    thrown by a callback leaves as it is, and that the hooks [wait] and
    [onShown], the methods [show], [hide] and [destroy] and the
    continuation of [hide] preserve, is preserved by every action. *)
Variable I : Tippy -> Prop.
Hypothesis I_sched : forall f s, I s -> I (upd_sched f s).
Hypothesis I_priv : forall f s, I s -> I (upd_priv f s).
Hypothesis I_browser : forall f s, I s -> I (upd_browser f s).
Hypothesis I_handle :
  forall f s,
    (popperInstance s = None <-> f (popperInstance s) = None) ->
    I s -> I (upd_popperInstance f s).
Hypothesis I_dataState : forall b s, I s -> I (set_dataState b s).
Hypothesis I_aria : forall b s, I s -> I (set_ariaDescribedby b s).
Hypothesis I_throw : forall e s, I s -> I (throw e s).
Hypothesis I_wait : forall s, I s -> I (call waitHook s).
Hypothesis I_shown : forall s, I s -> I (call onShown s).
Hypothesis I_show : forall d s, I s -> I (show d s).
Hypothesis I_hide : forall d s, I s -> I (hide d s).
Hypothesis I_destroy : forall s, I s -> I (destroy s).
Hypothesis I_afterHide : forall s, I s -> I (afterHide s).

Lemma inv_clearTimeout id s : I s -> I (clearTimeout id s).
Proof. destruct id; cbn [clearTimeout]; auto. Qed.

Lemma inv_setTimeout cb delay s : I s -> I (snd (setTimeout cb delay s)).
Proof. unfold setTimeout. cbn [snd]. auto. Qed.

Lemma inv_clearDelayTimeouts s : I s -> I (_clearDelayTimeouts s).
Proof. intros H. unfold _clearDelayTimeouts. now do 2 apply inv_clearTimeout. Qed.

Lemma inv_updatePosition s : I s -> I (updatePosition s).
Proof.
  intros H. unfold updatePosition, requestAnimationFrame.
  destruct (visible (state s)); auto.
Qed.

Lemma inv_runTransitionCallback k s : I s -> I (runTransitionCallback k s).
Proof. intros H. destruct k; cbn [runTransitionCallback]; unfold afterShow; auto. Qed.

Lemma inv_onTransitionEnd d k s : I s -> I (_onTransitionEnd d k s).
Proof.
  intros H. unfold _onTransitionEnd.
  destruct (negb _); [now apply inv_runTransitionCallback | ].
  unfold set_transitionendListener. auto.
Qed.

Lemma inv_runDeferred f s : I s -> I (runDeferred f s).
Proof.
  intros H. destruct f; cbn [runDeferred];
    [now apply inv_onTransitionEnd | now apply inv_updatePosition].
Qed.

Lemma inv_runCallback cb s : I s -> I (runCallback cb s).
Proof.
  intros H. destruct cb; cbn [runCallback]; auto.
  - destruct (negb _); auto.
  - now apply inv_runDeferred.
Qed.

Lemma inv_fire t s : I s -> I (fire t s).
Proof.
  intros H. unfold fire. destruct (existsb _ _); [ | exact H].
  apply inv_runCallback. now apply inv_clearTimeout.
Qed.

Lemma inv_tick s : I s -> I (tick s).
Proof.
  intros H. unfold tick.
  set (s1 := upd_sched _ s).
  assert (H1 : I s1) by (subst s1; auto).
  generalize (sortByDue (List.filter (fun t => (due t <=? now (sched s1))%nat)
                           (timers (sched s1)))).
  intros l. revert H1. generalize s1.
  induction l as [| t l IH]; intros s' H'; cbn [fold_left]; [exact H' | ].
  apply IH. now apply inv_fire.
Qed.

Lemma inv_runFrame f s : I s -> I (runFrame f s).
Proof.
  intros H. destruct f; cbn [runFrame];
    [now apply inv_setTimeout | now apply inv_updatePosition].
Qed.

Lemma inv_animationFrame s : I s -> I (animationFrame s).
Proof.
  intros H. unfold animationFrame.
  set (s1 := upd_sched _ s).
  assert (H1 : I s1) by (subst s1; auto).
  generalize (frames (sched s)). intros l. revert H1. generalize s1.
  induction l as [| f l IH]; intros s' H'; cbn [fold_left]; [exact H' | ].
  apply IH. now apply inv_runFrame.
Qed.

Lemma inv_mountCallback d s : I s -> I (mountCallback d s).
Proof.
  intros H. unfold mountCallback.
  destruct (negb _); [exact H | ].
  destruct (mountCallbackThrows s).
  { apply I_throw. unfold set_eventListeners. apply I_handle; [ | exact H].
    destruct (popperInstance s); split; congruence. }
  apply inv_onTransitionEnd. apply I_dataState.
  match goal with
  | |- I (if sticky (options ?x) then _ else _) =>
      assert (Hx : I x); [ | destruct (sticky (options x)); [ | exact Hx]]
  end.
  - destruct (_ && _); [ | exact H].
    assert (He : I (set_eventListeners false s)).
    { unfold set_eventListeners. apply I_handle; [ | exact H].
      destruct (popperInstance s); split; congruence. }
    unfold set_lastMouseMoveEvent.
    destruct (lastTriggerEvent _); [ | exact He].
    destruct (String.eqb _ _); auto.
  - unfold defer, requestAnimationFrame. auto.
Qed.

Lemma inv_popperUpdate s : I s -> I (popperUpdate s).
Proof.
  intros H. unfold popperUpdate.
  destruct (popperInstance s) as [pi |] eqn:Epi; [ | exact H].
  destruct (pi_destroyed pi); [exact H | ].
  destruct (pendingCallbacks pi); [exact H | ].
  destruct (mountCallbackThrows s); [now apply inv_mountCallback | ].
  apply inv_mountCallback. apply I_handle; [ | exact H].
  rewrite Epi. split; congruence.
Qed.

Lemma inv_transitionEnd s : I s -> I (transitionEnd s).
Proof.
  intros H. unfold transitionEnd.
  destruct (transitionendListener (priv s)); [ | exact H].
  apply inv_runTransitionCallback. unfold set_transitionendListener. auto.
Qed.

Lemma inv_envStep e s : I s -> I (envStep e s).
Proof.
  intros H. destruct e; cbn [envStep].
  - now apply inv_tick.
  - now apply inv_animationFrame.
  - now apply inv_popperUpdate.
  - now apply inv_transitionEnd.
Qed.

Lemma inv_run steps s : I s -> I (run steps s).
Proof.
  unfold run. revert s.
  induction steps as [| e rest IH]; intros s H; cbn [fold_left]; [exact H | ].
  apply IH. now apply inv_envStep.
Qed.

Lemma inv_enter event s : I s -> I (_enter event s).
Proof.
  intros H. unfold _enter.
  pose proof (inv_clearDelayTimeouts s H) as Hc.
  set (c := _clearDelayTimeouts s) in *.
  destruct (visible (state c)); [exact Hc | ].
  assert (Hp : I (set_isPreparingToShow true c))
    by (unfold set_isPreparingToShow; auto).
  destruct (wait (options (set_isPreparingToShow true c))) as [[ | ] | ];
    [auto | auto | ].
  match goal with
  | |- context [truthyNum (getDuration (delay (options ?x)) 0)] =>
      set (c1 := x)
  end.
  assert (H1 : I c1).
  { subst c1. destruct (_ && _); [ | exact Hp].
    unfold set_documentMousemove, set_followCursorListener. auto. }
  destruct (truthyNum _); [ | auto].
  pose proof (inv_setTimeout CbShow
                (match getDuration (delay (options c1)) 0 with
                 | Some n => n
                 | None => 0
                 end) c1 H1) as Ht.
  destruct (setTimeout CbShow _ c1) as [i r]. cbn [snd] in Ht.
  unfold set_showTimeout. auto.
Qed.

Lemma inv_leave s : I s -> I (_leave s).
Proof.
  intros H. unfold _leave.
  pose proof (inv_clearDelayTimeouts s H) as Hc.
  set (c := _clearDelayTimeouts s) in *.
  destruct (negb (visible (state c))); [exact Hc | ].
  assert (Hp : I (set_isPreparingToShow false c))
    by (unfold set_isPreparingToShow; auto).
  destruct (truthyNum _); [ | auto].
  pose proof (inv_setTimeout CbLeave
                (match getDuration
                         (delay (options (set_isPreparingToShow false c))) 1
                 with
                 | Some n => n
                 | None => 0
                 end) _ Hp) as Ht.
  destruct (setTimeout CbLeave _ _) as [i r]. cbn [snd] in Ht.
  unfold set_hideTimeout. auto.
Qed.

Lemma inv_perform a s :
  (a = DoEnable -> I s -> I (enable s)) ->
  (a = DoDisable -> I s -> I (disable s)) ->
  I s -> I (perform s a).
Proof.
  intros He Hd H. destruct a; cbn [perform]; auto.
  - now apply inv_enter.
  - now apply inv_leave.
  - now apply inv_envStep.
Qed.
End Invariant.

Section LockedFacts.
Import Instance Lifecycle Laws.

Lemma calls_other h h' s :
  hook_eqb h h' = false -> calls h (call h' s) = calls h s.
Proof. intros E. rewrite calls_call, E. apply Nat.add_0_r. Qed.

Lemma show_destroyed d s : destroyed (state s) = true -> show d s = s.
Proof. intros H. unfold show. now rewrite H. Qed.

Lemma hide_destroyed d s : destroyed (state s) = true -> hide d s = s.
Proof. intros H. unfold hide. now rewrite H. Qed.

Lemma show_disabled d s : enabled (state s) = false -> show d s = s.
Proof. intros H. unfold show. rewrite H. now rewrite orb_true_r. Qed.

Lemma hide_disabled d s : enabled (state s) = false -> hide d s = s.
Proof. intros H. unfold hide. rewrite H. now rewrite orb_true_r. Qed.

Lemma afterHide_state s : state (afterHide s) = state s.
Proof. unfold afterHide. destruct (_ || _); [reflexivity | ]. now destruct (negb _). Qed.

(** The continuation of [hide] changes the reference in the attribute
    [aria-describedby] only. *)
Lemma afterHide_reference s :
  withAria false (reference (afterHide s)) = withAria false (reference s).
Proof. unfold afterHide. destruct (_ || _); [reflexivity | ]. now destruct (negb _). Qed.

Lemma withAria_fields r r' :
  withAria false r' = withAria false r ->
  refObj r' = refObj r /\ inDocument r' = inDocument r
  /\ title r' = title r /\ originalTitle r' = originalTitle r
  /\ dataTippy r' = dataTippy r /\ hasTippy r' = hasTippy r
  /\ registered r' = registered r.
Proof. unfold withAria. intros [= -> -> -> -> -> -> ->]. now repeat split. Qed.

Lemma withAria_eq r r' :
  withAria false r' = withAria false r ->
  ariaDescribedby r' = ariaDescribedby r -> r' = r.
Proof.
  destruct r, r'. unfold withAria. cbn. intros [= -> -> -> -> -> -> ->] ->.
  reflexivity.
Qed.

Lemma afterHide_listeners s : listeners (afterHide s) = listeners s.
Proof. unfold afterHide. destruct (_ || _); [reflexivity | ]. now destruct (negb _). Qed.

Lemma afterHide_calls h s :
  hook_eqb h onHidden = false -> calls h (afterHide s) = calls h s.
Proof.
  intros E. unfold afterHide. destruct (_ || _); [reflexivity | ].
  rewrite calls_other by exact E. now destruct (negb _).
Qed.

(** Once destroyed, always destroyed, with the same visibility and
    the same reference, the attribute [aria-describedby] apart, and
    without further calls of [onShow] and [onHide]. *)
Lemma destroyed_perform s a :
  destroyed (state s) = true ->
  destroyed (state (perform s a)) = true
  /\ visible (state (perform s a)) = visible (state s)
  /\ withAria false (reference (perform s a)) = withAria false (reference s)
  /\ calls onShow (perform s a) = calls onShow s
  /\ calls onHide (perform s a) = calls onHide s.
Proof.
  intros Hd.
  set (I := fun s' : Tippy =>
              destroyed (state s') = true
              /\ visible (state s') = visible (state s)
              /\ withAria false (reference s')
                 = withAria false (reference s)
              /\ calls onShow s' = calls onShow s
              /\ calls onHide s' = calls onHide s).
  change (I (perform s a)).
  apply inv_perform; subst I; cbn beta;
    try (intros; assumption);
    try (intros ? ? (A & B & C & D & E); rewrite ?show_destroyed,
           ?hide_destroyed by exact A; now repeat split).
  - intros s' (A & B & C & D & E).
    rewrite !calls_other by reflexivity. now repeat split.
  - intros s' (A & B & C & D & E).
    rewrite !calls_other by reflexivity. now repeat split.
  - intros s' (A & B & C & D & E). unfold destroy. rewrite A. now repeat split.
  - intros s' (A & B & C & D & E).
    rewrite afterHide_state, afterHide_reference, !afterHide_calls
      by reflexivity. now repeat split.
  - now repeat split.
Qed.

(** While disabled, the same for every action but [enable]. *)
Lemma disabled_perform s a :
  enabled (state s) = false -> isEnable a = false ->
  enabled (state (perform s a)) = false
  /\ visible (state (perform s a)) = visible (state s)
  /\ calls onShow (perform s a) = calls onShow s
  /\ calls onHide (perform s a) = calls onHide s.
Proof.
  intros Hd Ha.
  set (I := fun s' : Tippy =>
              enabled (state s') = false
              /\ visible (state s') = visible (state s)
              /\ calls onShow s' = calls onShow s
              /\ calls onHide s' = calls onHide s).
  change (I (perform s a)).
  apply inv_perform; subst I; cbn beta;
    try (intros; assumption);
    try (intros ? ? (A & B & C & D); rewrite ?show_disabled,
           ?hide_disabled by exact A; now repeat split).
  - intros s' (A & B & C & D).
    rewrite !calls_other by reflexivity. now repeat split.
  - intros s' (A & B & C & D).
    rewrite !calls_other by reflexivity. now repeat split.
  - intros s' (A & B & C & D). unfold destroy.
    destruct (destroyed (state s')); [now repeat split | ].
    rewrite hide_disabled by exact A.
    replace (if visible (state s') then s' else s') with s'
      by now destruct (visible (state s')).
    now repeat split.
  - intros s' (A & B & C & D).
    rewrite afterHide_state, !afterHide_calls by reflexivity.
    now repeat split.
  - intros E. subst a. discriminate.
  - intros _ (A & B & C & D). now repeat split.
  - now repeat split.
Qed.
End LockedFacts.

(** X3.  A destroyed instance stays destroyed.  Whatever is called on
    it afterwards ([_enter], [_leave], [show], [hide], [destroy],
    [enable], [disable]) and whatever the page does (timers, animation
    frames, updates of the positioning engine, transition ends), its
    visibility does not change any more, neither [onShow] nor [onHide] is
    called again, and its reference keeps its [title], its
    [data-original-title] and [data-tippy], its property [_tippy] (none)
    and its listeners, and stays where it is.  The attribute
    [aria-describedby] is not among these: the continuations of [show]
    and [hide] that are still pending set and remove it. *)
Theorem destroyed_instance_is_inert :
  forall (s : Instance.Tippy) (acts : list Instance.Action),
    Instance.destroyed (Instance.state s) = true ->
    let s' := fold_left Instance.perform acts s in
    let r := Instance.reference s in
    let r' := Instance.reference s' in
    Instance.destroyed (Instance.state s') = true
    /\ Instance.visible (Instance.state s') = Instance.visible (Instance.state s)
    /\ Instance.calls Instance.onShow s' = Instance.calls Instance.onShow s
    /\ Instance.calls Instance.onHide s' = Instance.calls Instance.onHide s
    /\ Instance.title r' = Instance.title r
    /\ Instance.originalTitle r' = Instance.originalTitle r
    /\ Instance.dataTippy r' = Instance.dataTippy r
    /\ Instance.hasTippy r' = Instance.hasTippy r
    /\ Instance.registered r' = Instance.registered r
    /\ Instance.refObj r' = Instance.refObj r
    /\ Instance.inDocument r' = Instance.inDocument r.
Proof.
  intros s acts Hd s' r r'.
  assert (G : Instance.destroyed (Instance.state s') = true
              /\ Instance.visible (Instance.state s')
                 = Instance.visible (Instance.state s)
              /\ Instance.withAria false r' = Instance.withAria false r
              /\ Instance.calls Instance.onShow s'
                 = Instance.calls Instance.onShow s
              /\ Instance.calls Instance.onHide s'
                 = Instance.calls Instance.onHide s).
  { subst s' r r'. revert s Hd.
    induction acts as [| a rest IH]; intros s Hd; cbn [fold_left].
    - now repeat split.
    - destruct (destroyed_perform s a Hd) as (A & B & C & D & E).
      destruct (IH _ A) as (A' & B' & C' & D' & E').
      repeat split; congruence. }
  destruct G as (A & B & C & D & E).
  destruct (withAria_fields _ _ C) as (F1 & F2 & F3 & F4 & F5 & F6 & F7).
  now repeat split.
Qed.

Lemma destroyed_instance_is_inert_witness :
  let s := Instance.destroy
             (Instance.show None
                (Instance.newTippy
                   (Instance.optionsWith (Instance.Num 0) None)
                   Instance.attachedReference [] Instance.desktopBrowser)) in
  let acts := [Instance.DoEnable;
               Instance.DoEnter {| Instance.ev_type := "mouseenter" |};
               Instance.DoShow None;
               Instance.DoEnv Instance.AnimationFrame;
               Instance.DoEnv Instance.Tick;
               Instance.DoEnv Instance.PopperUpdate;
               Instance.DoHide (Some 0)] in
  Instance.destroyed (Instance.state s) = true
  /\ Instance.visible (Instance.state (fold_left Instance.perform acts s))
     = false
  /\ Instance.calls Instance.onShow (fold_left Instance.perform acts s)
     = 1%nat.
Proof.
  intros s acts.
  pose proof (destroyed_instance_is_inert s acts ltac:(reflexivity)) as H.
  cbv zeta in H. destruct H as (_ & H1 & H2 & _).
  split; [reflexivity | ]. split; [exact H1 | exact H2].
Defined.

(** X4.  A disabled instance ignores every request.  As long as
    [enable] is not called, no call and no step of the page changes its
    visibility, and neither [onShow] nor [onHide] is called. *)
Theorem disabled_instance_ignores_requests :
  forall (s : Instance.Tippy) (acts : list Instance.Action),
    Instance.enabled (Instance.state s) = false ->
    forallb (fun a => negb (Laws.isEnable a)) acts = true ->
    let s' := fold_left Instance.perform acts s in
    Instance.enabled (Instance.state s') = false
    /\ Instance.visible (Instance.state s') = Instance.visible (Instance.state s)
    /\ Instance.calls Instance.onShow s' = Instance.calls Instance.onShow s
    /\ Instance.calls Instance.onHide s' = Instance.calls Instance.onHide s.
Proof.
  intros s acts. revert s.
  induction acts as [| a rest IH]; intros s Hd Hacts; cbn [fold_left].
  - now repeat split.
  - cbn [forallb] in Hacts. apply andb_prop in Hacts.
    destruct Hacts as [Ha Hrest]. apply negb_true_iff in Ha.
    destruct (disabled_perform s a Hd Ha) as (A & B & C & D).
    destruct (IH _ A Hrest) as (A' & B' & C' & D').
    cbv zeta in *. repeat split; congruence.
Qed.

Lemma disabled_instance_ignores_requests_witness :
  let s := Instance.disable
             (Instance.show None
                (Instance.newTippy
                   (Instance.optionsWith (Instance.Num 0) None)
                   Instance.attachedReference [] Instance.desktopBrowser)) in
  let acts := [Instance.DoLeave;
               Instance.DoHide None;
               Instance.DoEnv Instance.AnimationFrame;
               Instance.DoEnv Instance.Tick;
               Instance.DoDestroy;
               Instance.DoEnv Instance.TransitionEnd] in
  Instance.visible (Instance.state (fold_left Instance.perform acts s)) = true
  /\ Instance.calls Instance.onHide (fold_left Instance.perform acts s)
     = 0%nat.
Proof.
  intros s acts.
  pose proof (disabled_instance_ignores_requests s acts
                ltac:(reflexivity) ltac:(reflexivity)) as H.
  cbv zeta in H. destruct H as (_ & H1 & _ & H2).
  split; [exact H1 | exact H2].
Defined.

Section ReferenceFacts.
Import Instance Lifecycle Laws.

Lemma filter_filter {A} (p q : A -> bool) (l : list A) :
  List.filter p (List.filter q l) = List.filter (fun x => q x && p x) l.
Proof.
  induction l as [| x l IH]; cbn; [reflexivity | ].
  destruct (q x); cbn; [ | exact IH].
  destruct (p x); now rewrite IH.
Qed.

Lemma filter_ext_eq {A} (p q : A -> bool) (l : list A) :
  (forall x, p x = q x) -> List.filter p l = List.filter q l.
Proof.
  intros H. induction l as [| x l IH]; cbn; [reflexivity | ].
  rewrite H, IH. reflexivity.
Qed.

(** Removing the listeners of [ls] one after the other leaves the
    registrations that are none of them. *)
Lemma remove_all_listeners ls regs :
  fold_left (fun regs l => removeEventListener l regs) ls regs
  = List.filter (fun l => negb (isListenerOf ls l)) regs.
Proof.
  revert regs. induction ls as [| l ls IH]; intros regs; cbn [fold_left].
  - unfold isListenerOf. cbn. induction regs as [| x regs IHr]; cbn;
      [reflexivity | now rewrite <- IHr].
  - rewrite IH. unfold removeEventListener. rewrite filter_filter.
    apply filter_ext_eq. intros x. unfold isListenerOf. cbn [existsb].
    now rewrite negb_orb.
Qed.

Lemma destroy_cleanup_reference s :
  reference (destroy_cleanup s) = cleaned (listeners s) (reference s).
Proof.
  unfold destroy_cleanup, cleaned, restoredTitle. cbn.
  now rewrite remove_all_listeners.
Qed.

Lemma hide_reference d s : reference (hide d s) = reference s.
Proof. unfold hide. now destruct (_ || _). Qed.

Lemma hide_listeners d s : listeners (hide d s) = listeners s.
Proof. unfold hide. now destruct (_ || _). Qed.

Lemma hide_destroyed_same d s :
  destroyed (state (hide d s)) = destroyed (state s).
Proof. unfold hide. now destruct (_ || _). Qed.

Lemma mount_untouched d s :
  listeners (_mount d s) = listeners s
  /\ reference (_mount d s) = reference s
  /\ state (_mount d s) = state s.
Proof.
  unfold _mount, _createPopperInstance.
  repeat match goal with
    | |- context [if ?c then _ else _] => destruct c
    | |- context [match ?x with _ => _ end] => destruct x
    end; now repeat split.
Qed.

Lemma cleaned_withAria ls x y :
  withAria false x = withAria false y ->
  withAria false (cleaned ls x) = withAria false (cleaned ls y).
Proof.
  intros H. destruct (withAria_fields _ _ H) as (F1 & F2 & F3 & F4 & F5 & F6 & F7).
  unfold cleaned, restoredTitle, withAria. cbn.
  now rewrite F1, F2, F4, F7.
Qed.

Lemma RefInv_destroy ls r s : RefInv ls r s -> RefInv ls r (destroy s).
Proof.
  intros [A B]. unfold destroy.
  destruct (destroyed (state s)) eqn:Hd; [split; [exact A | now rewrite Hd] | ].
  assert (E : listeners (if visible (state s) then hide (Some 0) s else s) = ls
              /\ withAria false
                   (reference (if visible (state s) then hide (Some 0) s
                               else s))
                 = withAria false r).
  { destruct (visible (state s));
      [rewrite hide_listeners, hide_reference | ]; now split. }
  destruct E as [E1 E2]. split.
  - unfold destroy_cleanup. cbn. exact E1.
  - rewrite destroy_cleanup_reference, E1.
    change (destroyed (state (destroy_cleanup _))) with true. cbv iota.
    now apply cleaned_withAria.
Qed.

Lemma RefInv_perform ls r s a : RefInv ls r s -> RefInv ls r (perform s a).
Proof.
  intros H. apply (inv_perform (RefInv ls r)); try exact H;
    try (intros; assumption).
  - intros d s' H'. unfold show.
    destruct (_ || _); [exact H' | ].
    destruct (_ && _); [exact H' | ].
    destruct (_ && _); [now apply RefInv_destroy | ].
    destruct H' as [A B]. unfold RefInv.
    destruct (mount_untouched
                (getDuration
                   match d with
                   | Some n => Num n
                   | None => duration (options (call onShow s'))
                   end 0) (set_visible true (call onShow s')))
      as (M1 & M2 & M3).
    cbv zeta. rewrite M1, M2, M3. now split.
  - intros d s' [A B]. split;
      [now rewrite hide_listeners
      | now rewrite hide_reference, hide_destroyed_same].
  - intros s'. apply RefInv_destroy.
  - intros s' [A B]. split;
      [now rewrite afterHide_listeners
      | now rewrite afterHide_reference, afterHide_state].
Qed.

Lemma RefInv_run ls r acts s :
  RefInv ls r s -> RefInv ls r (fold_left perform acts s).
Proof.
  revert s. induction acts as [| a rest IH]; intros s H; cbn [fold_left];
    [exact H | ].
  apply IH. now apply RefInv_perform.
Qed.

Lemma destroyed_run acts s :
  destroyed (state s) = true ->
  destroyed (state (fold_left perform acts s)) = true.
Proof.
  revert s. induction acts as [| a rest IH]; intros s H; cbn [fold_left];
    [exact H | ].
  apply IH. now apply destroyed_perform.
Qed.

Lemma destroy_sets_destroyed s : destroyed (state (destroy s)) = true.
Proof.
  unfold destroy. destruct (destroyed (state s)) eqn:E; [exact E | reflexivity].
Qed.

Lemma reference_after_destroy s0 before after :
  destroyed (state s0) = false ->
  let s := fold_left perform (before ++ DoDestroy :: after) s0 in
  destroyed (state s) = true
  /\ withAria false (reference s)
     = withAria false (cleaned (listeners s0) (reference s0)).
Proof.
  intros Hd s. subst s. rewrite fold_left_app. cbn [fold_left perform].
  set (s1 := fold_left perform before s0).
  assert (H0 : RefInv (listeners s0) (reference s0) s0)
    by (split; [reflexivity | now rewrite Hd]).
  pose proof (RefInv_run _ _ before s0 H0) as H1. fold s1 in H1.
  pose proof (RefInv_destroy _ _ _ H1) as H2.
  pose proof (destroy_sets_destroyed s1) as D2.
  pose proof (RefInv_run _ _ after _ H2) as [_ H3].
  pose proof (destroyed_run after _ D2) as D3.
  split; [exact D3 | ]. now rewrite D3 in H3.
Qed.

Lemma listener_eqb_refl l : listener_eqb l l = true.
Proof.
  unfold listener_eqb. rewrite String.eqb_refl.
  now destruct (Triggers.handler l).
Qed.

Lemma isListenerOf_In ls l : In l ls -> isListenerOf ls l = true.
Proof.
  intros H. unfold isListenerOf. apply existsb_exists. exists l.
  split; [exact H | apply listener_eqb_refl].
Qed.

Lemma filter_all {A} (p : A -> bool) (l : list A) :
  (forall x, In x l -> p x = true) -> List.filter p l = l.
Proof.
  induction l as [| x l IH]; cbn; intros H; [reflexivity | ].
  rewrite (H x (or_introl eq_refl)). f_equal. apply IH.
  intros y Hy. apply H. now right.
Qed.

(** Listeners added by an instance and removed again: what was there
    before is what is left. *)
Lemma remove_own_listeners regs own :
  (forall l, In l regs -> isListenerOf own l = false) ->
  List.filter (fun l => negb (isListenerOf own l)) (regs ++ own) = regs.
Proof.
  intros H. rewrite List.filter_app.
  rewrite (filter_all _ regs) by (intros x Hx; now rewrite (H x Hx)).
  rewrite (filter_none _ own)
    by (intros x Hx; now rewrite (isListenerOf_In own x Hx)).
  apply app_nil_r.
Qed.
(** What [createTooltips] makes of a reference. *)
Lemma createTooltip_spec supportsTouch o c b r s0 :
  Creation.createTooltip supportsTouch o c b r = Some s0 ->
  destroyed (state s0) = false
  /\ listeners s0
     = snd (Triggers.wireTriggers supportsTouch (Creation.trigger c)
              (Creation.touchHold c) (registered r))
  /\ reference s0
     = {| refObj := refObj r; inDocument := inDocument r; title := None;
          originalTitle := if Geometry.truthyAttr (title r) then title r
                           else originalTitle r;
          dataTippy := true; hasTippy := true;
          ariaDescribedby := ariaDescribedby r;
          registered :=
            fst (Triggers.wireTriggers supportsTouch (Creation.trigger c)
                   (Creation.touchHold c) (registered r)) |}.
Proof.
  unfold Creation.createTooltip.
  destruct (_ && _); [discriminate | ].
  intros E. injection E as <-.
  unfold Creation._addMutationObserver.
  destruct (dynamicTitle o), (Creation.createPopperInstanceOnInit c);
    cbn; destruct (hasMutationObserver b) eqn:Eb; cbn; rewrite ?Eb; cbn;
    now repeat split.
Qed.
End ReferenceFacts.

(** X5.  Once [destroy] has been called, whatever was done before and
    whatever is done afterwards, the instance is destroyed and its
    reference is as follows: the title is the stored original title (for
    an element without one, the string "null"), the attributes
    [data-original-title] and [data-tippy] and the property [_tippy] are
    gone, and of the listeners registered on the reference exactly those
    of the instance (same event and handler) are removed. *)
Theorem destroy_restores_reference :
  forall (s0 : Instance.Tippy) (before after : list Instance.Action),
    Instance.destroyed (Instance.state s0) = false ->
    let s := fold_left Instance.perform
               (before ++ Instance.DoDestroy :: after) s0 in
    let r := Instance.reference s0 in
    Instance.destroyed (Instance.state s) = true
    /\ Instance.title (Instance.reference s) = Laws.restoredTitle r
    /\ Instance.originalTitle (Instance.reference s) = None
    /\ Instance.dataTippy (Instance.reference s) = false
    /\ Instance.hasTippy (Instance.reference s) = false
    /\ Instance.registered (Instance.reference s)
       = List.filter
           (fun l => negb (Laws.isListenerOf (Instance.listeners s0) l))
           (Instance.registered r)
    /\ Instance.refObj (Instance.reference s) = Instance.refObj r
    /\ Instance.inDocument (Instance.reference s) = Instance.inDocument r.
Proof.
  intros s0 before after Hd s r.
  destruct (reference_after_destroy s0 before after Hd) as [D E].
  fold s in D, E.
  destruct (withAria_fields _ _ E) as (F1 & F2 & F3 & F4 & F5 & F6 & F7).
  rewrite F1, F2, F3, F4, F5, F6, F7. now repeat split.
Qed.

Lemma destroy_restores_reference_witness :
  let l := {| Triggers.event := "click";
              Triggers.handler := Triggers.handleTrigger |} in
  let other := {| Triggers.event := "keydown";
                  Triggers.handler := Triggers.handleTrigger |} in
  let r := {| Instance.refObj := false; Instance.inDocument := true;
              Instance.title := None;
              Instance.originalTitle := Some "Hello"%string;
              Instance.dataTippy := true; Instance.hasTippy := true;
              Instance.ariaDescribedby := false;
              Instance.registered := [other; l] |} in
  let s0 := Instance.newTippy (Instance.optionsWith (Instance.Num 0) None)
              r [l] Instance.desktopBrowser in
  let s := fold_left Instance.perform
             ([Instance.DoShow None; Instance.DoEnv Instance.PopperUpdate]
              ++ Instance.DoDestroy
                 :: [Instance.DoEnv Instance.AnimationFrame;
                     Instance.DoEnv Instance.Tick; Instance.DoShow None]) s0 in
  Instance.title (Instance.reference s) = Some "Hello"%string
  /\ Instance.registered (Instance.reference s) = [other].
Proof.
  intros l other r s0 s.
  pose proof (destroy_restores_reference s0
                [Instance.DoShow None; Instance.DoEnv Instance.PopperUpdate]
                [Instance.DoEnv Instance.AnimationFrame;
                 Instance.DoEnv Instance.Tick; Instance.DoShow None]
                ltac:(reflexivity)) as H.
  cbv zeta in H. destruct H as (_ & H1 & _ & _ & _ & H2 & _).
  split; [exact H1 | exact H2].
Defined.

(** X6.  A reference goes back to what it was.  When [createTooltips]
    has made an instance for a reference (title moved to
    [data-original-title], listeners of the trigger configuration
    registered) and the instance is destroyed at any later time, the
    reference has the listeners it had before, provided none of them has
    the event and handler of one of the instance's; the title it had
    before, when that was not empty (otherwise the value that
    [setAttribute] makes of the stored one); and neither data attribute
    nor [_tippy]. *)
Theorem created_then_destroyed_reference :
  forall (supportsTouch : bool) (o : Instance.Options) (c : Creation.Config)
         (b : Instance.Browser) (r : Instance.Reference) (s0 : Instance.Tippy)
         (before after : list Instance.Action),
    Creation.createTooltip supportsTouch o c b r = Some s0 ->
    (forall l, In l (Instance.registered r) ->
               Laws.isListenerOf (Instance.listeners s0) l = false) ->
    let s := fold_left Instance.perform
               (before ++ Instance.DoDestroy :: after) s0 in
    Instance.registered (Instance.reference s) = Instance.registered r
    /\ Instance.title (Instance.reference s)
       = (if Geometry.truthyAttr (Instance.title r) then Instance.title r
          else Laws.restoredTitle r)
    /\ Instance.originalTitle (Instance.reference s) = None
    /\ Instance.dataTippy (Instance.reference s) = false
    /\ Instance.hasTippy (Instance.reference s) = false.
Proof.
  intros supportsTouch o c b r s0 before after Hc Hdis s.
  destruct (createTooltip_spec supportsTouch o c b r s0 Hc) as (Hd & Hls & Hr).
  destruct (reference_after_destroy s0 before after Hd) as [_ E].
  fold s in E.
  destruct (withAria_fields _ _ E) as (F1 & F2 & F3 & F4 & F5 & F6 & F7).
  rewrite F3, F4, F5, F6, F7, Hr. unfold Laws.cleaned. cbn.
  pose proof (wireTriggers_listeners supportsTouch (Creation.trigger c)
                (Creation.touchHold c) (Instance.registered r)) as W.
  cbv zeta in W. rewrite W in Hls |- *. cbn [fst snd] in Hls |- *.
  rewrite Hls in *.
  split; [now apply remove_own_listeners | ].
  split; [ | now repeat split].
  unfold Laws.restoredTitle. cbn.
  destruct (Geometry.truthyAttr (Instance.title r)) eqn:Ht; [ | reflexivity].
  destruct (Instance.title r) as [t |]; [ | discriminate].
  now destruct (Instance.refObj r).
Qed.

Lemma created_then_destroyed_reference_witness :
  let other := {| Triggers.event := "keydown";
                  Triggers.handler := Triggers.handleTrigger |} in
  let r := {| Instance.refObj := false; Instance.inDocument := true;
              Instance.title := Some "Hello"%string;
              Instance.originalTitle := None;
              Instance.dataTippy := false; Instance.hasTippy := false;
              Instance.ariaDescribedby := false;
              Instance.registered := [other] |} in
  let c := {| Creation.html := false;
              Creation.createPopperInstanceOnInit := false;
              Creation.trigger := "mouseenter focus"%string;
              Creation.touchHold := false |} in
  let o := Instance.optionsWith (Instance.Num 0) None in
  exists s0,
    Creation.createTooltip false o c Instance.desktopBrowser r = Some s0
    /\ let s := fold_left Instance.perform
                  ([Instance.DoShow None] ++ Instance.DoDestroy :: []) s0 in
       Instance.registered (Instance.reference s) = [other]
       /\ Instance.title (Instance.reference s) = Some "Hello"%string.
Proof.
  intros other r c o. eexists. split; [reflexivity | ].
  match goal with
  | |- context [fold_left _ _ ?s0] =>
      pose proof (created_then_destroyed_reference false o c
                    Instance.desktopBrowser r s0 [Instance.DoShow None] []
                    ltac:(reflexivity)) as H
  end.
  cbv zeta in H. destruct H as (H1 & H2 & _).
  - intros l [<- | []]. reflexivity.
  - split; [exact H1 | exact H2].
Defined.

Section ConsistencyFacts.
Import Instance Lifecycle Laws.

Lemma mount_spec d s :
  mounted (popper (_mount d s)) = true
  /\ popperInstance (_mount d s) <> None
  /\ trace (_mount d s) = trace s.
Proof.
  unfold _mount.
  set (s1 := match popperInstance s with
             | Some _ => _
             | None => _
             end).
  assert (H1 : popperInstance s1 <> None /\ trace s1 = trace s).
  { subst s1. unfold _createPopperInstance, set_eventListeners.
    destruct (popperInstance s) eqn:E.
    - destruct (_ || _); cbn; rewrite ?E; split; congruence.
    - destruct (hasMutationObserver (browser s)); cbn; split; congruence. }
  destruct H1 as [H1 H2].
  set (s2 := upd_popperInstance _ s1).
  assert (H3 : popperInstance s2 <> None /\ trace s2 = trace s).
  { subst s2. cbn. destruct (popperInstance s1); [ | congruence].
    split; congruence. }
  destruct H3 as [H3 H4].
  destruct (mounted (popper s2)) eqn:Hm; cbn [negb]; [now repeat split | ].
  cbn. now repeat split.
Qed.

Lemma Consistent_hide d s : Consistent s -> Consistent (hide d s).
Proof.
  intros (A & B & C). unfold hide. destruct (_ || _); [now repeat split | ].
  unfold Consistent, calls in *. cbn.
  rewrite ?List.filter_app, ?length_app. cbn.
  split; [discriminate | split; [assumption | lia]].
Qed.

Lemma Consistent_destroy s : Consistent s -> Consistent (destroy s).
Proof.
  intros H. unfold destroy. destruct (destroyed (state s)); [exact H | ].
  assert (H1 : Consistent (if visible (state s) then hide (Some 0) s else s))
    by (destruct (visible (state s)); [now apply Consistent_hide | exact H]).
  destruct H1 as (A & B & C). unfold destroy_cleanup, Consistent.
  cbn -[calls]. split; [exact A | split; [ | exact C]].
  intros Hm. specialize (B Hm).
  destruct (popperInstance _); congruence.
Qed.

Lemma Consistent_show d s : Consistent s -> Consistent (show d s).
Proof.
  intros H. unfold show.
  destruct (_ || _); [exact H | ].
  destruct (_ && _); [exact H | ].
  destruct (_ && _); [now apply Consistent_destroy | ].
  destruct H as (A & B & C). cbv zeta.
  match goal with |- Consistent (_mount ?d' ?x) =>
    destruct (mount_spec d' x) as (M1 & M2 & M3);
    destruct (mount_untouched d' x) as (_ & _ & M4)
  end.
  unfold Consistent, calls. rewrite M1, M3. fold (calls onHidden s).
  split; [auto | split; [auto | ]].
  cbn [trace set_visible upd_state].
  change (length (List.filter (hook_eqb onHidden) (trace (call onShow s))))
    with (calls onHidden (call onShow s)).
  change (length (List.filter (hook_eqb onShow) (trace (call onShow s))))
    with (calls onShow (call onShow s)).
  rewrite calls_other by reflexivity. rewrite calls_call. cbn [hook_eqb].
  destruct (mounted (popper s)); lia.
Qed.

Lemma Consistent_afterHide s : Consistent s -> Consistent (afterHide s).
Proof.
  intros H. unfold afterHide.
  destruct (visible (state s)) eqn:Hv; cbn [orb]; [exact H | ].
  destruct (mounted (popper s)) eqn:Hm; cbn [negb]; [ | exact H].
  destruct H as (A & B & C). rewrite Hm in C.
  unfold Consistent, calls in *.
  destruct (negb _); cbn; rewrite ?Hv, ?List.filter_app, ?length_app; cbn;
    (split; [discriminate | split; [discriminate | lia]]).
Qed.

Lemma Consistent_perform s a : Consistent s -> Consistent (perform s a).
Proof.
  intros H. apply (inv_perform Consistent); try exact H;
    try (intros; assumption).
  - intros f s' [_ Hn] (A & B & C). unfold Consistent. cbn -[calls].
    split; [exact A | split; [ | exact C]].
    intros Hm E. apply (B Hm). now apply Hn.
  - intros s' (A & B & C). unfold Consistent.
    rewrite !calls_other by reflexivity. now repeat split.
  - intros s' (A & B & C). unfold Consistent.
    rewrite !calls_other by reflexivity. now repeat split.
  - intros d s'. apply Consistent_show.
  - intros d s'. apply Consistent_hide.
  - apply Consistent_destroy.
  - apply Consistent_afterHide.
Qed.
End ConsistencyFacts.

(** X7.  In every state that an instance reaches from its creation: while
    it is visible its popper is in the document; a popper in the document
    has a positioning handle (the one that the continuation of [hide]
    calls); and [onHidden] has been called at most as often as [onShow],
    less often while the popper is in the document. *)
Theorem reachable_states_are_consistent :
  forall (o : Instance.Options) (r : Instance.Reference)
         (ls : list Triggers.Listener) (b : Instance.Browser)
         (acts : list Instance.Action),
    let s := fold_left Instance.perform acts (Instance.newTippy o r ls b) in
    (Instance.visible (Instance.state s) = true ->
     Instance.mounted (Instance.popper s) = true)
    /\ (Instance.mounted (Instance.popper s) = true ->
        Instance.popperInstance s <> None)
    /\ (Instance.calls Instance.onHidden s
        + (if Instance.mounted (Instance.popper s) then 1 else 0)
        <= Instance.calls Instance.onShow s)%nat.
Proof.
  intros o r ls b acts.
  assert (H0 : Laws.Consistent (Instance.newTippy o r ls b)).
  { unfold Laws.Consistent. cbn. split; [discriminate | ].
    split; [discriminate | lia]. }
  revert H0. generalize (Instance.newTippy o r ls b).
  induction acts as [| a rest IH]; intros s H; cbn [fold_left]; [exact H | ].
  apply IH. now apply Consistent_perform.
Qed.

(** ** A pending timer fires when it is due *)
Section FiringFacts.
Import Instance Lifecycle Laws.

Ltac steady :=
  unfold Steady, calls;
  repeat match goal with
    | |- context [if ?c then _ else _] => destruct c eqn:?
    | |- context [match ?x with _ => _ end] => destruct x eqn:?
    end;
  cbn; rewrite ?List.filter_app, ?length_app; cbn; rewrite ?Nat.add_0_r;
  repeat split; try reflexivity; try congruence.

Lemma Steady_refl s : Steady s s.
Proof. now repeat split. Qed.

Lemma Steady_trans s1 s2 s3 : Steady s1 s2 -> Steady s2 s3 -> Steady s1 s3.
Proof.
  intros (A1 & A2 & A3 & A4 & A5 & A6) (B1 & B2 & B3 & B4 & B5 & B6).
  repeat split; congruence.
Qed.

(** The guards of [show] read the same in both. *)
Lemma steady_showable s s' : Steady s s' -> showable s' = showable s.
Proof.
  intros (_ & O & R & _).
  destruct (withAria_fields _ _ R) as (F1 & F2 & F3 & F4 & _).
  unfold showable. now rewrite O, F1, F2, F4.
Qed.

Lemma steady_clearTimeout id s : Steady s (clearTimeout id s).
Proof. destruct id; now repeat split. Qed.

Lemma steady_sched f s : Steady s (upd_sched f s).
Proof. now repeat split. Qed.

Lemma steady_runDeferred f s : Steady s (runDeferred f s).
Proof.
  destruct f; cbn [runDeferred];
    unfold _onTransitionEnd, runTransitionCallback, afterShow, afterHide,
      updatePosition; steady.
Qed.

Lemma steady_runFrame f s : Steady s (runFrame f s).
Proof.
  destruct f; cbn [runFrame]; [now repeat split | ].
  unfold updatePosition. steady.
Qed.

Lemma steady_mountCallback d s : Steady s (mountCallback d s).
Proof.
  unfold mountCallback.
  destruct (negb _); [apply Steady_refl | ].
  destruct (mountCallbackThrows s); [now repeat split | ].
  match goal with
  | |- Steady s (_onTransitionEnd d AfterShow ?x) =>
      apply (Steady_trans s x);
      [ | unfold _onTransitionEnd, runTransitionCallback, afterShow; steady]
  end.
  steady.
Qed.

Lemma steady_popperUpdate s : Steady s (popperUpdate s).
Proof.
  unfold popperUpdate.
  destruct (popperInstance s) as [pi |]; [ | apply Steady_refl].
  destruct (pi_destroyed pi); [apply Steady_refl | ].
  destruct (pendingCallbacks pi); [apply Steady_refl | ].
  destruct (mountCallbackThrows s); [apply steady_mountCallback | ].
  eapply Steady_trans; [ | apply steady_mountCallback]. now repeat split.
Qed.

Lemma steady_transitionEnd s : Steady s (transitionEnd s).
Proof.
  unfold transitionEnd, runTransitionCallback, afterShow, afterHide. steady.
Qed.

Lemma steady_fold_runFrame l s :
  Steady s (fold_left (fun s f => runFrame f s) l s).
Proof.
  revert s. induction l as [| f l IH]; intros s; cbn [fold_left];
    [apply Steady_refl | ].
  eapply Steady_trans; [apply steady_runFrame | apply IH].
Qed.

Lemma steady_animationFrame s : Steady s (animationFrame s).
Proof.
  unfold animationFrame.
  eapply Steady_trans; [ | apply steady_fold_runFrame]. now repeat split.
Qed.

(** *** The timers after a callback, a frame, a fired timer *)

Lemma fire_timers u s :
  timers (sched (fire u s))
  = if existsb (fun t => (timerId t =? timerId u)%nat) (timers (sched s))
    then List.filter (fun t => negb (timerId t =? timerId u)%nat)
           (timers (sched s))
    else timers (sched s).
Proof.
  unfold fire. destruct (existsb _ _); [ | reflexivity].
  destruct (runCallback_same (callback u) (clearTimeout (Some (timerId u)) s))
    as (E & _). rewrite E. reflexivity.
Qed.

Lemma fire_subset u s t :
  In t (timers (sched (fire u s))) -> In t (timers (sched s)).
Proof.
  rewrite fire_timers. destruct (existsb _ _); [ | auto].
  intros H. now apply List.filter_In in H.
Qed.

Lemma fire_stays u s t :
  In t (timers (sched s)) -> timerId t <> timerId u ->
  In t (timers (sched (fire u s))).
Proof.
  intros Hin Hne. rewrite fire_timers. destruct (existsb _ _); [ | exact Hin].
  apply List.filter_In. split; [exact Hin | ].
  apply negb_true_iff. now apply Nat.eqb_neq.
Qed.

Lemma fire_absent u s :
  (forall t, In t (timers (sched s)) -> timerId t <> timerId u) ->
  fire u s = s.
Proof.
  intros H. unfold fire.
  destruct (existsb _ _) eqn:E; [ | reflexivity].
  apply existsb_exists in E. destruct E as (t & Hin & Ht).
  apply Nat.eqb_eq in Ht. now elim (H t Hin).
Qed.

Lemma fire_present u s :
  In u (timers (sched s)) ->
  fire u s = runCallback (callback u) (clearTimeout (Some (timerId u)) s).
Proof.
  intros H. unfold fire.
  destruct (existsb _ _) eqn:E; [reflexivity | ].
  assert (E' : existsb (fun t => (timerId t =? timerId u)%nat)
                 (timers (sched s)) = true).
  { apply existsb_exists. exists u. split; [exact H | apply Nat.eqb_refl]. }
  congruence.
Qed.

Lemma steady_fire_deferred u s : isDeferred u = true -> Steady s (fire u s).
Proof.
  intros Hu. unfold fire. destruct (existsb _ _); [ | apply Steady_refl].
  unfold isDeferred in Hu. destruct (callback u); try discriminate.
  cbn [runCallback].
  eapply Steady_trans; [apply steady_clearTimeout | apply steady_runDeferred].
Qed.

Lemma runFrame_timers f s t :
  (In t (timers (sched s)) -> In t (timers (sched (runFrame f s))))
  /\ (In t (timers (sched (runFrame f s))) ->
      In t (timers (sched s)) \/ isDeferred t = true).
Proof.
  destruct f; cbn [runFrame].
  - unfold setTimeout. cbn. split.
    + intros H. apply in_or_app. now left.
    + intros H. apply in_app_or in H. destruct H as [H | [<- | []]];
        [now left | now right].
  - unfold updatePosition, requestAnimationFrame.
    destruct (visible (state s)); cbn; split; auto.
Qed.

Lemma animationFrame_timers s t :
  (In t (timers (sched s)) -> In t (timers (sched (animationFrame s))))
  /\ (In t (timers (sched (animationFrame s))) ->
      In t (timers (sched s)) \/ isDeferred t = true).
Proof.
  unfold animationFrame.
  set (s1 := upd_sched _ s).
  change (timers (sched s)) with (timers (sched s1)).
  generalize (frames (sched s)). intros l. generalize s1. clear.
  induction l as [| f l IH]; intros s; cbn [fold_left]; [split; auto | ].
  destruct (IH (runFrame f s)) as [I1 I2].
  destruct (runFrame_timers f s t) as [R1 R2]. split.
  - intros H. apply I1, R1, H.
  - intros H. destruct (I2 H) as [H' | H']; [ | now right]. now apply R2.
Qed.

(** *** Sorting keeps the timers *)

Lemma insertByDue_In t u l : t = u \/ In t l -> In t (insertByDue u l).
Proof.
  induction l as [| v rest IH]; cbn [insertByDue].
  - intros [E | []]. now left.
  - destruct (due u <? due v)%nat.
    + intros [E | H]; [now left | now right].
    + intros [E | [E | H]]; [right; apply IH; now left | now left | ].
      right. apply IH. now right.
Qed.

Lemma sortByDue_In t l : In t l -> In t (sortByDue l).
Proof.
  unfold sortByDue.
  assert (G : forall acc,
             In t acc \/ In t l ->
             In t (fold_left (fun acc t => insertByDue t acc) l acc)).
  { induction l as [| u rest IH]; cbn; intros acc H.
    - destruct H as [H | []]. exact H.
    - apply IH. destruct H as [H | [E | H]].
      + left. apply insertByDue_In. now right.
      + left. apply insertByDue_In. now left.
      + now right. }
  intros H. apply G. now right.
Qed.

(** *** Timers with distinct ids *)

Lemma same_id_same_timer (l : list Timer) (a b : Timer) :
  List.NoDup (map timerId l) -> In a l -> In b l ->
  timerId a = timerId b -> a = b.
Proof.
  induction l as [| x l IH]; cbn; [intros _ [] | ].
  intros Hnd Ha Hb E. apply List.NoDup_cons_iff in Hnd.
  destruct Hnd as [Hx Hl].
  destruct Ha as [-> | Ha], Hb as [-> | Hb]; [reflexivity | | | now apply IH].
  - exfalso. apply Hx. rewrite E. now apply in_map.
  - exfalso. apply Hx. rewrite <- E. now apply in_map.
Qed.

Lemma waiting_others T s : Waiting T s -> Others T (timers (sched s)).
Proof.
  intros ((W1 & _) & HT & Hall) u Hu.
  destruct (Nat.eq_dec (timerId u) (timerId T)) as [E | E].
  - left. exact (same_id_same_timer _ _ _ W1 Hu HT E).
  - destruct (Hall u Hu) as [-> | Hd]; [now left | right; now split].
Qed.

Lemma waiting_fire T u s :
  Waiting T s -> isDeferred u = true -> timerId u <> timerId T ->
  Waiting T (fire u s).
Proof.
  intros (W & HT & Hall) Hu Hne. split; [now apply WellFormed_fire | ].
  split; [apply fire_stays; [exact HT | congruence] | ].
  intros t Ht. apply Hall. now apply fire_subset in Ht.
Qed.

(** Firing timers other than [T]. *)
Lemma fold_fire_waiting T s0 l :
  forall s,
    Steady s0 s -> Waiting T s ->
    (forall u, In u l -> isDeferred u = true /\ timerId u <> timerId T) ->
    Steady s0 (fold_left (fun s t => fire t s) l s)
    /\ Waiting T (fold_left (fun s t => fire t s) l s).
Proof.
  induction l as [| u l IH]; intros s St W Hl; cbn [fold_left];
    [now split | ].
  destruct (Hl u (or_introl eq_refl)) as [Hu Hne].
  apply IH.
  - eapply Steady_trans; [exact St | now apply steady_fire_deferred].
  - now apply waiting_fire.
  - intros v Hv. apply Hl. now right.
Qed.

Lemma fold_fire_fired T s1 l :
  forall s,
    Fired T s1 s -> Others T l ->
    Fired T s1 (fold_left (fun s t => fire t s) l s).
Proof.
  induction l as [| u l IH]; intros s F Hl; cbn [fold_left]; [exact F | ].
  apply IH; [ | intros v Hv; apply Hl; now right].
  destruct F as [St Hall].
  destruct (Hl u (or_introl eq_refl)) as [-> | [Hu Hne]].
  - rewrite fire_absent; [now split | ]. intros t Ht. now apply Hall.
  - split.
    + eapply Steady_trans; [exact St | now apply steady_fire_deferred].
    + intros t Ht. apply Hall. now apply fire_subset in Ht.
Qed.

Lemma fold_fire_due T s0 l :
  forall s,
    Steady s0 s -> Waiting T s -> Others T l -> In T l ->
    exists s1, Steady s0 s1
               /\ Fired T s1 (fold_left (fun s t => fire t s) l s).
Proof.
  induction l as [| u l IH]; intros s St W Hl HT; [destruct HT | ].
  cbn [fold_left].
  assert (Hl' : Others T l) by (intros v Hv; apply Hl; now right).
  assert (Fire : forall s', Steady s0 s' -> Waiting T s' ->
                   exists s1, Steady s0 s1
                     /\ Fired T s1
                          (fold_left (fun s t => fire t s) l (fire T s'))).
  { intros s' St' W'. exists s'. split; [exact St' | ].
    apply fold_fire_fired; [ | exact Hl'].
    pose proof (waiting_others T s' W') as Ho.
    destruct W' as (Wf & HT' & Hall).
    rewrite (fire_present T s' HT'). split; [apply Steady_refl | ].
    intros t Ht.
    destruct (runCallback_same (callback T)
                (clearTimeout (Some (timerId T)) s')) as (E & _).
    rewrite E in Ht. cbn in Ht. apply List.filter_In in Ht.
    destruct Ht as [Ht Hid]. apply negb_true_iff, Nat.eqb_neq in Hid.
    destruct (Ho t Ht) as [-> | [Hd Hne]]; [now elim Hid | now split]. }
  destruct (Hl u (or_introl eq_refl)) as [-> | [Hu Hne]].
  - now apply Fire.
  - destruct HT as [-> | HT]; [now apply Fire | ].
    apply IH; [ | now apply waiting_fire | exact Hl' | exact HT].
    eapply Steady_trans; [exact St | now apply steady_fire_deferred].
Qed.

(** *** One step of the page *)

Lemma waiting_sched T f s :
  timers (f (sched s)) = timers (sched s) ->
  nextTimer (f (sched s)) = nextTimer (sched s) ->
  Waiting T s -> Waiting T (upd_sched f s).
Proof.
  intros E1 E2 ((W1 & W2 & W3 & W4) & HT & Hall).
  unfold Waiting, WellFormed. cbn. rewrite E1, E2. now repeat split.
Qed.

Lemma due_list s u :
  In u (sortByDue (List.filter (fun t => (due t <=? S (now (sched s)))%nat)
                     (timers (sched s))))
  <-> In u (timers (sched s)) /\ (due u <= S (now (sched s)))%nat.
Proof.
  split.
  - intros H. apply In_sortByDue, List.filter_In in H.
    destruct H as [H1 H2]. apply Nat.leb_le in H2. now split.
  - intros [H1 H2]. apply sortByDue_In, List.filter_In.
    split; [exact H1 | now apply Nat.leb_le].
Qed.

Lemma tick_unfold s :
  tick s
  = fold_left (fun s t => fire t s)
      (sortByDue (List.filter (fun t => (due t <=? S (now (sched s)))%nat)
                    (timers (sched s))))
      (upd_sched (fun sc => {| now := S (now sc); nextTimer := nextTimer sc;
                               timers := timers sc; frames := frames sc |}) s).
Proof. reflexivity. Qed.

Lemma waiting_tick_early T s0 s :
  Steady s0 s -> Waiting T s -> (S (now (sched s)) < due T)%nat ->
  Steady s0 (tick s) /\ Waiting T (tick s).
Proof.
  intros St W Hearly. rewrite tick_unfold.
  apply fold_fire_waiting.
  - eapply Steady_trans; [exact St | apply steady_sched].
  - now apply waiting_sched.
  - intros u Hu. apply due_list in Hu. destruct Hu as [Hin Hdue].
    destruct (waiting_others T s W u Hin) as [-> | H]; [lia | exact H].
Qed.

Lemma waiting_tick_due T s0 s :
  Steady s0 s -> Waiting T s -> (due T <= S (now (sched s)))%nat ->
  exists s1, Steady s0 s1 /\ Fired T s1 (tick s).
Proof.
  intros St W Hdue. rewrite tick_unfold.
  apply fold_fire_due.
  - eapply Steady_trans; [exact St | apply steady_sched].
  - now apply waiting_sched.
  - intros u Hu. apply due_list in Hu. destruct Hu as [Hin _].
    exact (waiting_others T s W u Hin).
  - apply due_list. split; [ | exact Hdue]. now destruct W as (_ & HT & _).
Qed.

Lemma waiting_quiet_step T e s :
  isTick e = false -> Waiting T s ->
  Steady s (envStep e s) /\ Waiting T (envStep e s).
Proof.
  intros He (W & HT & Hall). destruct e; [discriminate | | | ];
    cbn [envStep].
  - split; [apply steady_animationFrame | ].
    split; [now apply WellFormed_animationFrame | ].
    split; [now apply animationFrame_timers | ].
    intros t Ht. apply animationFrame_timers in Ht.
    destruct Ht as [Ht | Ht]; [now apply Hall | now right].
  - split; [apply steady_popperUpdate | ].
    destruct (popperUpdate_same s) as (E & _).
    split; [eapply WellFormed_same; [exact W | apply popperUpdate_same] | ].
    rewrite E. now split.
  - split; [apply steady_transitionEnd | ].
    destruct (transitionEnd_same s) as (E & _).
    split; [eapply WellFormed_same; [exact W | apply transitionEnd_same] | ].
    rewrite E. now split.
Qed.

Lemma settled_step e s :
  Settled s -> Steady s (envStep e s) /\ Settled (envStep e s).
Proof.
  intros H. destruct e; cbn [envStep].
  - rewrite tick_unfold.
    set (s1 := upd_sched _ s).
    assert (H1 : Settled s1) by exact H.
    assert (St : Steady s s1) by apply steady_sched.
    assert (Hl : forall u,
               In u (sortByDue
                       (List.filter
                          (fun t => (due t <=? S (now (sched s)))%nat)
                          (timers (sched s)))) -> isDeferred u = true).
    { intros u Hu. apply due_list in Hu. now apply H. }
    revert Hl H1 St. generalize s1.
    generalize (sortByDue
                  (List.filter (fun t => (due t <=? S (now (sched s)))%nat)
                     (timers (sched s)))).
    intros l. induction l as [| u l IH]; intros s' Hl H' St;
      cbn [fold_left]; [now split | ].
    apply IH.
    + intros v Hv. apply Hl. now right.
    + intros t Ht. apply H'. now apply fire_subset in Ht.
    + eapply Steady_trans; [exact St | ].
      apply steady_fire_deferred. apply Hl. now left.
  - split; [apply steady_animationFrame | ].
    intros t Ht. apply animationFrame_timers in Ht.
    destruct Ht as [Ht | Ht]; [now apply H | exact Ht].
  - split; [apply steady_popperUpdate | ].
    intros t Ht. destruct (popperUpdate_same s) as (E & _).
    rewrite E in Ht. now apply H.
  - split; [apply steady_transitionEnd | ].
    intros t Ht. destruct (transitionEnd_same s) as (E & _).
    rewrite E in Ht. now apply H.
Qed.

Lemma settled_run steps s :
  Settled s -> Steady s (run steps s) /\ Settled (run steps s).
Proof.
  unfold run. revert s.
  induction steps as [| e rest IH]; intros s H; cbn [fold_left];
    [split; [apply Steady_refl | exact H] | ].
  destruct (settled_step e s H) as [St H'].
  destruct (IH _ H') as [St' H''].
  split; [eapply Steady_trans; eassumption | exact H''].
Qed.

Lemma now_envStep e s :
  now (sched (envStep e s))
  = (now (sched s) + (if isTick e then 1 else 0))%nat.
Proof. now destruct (envStep_spec e s) as (_ & H & _). Qed.

(** A pending timer [T] that is the only one to call [show] or [hide]:
    until it is due nothing that the guards of [show] and [hide] read
    changes; from the millisecond on in which it is due, its callback has
    run, once, in a state [s1] in which nothing of that had changed, and
    nothing has changed since. *)
Lemma sole_timer_fires T s0 steps :
  forall s,
    Steady s0 s -> Waiting T s -> (now (sched s) < due T)%nat ->
    ((elapsed steps < due T - now (sched s))%nat ->
     Steady s0 (run steps s))
    /\ ((due T - now (sched s) <= elapsed steps)%nat ->
        exists s1,
          Steady s0 s1
          /\ Steady (runCallback (callback T)
                       (clearTimeout (Some (timerId T)) s1))
               (run steps s)).
Proof.
  induction steps as [| e rest IH]; intros s St W Hnow.
  - unfold elapsed. cbn. split; [intros _; exact St | lia].
  - change (run (e :: rest) s) with (run rest (envStep e s)).
    rewrite elapsed_cons.
    destruct (isTick e) eqn:He.
    + destruct e; try discriminate. cbn [envStep].
      destruct (Nat.lt_ge_cases (S (now (sched s))) (due T)) as [Hearly | Hdue].
      * destruct (waiting_tick_early T s0 s St W Hearly) as [St' W'].
        pose proof (now_envStep Tick s) as N. cbn [envStep isTick] in N.
        destruct (IH (tick s) St' W' ltac:(lia)) as [I1 I2].
        split; intros H; [apply I1 | apply I2]; lia.
      * split; [lia | ]. intros _.
        destruct (waiting_tick_due T s0 s St W Hdue) as (s1 & St1 & F1 & F2).
        exists s1. split; [exact St1 | ].
        assert (Hs : Settled (tick s)) by (intros t Ht; now apply F2).
        destruct (settled_run rest (tick s) Hs) as [St2 _].
        eapply Steady_trans; eassumption.
    + destruct (waiting_quiet_step T e s He W) as [St' W'].
      pose proof (now_envStep e s) as N. rewrite He in N.
      destruct (IH (envStep e s) (Steady_trans _ _ _ St St') W'
                  ltac:(lia)) as [I1 I2].
      rewrite N, Nat.add_0_r in I1, I2.
      split; intros H; [apply I1 | apply I2]; lia.
Qed.
End FiringFacts.

Section DelayFacts.
Import Instance Lifecycle Laws.

Lemma not_show_not_hide_deferred t :
  callback t <> CbShow /\ callback t <> CbLeave -> isDeferred t = true.
Proof.
  unfold isDeferred. destruct (callback t); intros [A B]; congruence.
Qed.

Lemma steady_clearDelayTimeouts s : Steady s (_clearDelayTimeouts s).
Proof.
  unfold _clearDelayTimeouts.
  eapply Steady_trans; apply steady_clearTimeout.
Qed.

(** What [show] does when none of its guards stops it. *)
Lemma show_effect d s :
  destroyed (state s) = false -> enabled (state s) = true ->
  showable s = true ->
  state (show d s)
  = {| destroyed := false; visible := true; enabled := true |}
  /\ mounted (popper (show d s)) = true
  /\ calls onShow (show d s) = (calls onShow s + 1)%nat
  /\ calls onHide (show d s) = calls onHide s.
Proof.
  intros Hd He Hs. unfold showable in Hs. apply andb_prop in Hs.
  destruct Hs as [H1 H2]. apply negb_true_iff in H1, H2.
  unfold show. rewrite Hd, He, H1, H2. cbn [negb orb]. cbv zeta.
  match goal with |- context [_mount ?d' ?x] =>
    destruct (mount_spec d' x) as (M1 & M2 & M3);
    destruct (mount_untouched d' x) as (_ & _ & M4)
  end.
  rewrite M4. unfold calls. rewrite M1, M3. cbn. rewrite Hd, He.
  rewrite !List.filter_app, !length_app. cbn. now repeat split.
Qed.


Lemma enter_waiting s event d :
  WellFormed s ->
  visible (state s) = false ->
  wait (options s) = None ->
  getDuration (delay (options s)) 0 = Some d -> d <> 0 ->
  let T := {| timerId := nextTimer (sched s);
              due := (now (sched s) + Z.to_nat d)%nat;
              callback := CbShow |} in
  Steady s (_enter event s)
  /\ Waiting T (_enter event s)
  /\ now (sched (_enter event s)) = now (sched s).
Proof.
  intros W Hv Hw Hd Hnz T.
  pose proof (WellFormed_enter event s W) as We.
  pose proof (clearDelayTimeouts_spec s)
    as (E1 & E2 & E3 & E4 & E5 & E6 & E7 & E8).
  destruct (clearDelayTimeouts_wf s W) as [_ Hno].
  pose proof (steady_clearDelayTimeouts s) as St.
  revert We. unfold _enter.
  set (c := _clearDelayTimeouts s) in *.
  rewrite E1, Hv.
  cbn [options set_isPreparingToShow upd_priv].
  rewrite E3, Hw.
  set (c1 := if followCursor (options s) && _ then _ else _).
  assert (H1 : Steady c c1 /\ sched c1 = sched c).
  { subst c1. destruct (_ && _); now repeat split. }
  destruct H1 as [St1 Hsc].
  assert (Ho : options c1 = options s).
  { destruct St1 as (_ & O & _). now rewrite O. }
  rewrite Ho, Hd. cbn [truthyNum].
  destruct (Z.eqb_spec d 0) as [E | _]; [now elim Hnz | ]. cbn [negb].
  unfold setTimeout. intros We.
  split; [ | split].
  - eapply Steady_trans; [exact St | ].
    eapply Steady_trans; [exact St1 | ]. now repeat split.
  - split; [exact We | ]. cbn. rewrite Hsc, E6, E7. split.
    + apply in_or_app. right. now left.
    + intros t Ht. apply in_app_or in Ht.
      destruct Ht as [Ht | [<- | []]]; [ | now left].
      right. now apply not_show_not_hide_deferred, Hno.
  - cbn. now rewrite Hsc.
Qed.

End DelayFacts.

(** X8.  A delayed show happens, and happens on time.  For a hidden,
    enabled instance that is not destroyed, has no [wait] hook and a
    non-zero show delay [d], whose reference is in the document (and,
    with [dynamicTitle], has a stored title): after [_enter], whatever
    the page does, the instance stays hidden and [onShow] is not called
    while fewer than [d] milliseconds have passed; and once [d]
    milliseconds have passed it is visible and [onShow] has been called
    exactly once. *)
Theorem delayed_show_fires :
  forall (s : Instance.Tippy) (event : Instance.Event) (d : Z)
         (steps : list Instance.EnvStep),
    Lifecycle.WellFormed s ->
    Instance.visible (Instance.state s) = false ->
    Instance.destroyed (Instance.state s) = false ->
    Instance.enabled (Instance.state s) = true ->
    Lifecycle.showable s = true ->
    Instance.wait (Instance.options s) = None ->
    Instance.getDuration (Instance.delay (Instance.options s)) 0 = Some d ->
    0 < d ->
    let s' := Instance.run steps (Instance._enter event s) in
    ((Instance.elapsed steps < Z.to_nat d)%nat ->
     Instance.visible (Instance.state s') = false
     /\ Instance.calls Instance.onShow s' = Instance.calls Instance.onShow s)
    /\ ((Z.to_nat d <= Instance.elapsed steps)%nat ->
        Instance.visible (Instance.state s') = true
        /\ Instance.calls Instance.onShow s'
           = (Instance.calls Instance.onShow s + 1)%nat).
Proof.
  intros s event d steps W Hv Hd He Hs Hw Hdel Hpos s'.
  destruct (enter_waiting s event d W Hv Hw Hdel ltac:(lia))
    as (St & Wt & Hnow).
  cbv zeta in Wt.
  match type of Wt with Laws.Waiting ?T' _ => set (T := T') in * end.
  destruct (sole_timer_fires T s steps (Instance._enter event s) St Wt)
    as [Early Late].
  { rewrite Hnow. subst T. cbn. lia. }
  fold s' in Early, Late. rewrite Hnow in Early, Late.
  subst T. cbn [Instance.due Instance.callback Instance.timerId] in *.
  split; intros H.
  - destruct Early as (A & _ & _ & _ & B & _); [lia | ].
    rewrite A. now split.
  - destruct Late as (s1 & St1 & St2); [lia | ].
    cbn [Instance.runCallback] in St2.
    set (c := Instance.clearTimeout _ s1) in St2.
    assert (Stc : Laws.Steady s c)
      by (eapply Steady_trans; [exact St1 | apply steady_clearTimeout]).
    pose proof (steady_showable _ _ Stc) as Hsh.
    destruct Stc as (C1 & C2 & C3 & C4 & C5 & C6).
    destruct (show_effect None c) as (S1 & S2 & S3 & S4).
    { now rewrite C1. }
    { now rewrite C1. }
    { now rewrite Hsh. }
    destruct St2 as (A & _ & _ & _ & B & _).
    rewrite A, S1, B, S3, C5. now split.
Qed.

Lemma delayed_show_fires_witness :
  let s := Instance.newTippy
             (Instance.optionsWith (Instance.Arr [100; 50]) None)
             Instance.attachedReference [] Instance.desktopBrowser in
  let event := {| Instance.ev_type := "mouseenter" |} in
  let steps := Instance.AnimationFrame :: repeat Instance.Tick 100
               ++ [Instance.PopperUpdate] in
  Instance.visible
    (Instance.state (Instance.run steps (Instance._enter event s))) = true
  /\ Instance.calls Instance.onShow
       (Instance.run steps (Instance._enter event s)) = 1%nat.
Proof.
  intros s event steps.
  pose proof (delayed_show_fires s event 100 steps
                (WellFormed_new _ _ _ _)
                ltac:(reflexivity) ltac:(reflexivity) ltac:(reflexivity)
                ltac:(reflexivity) ltac:(reflexivity) ltac:(reflexivity)
                ltac:(lia)) as H.
  cbv zeta in H. destruct H as [_ H].
  apply H. vm_compute. lia.
Defined.



(** ** Invariants of the page's steps while no timer calls [show] or [hide] *)
Section SettledInvariant.
Import Instance Lifecycle Laws.

Variable I : Tippy -> Prop.
Hypothesis I_sched : forall f s, I s -> I (upd_sched f s).
Hypothesis I_priv : forall f s, I s -> I (upd_priv f s).
Hypothesis I_browser : forall f s, I s -> I (upd_browser f s).
Hypothesis I_handle :
  forall f s,
    (popperInstance s = None <-> f (popperInstance s) = None) ->
    I s -> I (upd_popperInstance f s).
Hypothesis I_dataState : forall b s, I s -> I (set_dataState b s).
Hypothesis I_aria : forall b s, I s -> I (set_ariaDescribedby b s).
Hypothesis I_throw : forall e s, I s -> I (throw e s).
Hypothesis I_shown : forall s, I s -> I (call onShown s).
Hypothesis I_afterHide : forall s, I s -> I (afterHide s).

Lemma settled_inv_fire u s : isDeferred u = true -> I s -> I (fire u s).
Proof.
  intros Hu H. unfold fire. destruct (existsb _ _); [ | exact H].
  unfold isDeferred in Hu. destruct (callback u); try discriminate.
  cbn [runCallback]. apply inv_runDeferred; auto.
  apply inv_clearTimeout; auto.
Qed.

Lemma settled_inv_step e s : Settled s -> I s -> I (envStep e s).
Proof.
  intros Hs H. destruct e; cbn [envStep].
  - rewrite tick_unfold.
    set (s1 := upd_sched _ s).
    assert (H1 : I s1) by (subst s1; auto).
    assert (Hl : forall u,
               In u (sortByDue
                       (List.filter
                          (fun t => (due t <=? S (now (sched s)))%nat)
                          (timers (sched s)))) -> isDeferred u = true).
    { intros u Hu. apply due_list in Hu. now apply Hs. }
    revert Hl H1. generalize s1.
    generalize (sortByDue
                  (List.filter (fun t => (due t <=? S (now (sched s)))%nat)
                     (timers (sched s)))).
    intros l. induction l as [| u l IH]; intros s' Hl H';
      cbn [fold_left]; [exact H' | ].
    apply IH; [intros v Hv; apply Hl; now right | ].
    apply settled_inv_fire; [apply Hl; now left | exact H'].
  - apply inv_animationFrame; auto.
  - apply inv_popperUpdate; auto.
  - apply inv_transitionEnd; auto.
Qed.

Lemma settled_inv_run steps s : Settled s -> I s -> I (run steps s).
Proof.
  unfold run. revert s.
  induction steps as [| e rest IH]; intros s Hs H; cbn [fold_left];
    [exact H | ].
  apply IH; [now apply settled_step | now apply settled_inv_step].
Qed.
End SettledInvariant.

(** ** [hide] runs to its end *)
Section HidingFacts.
Import Instance Lifecycle Laws.







(** *** The frames *)








(** *** The timer *)








(** *** The listener *)




(** *** The stages *)

Lemma stage_weaken k r s : Stage (S k) r s -> Stage k r s.
Proof.
  destruct k as [| [| [| k]]]; cbn; tauto.
Qed.







End HidingFacts.



(** ** The side of a placement *)
Section PlacementFacts.
Import JS Geometry Text.

Lemma append_cons c (s t : string) :
  String c s +:+ t = String c (s +:+ t).
Proof. reflexivity. Qed.

Lemma beforeChar_side side rest :
  noDash side = true ->
  beforeChar "-"%char (side +:+ String "-"%char rest) = side.
Proof.
  induction side as [| c side IH]; [reflexivity | ].
  unfold noDash. rewrite ?append_cons. cbn [allChars beforeChar].
  intros H. apply andb_prop in H. destruct H as [Hc Hs].
  apply negb_true_iff in Hc. rewrite Hc. now rewrite IH.
Qed.

Lemma beforeChar_noDash side :
  noDash side = true -> beforeChar "-"%char side = side.
Proof.
  induction side as [| c side IH]; [reflexivity | ].
  unfold noDash. rewrite ?append_cons. cbn [allChars beforeChar].
  intros H. apply andb_prop in H. destruct H as [Hc Hs].
  apply negb_true_iff in Hc. rewrite Hc. now rewrite IH.
Qed.

Lemma fromLineTerminator_oneLine s :
  oneLine s = true -> fromLineTerminator s = EmptyString.
Proof.
  induction s as [| c s IH]; [reflexivity | ].
  unfold oneLine. cbn [allChars fromLineTerminator].
  intros H. apply andb_prop in H. destruct H as [Hc Hs].
  apply negb_true_iff in Hc. rewrite Hc. now apply IH.
Qed.

Lemma replaceDashRest_noDash side :
  noDash side = true -> replaceDashRest side = side.
Proof.
  induction side as [| c side IH]; [reflexivity | ].
  unfold noDash. cbn [allChars replaceDashRest].
  intros H. apply andb_prop in H. destruct H as [Hc Hs].
  apply negb_true_iff in Hc. rewrite Hc. now rewrite IH.
Qed.

Lemma replaceDashRest_side side rest :
  noDash side = true ->
  replaceDashRest (side +:+ String "-"%char rest)
  = side +:+ replaceDashRest (String "-"%char rest).
Proof.
  induction side as [| c side IH]; [reflexivity | ].
  unfold noDash. cbn [allChars].
  intros H. apply andb_prop in H. destruct H as [Hc Hs].
  apply negb_true_iff in Hc.
  rewrite append_cons.
  cbn [replaceDashRest]. rewrite Hc. rewrite IH by exact Hs. reflexivity.
Qed.

Lemma append_empty_r (s : string) : s +:+ "" = s.
Proof.
  induction s as [| c s IH]; [reflexivity | ].
  now rewrite append_cons, IH.
Qed.
End PlacementFacts.

(** X11.  Both revisions of [getPopperPlacement] give the side of a
    placement.  For a side without a dash, and a variation that is not
    empty and has no line break: of ["side-variation"] and of ["side"]
    alone both give ["side"].  They differ when nothing follows the dash:
    the regular expression of [Framework.js] then removes nothing, while
    the [split] of [utils.js] still gives the side. *)
Theorem placement_side_in_both_revisions :
  forall (side variation : string),
    Text.noDash side = true ->
    variation <> EmptyString ->
    Text.oneLine variation = true ->
    Geometry.getPopperPlacement (side +:+ "-" +:+ variation) = side
    /\ Geometry.getPopperPlacement_utils (side +:+ "-" +:+ variation) = side
    /\ Geometry.getPopperPlacement side = side
    /\ Geometry.getPopperPlacement_utils side = side
    /\ Geometry.getPopperPlacement (side +:+ "-") = side +:+ "-"
    /\ Geometry.getPopperPlacement_utils (side +:+ "-") = side.
Proof.
  intros side variation Hs Hne Hv.
  unfold Geometry.getPopperPlacement, Geometry.getPopperPlacement_utils.
  change ("-" +:+ variation) with (String "-"%char variation).
  change (side +:+ "-") with (side +:+ String "-"%char EmptyString).
  rewrite (replaceDashRest_side side variation Hs),
    (replaceDashRest_side side EmptyString Hs),
    (beforeChar_side side variation Hs),
    (beforeChar_side side EmptyString Hs).
  rewrite (replaceDashRest_noDash side Hs), (beforeChar_noDash side Hs).
  repeat split.
  destruct variation as [| d rest]; [now elim Hne | ].
  cbn [JS.replaceDashRest]. rewrite Ascii.eqb_refl.
  pose proof Hv as Hv'. unfold Text.oneLine in Hv'.
  cbn [Text.allChars] in Hv'. apply andb_prop in Hv'.
  destruct Hv' as [Hd _]. apply negb_true_iff in Hd. rewrite Hd.
  rewrite (fromLineTerminator_oneLine _ Hv). apply append_empty_r.
Qed.

Lemma placement_side_in_both_revisions_witness :
  Geometry.getPopperPlacement "bottom-start" = "bottom"%string
  /\ Geometry.getPopperPlacement_utils "bottom-start" = "bottom"%string.
Proof.
  pose proof (placement_side_in_both_revisions "bottom" "start"
                ltac:(reflexivity) ltac:(discriminate) ltac:(reflexivity))
    as (H1 & H2 & _).
  split; [exact H1 | exact H2].
Defined.

(** ** [utils.js]: the listeners that [addEventListeners] returns *)
Section RegistrationFacts.
Import Triggers Wiring.

Lemma Extends_refl st : Extends st st.
Proof. split; auto. Qed.

Lemma Extends_trans a b c : Extends a b -> Extends b c -> Extends a c.
Proof. intros [A1 A2] [B1 B2]. split; auto. Qed.

Lemma Extends_on e h st : Extends st (on e h st).
Proof.
  split.
  - unfold Recorded. intros registered H. cbn. rewrite H.
    now rewrite app_assoc.
  - intros l H. cbn. apply in_or_app. now left.
Qed.

Lemma Extends_directSwitch isIE e st : Extends st (directSwitch isIE e st).
Proof.
  unfold directSwitch.
  destruct (String.eqb e "mouseenter"); [ | destruct (String.eqb e "focus")];
    repeat first [apply Extends_refl | apply Extends_on
                 | eapply Extends_trans; [ | apply Extends_on]].
Qed.

Lemma Extends_delegateSwitch e st : Extends st (delegateSwitch e st).
Proof.
  unfold delegateSwitch.
  destruct (String.eqb e "mouseenter");
    [ | destruct (String.eqb e "focus"); [ | destruct (String.eqb e "click")]];
    repeat first [apply Extends_refl | apply Extends_on
                 | eapply Extends_trans; [ | apply Extends_on]].
Qed.

Lemma step_recorded isIE hasTarget registered acc st e :
  Recorded registered st ->
  (forall l, In l acc <-> In l (ws_listeners st)) ->
  let r := addEventListeners_step isIE hasTarget (acc, st) e in
  Recorded registered (snd r)
  /\ (forall l, In l (fst r) <-> In l (ws_listeners (snd r))).
Proof.
  intros Hr Hacc. unfold addEventListeners_step.
  destruct (String.eqb e "manual"); [now split | ].
  set (st' := if negb hasTarget then _ else _).
  assert (E : Extends st st').
  { subst st'. destruct (negb hasTarget).
    - eapply Extends_trans; [apply Extends_on | apply Extends_directSwitch].
    - apply Extends_delegateSwitch. }
  destruct E as [E1 E2]. cbn [fst snd]. split; [now apply E1 | ].
  intros l. split.
  - intros H. apply in_app_or in H. destruct H as [H | H]; [ | exact H].
    apply E2. now apply Hacc.
  - intros H. apply in_or_app. now right.
Qed.
End RegistrationFacts.

(** X12.  [addEventListeners] of [utils.js] returns what it registered.
    Whatever the trigger configuration and the mode, a listener is
    registered on the reference afterwards exactly if it was registered
    before or is in the returned array (which may hold it several times);
    more precisely, the registrations are the earlier ones followed by
    the new ones in the order of their registration, and the new ones
    are the members of the returned array. *)
Theorem addEventListeners_returns_what_it_registers :
  forall (isIE : bool) (registered : list Triggers.ListenerU)
         (trigger : string) (hasTarget : bool),
    let r := Triggers.addEventListeners isIE registered trigger hasTarget in
    (forall l, In l (snd r) <-> In l registered \/ In l (fst r))
    /\ exists added, snd r = registered ++ added
                     /\ forall l, In l added <-> In l (fst r).
Proof.
  intros isIE registered trigger hasTarget. unfold Triggers.addEventListeners.
  cbv zeta. cbn [fst snd].
  set (start := ([], {| Triggers.ws_registered := registered;
                        Triggers.ws_listeners := [] |})).
  assert (G : forall names acc_st,
             Wiring.Recorded registered (snd acc_st) ->
             (forall l, In l (fst acc_st)
                        <-> In l (Triggers.ws_listeners (snd acc_st))) ->
             let r := fold_left (Triggers.addEventListeners_step isIE hasTarget)
                        names acc_st in
             Wiring.Recorded registered (snd r)
             /\ (forall l, In l (fst r)
                           <-> In l (Triggers.ws_listeners (snd r)))).
  { induction names as [| e names IH]; intros [acc st] Hr Hacc;
      cbn [fold_left]; [now split | ].
    destruct (step_recorded isIE hasTarget registered acc st e Hr Hacc)
      as [Hr' Hacc'].
    cbv zeta in Hr', Hacc'.
    destruct (Triggers.addEventListeners_step isIE hasTarget (acc, st) e)
      as [acc' st'] eqn:E.
    now apply IH. }
  destruct (G (JS.split " "%char (JS.trim trigger)) start) as [Hr Hacc].
  { unfold Wiring.Recorded. cbn. now rewrite app_nil_r. }
  { cbn. tauto. }
  cbv zeta in Hr, Hacc. unfold Wiring.Recorded in Hr.
  split.
  - intros l. rewrite Hr. rewrite in_app_iff, Hacc. tauto.
  - eexists. split; [exact Hr | ]. intros l. now rewrite Hacc.
Qed.

(** ** The factory with valid options *)
Section FactoryLaws.
Import JS VirtualReference Factory.
Variable Instance : Type.
Variable Defaults : gmap string value.
Variable createTippy : Reference -> gmap string value -> Instance.
Variable querySelectorAll : string -> option (list nat).

Lemma createAll_map options refs (w : World Instance) :
  fst (createAll Instance createTippy options refs w)
  = map (fun r => createTippy r options) refs
  /\ built (snd (createAll Instance createTippy options refs w))
     = built w ++ map (fun r => createTippy r options) refs
  /\ eventListenersBound (snd (createAll Instance createTippy options refs w))
     = eventListenersBound w
  /\ globalBindings (snd (createAll Instance createTippy options refs w))
     = globalBindings w.
Proof.
  revert w. induction refs as [| r rest IH]; intros w; cbn [createAll].
  - cbn. now rewrite app_nil_r.
  - set (w1 := {| eventListenersBound := eventListenersBound w;
                  globalBindings := globalBindings w;
                  built := built w ++ [createTippy r options] |}).
    destruct (IH w1) as (A & B & C & D).
    destruct (createAll Instance createTippy options rest w1) as [others w2].
    cbn [fst snd map] in *. rewrite A, B, C, D. cbn.
    now rewrite <- app_assoc.
Qed.

Lemma mergeOptions_lookup_other supplied key :
  ~ In key (map fst supplied) ->
  mergeOptions Defaults supplied !! key = Defaults !! key.
Proof.
  unfold mergeOptions. generalize Defaults as m.
  induction supplied as [| [k v] rest IH]; intros m Hnot; cbn [fold_left];
    [reflexivity | ].
  cbn in Hnot. rewrite IH by tauto.
  apply lookup_insert_ne. intros E. apply Hnot. now left.
Qed.

Lemma mergeOptions_lookup_supplied supplied key v :
  List.NoDup (map fst supplied) -> In (key, v) supplied ->
  mergeOptions Defaults supplied !! key = Some v.
Proof.
  unfold mergeOptions. generalize Defaults as m.
  induction supplied as [| [k x] rest IH]; intros m Hnd Hin; [destruct Hin | ].
  cbn [fold_left]. cbn in Hnd. apply List.NoDup_cons_iff in Hnd.
  destruct Hnd as [Hk Hrest].
  destruct Hin as [E | Hin].
  - injection E as -> ->.
    assert (G : forall m' : gmap string value, fold_left (fun m kv => <[fst kv := snd kv]> m)
                             rest m' !! key = m' !! key).
    { clear IH Hrest. revert Hk. induction rest as [| [k' v'] rest IHr];
        intros Hk m'; cbn [fold_left]; [reflexivity | ].
      cbn in Hk. rewrite IHr by tauto.
      apply lookup_insert_ne. intros E. apply Hk. now left. }
    rewrite G. cbn. apply lookup_insert_eq.
  - now apply IH.
Qed.

Lemma mergeOptions_keys supplied key :
  (forall k, In k (map fst supplied) -> is_Some (Defaults !! k)) ->
  is_Some (mergeOptions Defaults supplied !! key) <-> is_Some (Defaults !! key).
Proof.
  unfold mergeOptions.
  assert (G : forall m : gmap string value,
             (forall k, In k (map fst supplied) -> is_Some (m !! k)) ->
             is_Some (fold_left (fun m kv => <[fst kv := snd kv]> m)
                        supplied m !! key)
             <-> is_Some (m !! key)).
  { induction supplied as [| [k v] rest IH]; intros m Hok; cbn [fold_left];
      [reflexivity | ].
    rewrite IH.
    - cbn. destruct (decide (k = key)) as [-> | Hne].
      + rewrite lookup_insert_eq. split; [ | eauto].
        intros _. apply Hok. now left.
      + now rewrite lookup_insert_ne.
    - intros k' Hk'. cbn.
      destruct (decide (k = k')) as [-> | Hne];
        [rewrite lookup_insert_eq; eauto | ].
      rewrite lookup_insert_ne by exact Hne. apply Hok. now right. }
  apply G.
Qed.
End FactoryLaws.

(** X13.  With recognized options only, [tippy] succeeds.  It makes one
    instance for every reference, in their order, or with [one] set for
    the first reference only; all of them get the same options object,
    whose keys are those of the defaults and in which a supplied value
    replaces the default; and the instances built are added to those
    that existed. *)
Theorem valid_options_create_instances :
  forall (Instance : Type) (Defaults : gmap string JS.value)
         (createTippy : Factory.Reference -> gmap string JS.value -> Instance)
         (querySelectorAll : string -> option (list nat))
         (targets : Factory.Targets) (supplied : list (string * JS.value))
         (one : bool) (w : Factory.World Instance),
    List.NoDup (map fst supplied) ->
    (forall key, In key (map fst supplied) -> is_Some (Defaults !! key)) ->
    exists c,
      fst (Factory.tippy Instance Defaults createTippy querySelectorAll
             targets (Some supplied) one w) = JS.Ok c
      /\ Factory.c_instances c
         = map (fun r => createTippy r (Factory.c_options c))
             (if one then firstn 1 (Factory.c_references c)
              else Factory.c_references c)
      /\ Factory.c_references c
         = Factory.getArrayOfElements querySelectorAll (Factory.c_targets c)
      /\ (forall key,
            is_Some (Factory.c_options c !! key) <-> is_Some (Defaults !! key))
      /\ (forall key v, In (key, v) supplied ->
                        Factory.c_options c !! key = Some v)
      /\ (forall key, ~ In key (map fst supplied) ->
                      Factory.c_options c !! key = Defaults !! key)
      /\ Factory.built
           (snd (Factory.tippy Instance Defaults createTippy querySelectorAll
                   targets (Some supplied) one w))
         = Factory.built w ++ Factory.c_instances c.
Proof.
  intros Instance Defaults createTippy qsa targets supplied one w Hnd Hok.
  unfold Factory.tippy.
  rewrite (validate_accepts Defaults _ Hok).
  set (w1 := if negb (Factory.eventListenersBound w) then _ else w).
  set (targets' := match targets with
                   | Factory.TPlainObject o => _
                   | _ => targets
                   end).
  set (refs := Factory.getArrayOfElements qsa targets').
  set (chosen := match one, refs with
                 | true, firstReference :: _ => [firstReference]
                 | _, _ => refs
                 end).
  assert (Hch : chosen = if one then firstn 1 refs else refs).
  { subst chosen. destruct one; [ | reflexivity]. now destruct refs. }
  destruct (createAll_map Instance createTippy
              (Factory.mergeOptions Defaults supplied) chosen w1)
    as (A & B & _).
  destruct (Factory.createAll Instance createTippy _ chosen w1)
    as [instances w2].
  cbn [fst snd] in *. eexists. split; [reflexivity | ].
  cbn [Factory.c_instances Factory.c_options Factory.c_references
       Factory.c_targets].
  split; [now rewrite A, Hch | ].
  split; [reflexivity | ].
  split; [intros key; now apply mergeOptions_keys | ].
  split; [intros key v Hin; now apply mergeOptions_lookup_supplied | ].
  split; [intros key Hnot; now apply mergeOptions_lookup_other | ].
  rewrite B, A. subst w1. now destruct (Factory.eventListenersBound w).
Qed.

Lemma valid_options_create_instances_witness :
  let Defaults : gmap string JS.value :=
    <["delay" := JS.VNum (JS.Fin 0 0)]>
      (<["arrow" := JS.VBool false]> ∅) in
  let createTippy (r : Factory.Reference) (o : gmap string JS.value) :=
    (r, o !! "delay") in
  let qsa (sel : string) : option (list nat) :=
    if String.eqb sel ".tip" then Some [1%nat; 2%nat] else None in
  let supplied := [("delay", JS.VNum (JS.Fin 100 0))] in
  let w := {| Factory.eventListenersBound := false;
              Factory.globalBindings := 0%nat;
              Factory.built := [] |} in
  exists c,
    fst (Factory.tippy _ Defaults createTippy qsa (Factory.TSelector ".tip")
           (Some supplied) false w) = JS.Ok c
    /\ Factory.c_instances c
       = [(Factory.RElement 1, Some (JS.VNum (JS.Fin 100 0)));
          (Factory.RElement 2, Some (JS.VNum (JS.Fin 100 0)))].
Proof.
  intros Defaults createTippy qsa supplied w.
  destruct (valid_options_create_instances _ Defaults createTippy qsa
              (Factory.TSelector ".tip") supplied false w)
    as (c & H1 & H2 & H3 & _ & H5 & _).
  - repeat constructor. intros [].
  - intros key [<- | []]. vm_compute. eauto.
  - exists c. split; [exact H1 | ].
    rewrite H2, H3.
    injection H1 as <-. cbn.
    reflexivity.
Defined.

Section BindingFacts.
Import JS VirtualReference Factory.
Variable Instance : Type.
Variable Defaults : gmap string value.
Variable createTippy : Reference -> gmap string value -> Instance.
Variable querySelectorAll : string -> option (list nat).

Lemma tippy_binds targets supplied one (w : World Instance) :
  let w' := snd (tippy Instance Defaults createTippy querySelectorAll
                   targets supplied one w) in
  eventListenersBound w' = true
  /\ globalBindings w'
     = (globalBindings w + (if eventListenersBound w then 0 else 1))%nat.
Proof.
  unfold tippy.
  set (w1 := if negb (eventListenersBound w) then _ else w).
  assert (H1 : eventListenersBound w1 = true
               /\ globalBindings w1
                  = (globalBindings w
                     + (if eventListenersBound w then 0 else 1))%nat).
  { subst w1. destruct (eventListenersBound w) eqn:E; cbn; [ | lia].
    split; [exact E | lia]. }
  destruct (validate Defaults _); [ | exact H1].
  match goal with
  | |- context [createAll Instance createTippy ?o ?refs w1] =>
      destruct (createAll_map Instance createTippy o refs w1)
        as (_ & _ & C & D);
      destruct (createAll Instance createTippy o refs w1) as [instances w2]
  end.
  cbn [fst snd] in *. now rewrite C, D.
Qed.
End BindingFacts.

(** X14.  The global event listeners are bound once.  However often
    [tippy] is called, with whatever arguments, and whether the calls
    return or throw: [bindGlobalEventListeners] runs during the first
    call if it has not run before, and never again. *)
Theorem global_listeners_are_bound_once :
  forall (Instance : Type) (Defaults : gmap string JS.value)
         (createTippy : Factory.Reference -> gmap string JS.value -> Instance)
         (querySelectorAll : string -> option (list nat))
         (calls : list (Factory.Targets * option (list (string * JS.value))
                        * bool))
         (w : Factory.World Instance),
    let call w c :=
      snd (Factory.tippy Instance Defaults createTippy querySelectorAll
             (fst (fst c)) (snd (fst c)) (snd c) w) in
    let w' := fold_left call calls w in
    Factory.globalBindings w'
    = (Factory.globalBindings w
       + (if Factory.eventListenersBound w then 0
          else match calls with [] => 0 | _ :: _ => 1 end))%nat
    /\ (calls <> [] -> Factory.eventListenersBound w' = true).
Proof.
  intros Instance Defaults createTippy qsa calls w call.
  assert (G : forall calls w,
             Factory.eventListenersBound w = true ->
             Factory.eventListenersBound (fold_left call calls w) = true
             /\ Factory.globalBindings (fold_left call calls w)
                = Factory.globalBindings w).
  { induction calls0 as [| c rest IH]; intros w0 Hb; cbn [fold_left];
      [now split | ].
    destruct (tippy_binds Instance Defaults createTippy qsa
                (fst (fst c)) (snd (fst c)) (snd c) w0) as [A B].
    cbv zeta in A, B. rewrite Hb in B.
    destruct (IH (call w0 c) A) as [A' B'].
    split; [exact A' | ]. rewrite B'. subst call. cbn beta. lia. }
  destruct calls as [| c rest]; cbn [fold_left].
  - cbv zeta. split; [destruct (Factory.eventListenersBound w); lia | ].
    intros H. now elim H.
  - destruct (tippy_binds Instance Defaults createTippy qsa
                (fst (fst c)) (snd (fst c)) (snd c) w) as [A B].
    cbv zeta in A, B.
    destruct (G rest (call w c) A) as [A' B'].
    cbv zeta. split; [ | intros _; exact A'].
    rewrite B'. subst call. cbn beta. exact B.
Qed.

(** ** Strings of digits *)
Section DigitFacts.
Import JS Numeric Attributes Text.

Lemma digit_not_space c : isDigit c = true -> isWhiteSpace c = false.
Proof.
  unfold isDigit, isWhiteSpace. cbv zeta.
  generalize (nat_of_ascii c). intros n H.
  apply andb_prop in H. destruct H as [H1 H2].
  apply Nat.leb_le in H1, H2.
  apply orb_false_iff. split.
  - apply andb_false_iff. right. apply Nat.leb_gt. lia.
  - apply Nat.eqb_neq. lia.
Qed.

Lemma digit_not c d : isDigit c = true -> isDigit d = false ->
  Ascii.eqb c d = false /\ Ascii.eqb d c = false.
Proof.
  intros Hc Hd. split.
  - destruct (Ascii.eqb_spec c d) as [-> | _]; [congruence | reflexivity].
  - destruct (Ascii.eqb_spec d c) as [-> | _]; [congruence | reflexivity].
Qed.

Lemma trimStart_digits ds : allChars isDigit ds = true -> trimStart ds = ds.
Proof.
  destruct ds as [| c ds]; [reflexivity | ]. cbn [allChars trimStart].
  intros H. apply andb_prop in H. destruct H as [Hc _].
  now rewrite (digit_not_space c Hc).
Qed.

Lemma trimEnd_digits ds : allChars isDigit ds = true -> trimEnd ds = ds.
Proof.
  induction ds as [| c ds IH]; [reflexivity | ]. cbn [allChars trimEnd].
  intros H. apply andb_prop in H. destruct H as [Hc Hs].
  rewrite (digit_not_space c Hc). cbn [andb]. now rewrite IH.
Qed.

Lemma trim_digits ds : allChars isDigit ds = true -> trim ds = ds.
Proof.
  intros H. unfold trim. rewrite (trimStart_digits ds H).
  now apply trimEnd_digits.
Qed.

Lemma takeDigits_digits ds :
  allChars isDigit ds = true -> takeDigits ds = (ds, EmptyString).
Proof.
  induction ds as [| c ds IH]; [reflexivity | ]. cbn [allChars takeDigits].
  intros H. apply andb_prop in H. destruct H as [Hc Hs].
  now rewrite Hc, (IH Hs).
Qed.

Lemma nonDecimalLiteral_digits ds :
  allChars isDigit ds = true -> nonDecimalLiteral ds = None.
Proof.
  destruct ds as [| a [| c rest]].
  - reflexivity.
  - intros _. destruct a as [[] [] [] [] [] [] [] []]; reflexivity.
  - cbn [allChars]. intros H. apply andb_prop in H. destruct H as [_ H].
    apply andb_prop in H. destruct H as [Hc _].
    assert (E : forall d, isDigit d = false -> Ascii.eqb c d = false)
      by (intros d Hd; exact (proj1 (digit_not c d Hc Hd))).
    destruct a as [[] [] [] [] [] [] [] []]; try reflexivity.
    cbn [nonDecimalLiteral].
    now rewrite !E by reflexivity.
Qed.

Lemma scanDecimal_digit c s :
  isDigit c = true ->
  scanDecimal (String c s) = scanUnsignedDecimal (String c s).
Proof.
  intros H.
  destruct c as [[] [] [] [] [] [] [] []]; try reflexivity; discriminate H.
Qed.

Lemma stripPrefix_digit p c s :
  isDigit c = true -> isDigit p = false ->
  forall rest, stripPrefix (String p rest) (String c s) = None.
Proof.
  intros Hc Hp rest. cbn [stripPrefix].
  now rewrite (proj2 (digit_not c p Hc Hp)).
Qed.

Lemma append_nil_r (s : string) : s +:+ "" = s.
Proof.
  induction s as [| c s IH]; [reflexivity | ].
  change (String c s +:+ "") with (String c (s +:+ "")). now rewrite IH.
Qed.

(** An integer below [2^53] is a double. *)
Lemma roundToDouble_integer m : 0 <= m < 2 ^ 53 -> roundToDouble m 1 = Fin m 0.
Proof.
  intros [H0 H1]. unfold roundToDouble.
  destruct (Z.eqb_spec m 0) as [-> | Hm]; [reflexivity | ].
  assert (Hpos : 0 < m) by lia.
  pose proof (Z.log2_spec m Hpos) as [L1 L2].
  pose proof (Z.log2_nonneg m) as L0.
  assert (L3 : Z.log2 m <= 52).
  { destruct (Z.le_gt_cases (Z.log2 m) 52) as [H | H]; [exact H | ].
    exfalso. assert (2 ^ 53 <= 2 ^ Z.log2 m)
      by (apply Z.pow_le_mono_r; lia). lia. }
  assert (F : floorLog2 m 1 = Z.log2 m).
  { unfold floorLog2. change (Z.log2 1) with 0. rewrite Z.sub_0_r.
    cbv zeta. destruct (Z.leb_spec 0 (Z.log2 m)) as [_ | ?]; [ | lia].
    rewrite Z.mul_1_l.
    destruct (Z.leb_spec (2 ^ Z.log2 m) m); [reflexivity | lia]. }
  rewrite F. cbv zeta.
  rewrite Z.max_l by lia.
  destruct (Z.eq_dec (Z.log2 m) 52) as [E | E].
  - rewrite E. change (52 - 52) with 0.
    change (0 <=? 0) with true. cbv iota. change (1 * 2 ^ 0) with 1.
    rewrite Z.div_1_r, Z.mod_1_r. change (2 * 0 <? 1) with true. cbv iota.
    destruct (Z.eqb_spec m 0); [lia | ].
    rewrite E. change (1024 <=? 52 + 0) with false. cbv iota.
    unfold canonical. change (0 <=? 0) with true. cbv iota.
    change (2 ^ 0) with 1. now rewrite Z.mul_1_r.
  - set (s := 52 - Z.log2 m).
    assert (Hs : 0 < s) by (unfold s; lia).
    replace (Z.log2 m - 52) with (- s) by (unfold s; lia).
    clearbody s.
    assert (P : 0 < 2 ^ s) by (apply Z.pow_pos_nonneg; lia).
    destruct (Z.leb_spec 0 (- s)) as [Hz | Hz]; [lia | ].
    rewrite Z.opp_involutive, Z.div_1_r, Z.mod_1_r.
    change (2 * 0 <? 1) with true. cbv iota.
    destruct (Z.eqb_spec (m * 2 ^ s) 0); [nia | ].
    rewrite Z.log2_mul_pow2 by lia.
    replace (s + Z.log2 m + - s) with (Z.log2 m) by lia.
    destruct (Z.leb_spec 1024 (Z.log2 m)); [lia | ].
    unfold canonical.
    destruct (Z.leb_spec 0 (- s)); [lia | ].
    rewrite Z.opp_involutive, Z.mod_mul by lia. change (0 =? 0) with true.
    cbv iota. now rewrite Z.div_mul by lia.
Qed.

Lemma decimal_integer m : 0 <= m < 2 ^ 53 -> decimal m 0 = Fin m 0.
Proof.
  intros H. unfold decimal. change (0 <=? 0) with true. cbv iota.
  change (10 ^ 0) with 1.
  rewrite Z.mul_1_r. now apply roundToDouble_integer.
Qed.

Lemma decimal_not_NaN m x : isNaNnum (decimal m x) = false.
Proof.
  unfold decimal, roundToDouble, canonical.
  repeat match goal with
    | |- context [if ?b then _ else _] => destruct b
    end; reflexivity.
Qed.

Lemma digitsValueFrom_nonneg ds : forall acc,
  0 <= acc -> allChars isDigit ds = true -> 0 <= digitsValueFrom acc ds.
Proof.
  induction ds as [| c ds IH]; intros acc Ha H; [exact Ha | ].
  cbn [allChars] in H. apply andb_prop in H. destruct H as [Hc Hs].
  cbn [digitsValueFrom]. apply IH; [ | exact Hs].
  unfold isDigit in Hc. cbv zeta in Hc. apply andb_prop in Hc.
  destruct Hc as [H1 _]. apply Nat.leb_le in H1. unfold digitValue. lia.
Qed.

Lemma scanUnsignedDecimal_digits ds :
  allChars isDigit ds = true -> ds <> EmptyString ->
  scanUnsignedDecimal ds = Some (decimal (digitsValue ds) 0, EmptyString).
Proof.
  intros H Hne. destruct ds as [| c s]; [now elim Hne | ].
  pose proof H as H'. cbn [allChars] in H'. apply andb_prop in H'.
  destruct H' as [Hc _].
  unfold scanUnsignedDecimal.
  rewrite (stripPrefix_digit "I"%char c s Hc eq_refl).
  rewrite (takeDigits_digits _ H). cbn [String.eqb andb].
  rewrite append_nil_r. reflexivity.
Qed.

(** A non-empty string of decimal digits is a number for [parseFloat],
    [Number] and [isNumeric]: the double nearest to the number it
    writes. *)
Lemma digits_are_numeric ds :
  allChars isDigit ds = true -> ds <> EmptyString ->
  parseFloat ds = decimal (digitsValue ds) 0
  /\ StringToNumber ds = decimal (digitsValue ds) 0
  /\ isNumeric ds = true.
Proof.
  intros H Hne.
  assert (Hsd : scanDecimal ds
                = Some (decimal (digitsValue ds) 0, EmptyString)).
  { destruct ds as [| c s]; [now elim Hne | ].
    pose proof H as H'. cbn [allChars] in H'. apply andb_prop in H'.
    destruct H' as [Hc _].
    rewrite (scanDecimal_digit c s Hc).
    now apply scanUnsignedDecimal_digits. }
  assert (Hpf : parseFloat ds = decimal (digitsValue ds) 0).
  { unfold parseFloat. now rewrite (trimStart_digits ds H), Hsd. }
  assert (Hn : StringToNumber ds = decimal (digitsValue ds) 0).
  { unfold StringToNumber. cbv zeta. rewrite (trim_digits ds H).
    apply String.eqb_neq in Hne. rewrite Hne.
    now rewrite (nonDecimalLiteral_digits ds H), Hsd. }
  split; [exact Hpf | split; [exact Hn | ]].
  unfold isNumeric, isNaN. cbn [ToNumber].
  now rewrite Hn, Hpf, decimal_not_NaN.
Qed.

Lemma digits_not_keyword ds :
  allChars isDigit ds = true ->
  String.eqb ds "true" = false /\ String.eqb ds "false" = false
  /\ firstCharIs "["%char (trimStart ds) = false.
Proof.
  intros H. rewrite (trimStart_digits ds H).
  destruct ds as [| c s]; [now repeat split | ]. cbn [allChars] in H.
  apply andb_prop in H. destruct H as [Hc _].
  cbn [String.eqb firstCharIs].
  rewrite (proj1 (digit_not c "t"%char Hc eq_refl)),
    (proj1 (digit_not c "f"%char Hc eq_refl)),
    (proj1 (digit_not c "["%char Hc eq_refl)). now repeat split.
Qed.
End DigitFacts.

(** X15.  An attribute of digits becomes a number.  For a non-empty
    string [ds] of decimal digits that writes the integer [m]:
    [parseFloat] and [Number] read it as the double nearest to [m], which
    is [m] itself when [m < 2^53]; [getIndividualOptions] of
    [Framework.js], for a default option key whose [data-tippy-]
    attribute is [ds], returns that number under the key whenever it
    returns, unless the number is infinite, and then returns the string;
    and [getDataAttributeOptions] of [utils.js] returns the number, also
    an infinite one, for each of its keys but [__proto__]. *)
Theorem digit_attribute_is_a_number :
  forall (JSON_parse : string -> option JS.value)
         (attributes : gmap string string) (ds : string),
    Text.allChars Numeric.isDigit ds = true ->
    ds <> EmptyString ->
    let n := Numeric.decimal (Numeric.digitsValue ds) 0 in
    (Numeric.digitsValue ds < 2 ^ 53 ->
     n = JS.Fin (Numeric.digitsValue ds) 0)
    /\ Numeric.parseFloat ds = n
    /\ Numeric.StringToNumber ds = n
    /\ (forall (instanceOptions options : gmap string JS.value) (key : string),
          In key Attributes.defaultsKeys ->
          attributes !! ("data-tippy-" +:+ Attributes.toLowerCase key)
          = Some ds ->
          Attributes.getIndividualOptions JSON_parse attributes instanceOptions
          = JS.Ok options ->
          options !! key
          = Some (if Numeric.isFiniteNum n then JS.VNum n else JS.VStr ds))
    /\ (forall (keys : list string) (options : gmap string JS.value)
               (key : string),
          List.NoDup keys -> In key keys -> key <> "__proto__"%string ->
          attributes !! ("data-tippy-" +:+ key) = Some ds ->
          Attributes.getDataAttributeOptions_utils JSON_parse attributes keys
          = JS.Ok options ->
          options !! key = Some (JS.VNum n)).
Proof.
  intros JSON_parse attributes ds Hd Hne n.
  destruct (digits_are_numeric ds Hd Hne) as (Hpf & Hn & Hnum).
  destruct (digits_not_keyword ds Hd) as (Ht & Hf & Hb).
  split; [ | split; [exact Hpf | split; [exact Hn | split]]].
  - intros Hlt. apply decimal_integer. split; [ | exact Hlt].
    now apply digitsValueFrom_nonneg.
  - intros instanceOptions options key Hin Ha Hret.
    unfold Attributes.getIndividualOptions,
      Attributes.getIndividualOptions_over in Hret.
    destruct (Attributes.reduce _ _ _) as [acc | e] eqn:Hred;
      cbn [JS.bind] in Hret; [ | discriminate].
    injection Hret as <-.
    destruct (proj1 (reduce_assign_lookup _ _ _ _ defaultsKeys_NoDup Hred key
                       (defaultsKeys_not_proto key Hin))
                Hin) as (o & Ho & Hm).
    rewrite (individualOption_attribute _ _ _ _ _ Ha Hne) in Ho
      by (rewrite (trim_digits ds Hd); now apply nonDecimalLiteral_digits).
    subst o.
    unfold Attributes.claimedConversion, Attributes.convertedAs,
      Attributes.writesFiniteNumber in Hm.
    rewrite Ht, Hf, Hb, Hn, (trim_digits ds Hd) in Hm.
    apply String.eqb_neq in Hne. rewrite Hne in Hm. cbn [negb andb] in Hm.
    fold n in Hm. apply lookup_union_Some_l.
    now destruct (Numeric.isFiniteNum n).
  - intros keys options key Hnd Hin Hproto Ha Hret.
    unfold Attributes.getDataAttributeOptions_utils in Hret.
    destruct (proj1 (reduce_assign_lookup _ _ _ _ Hnd Hret key Hproto) Hin)
      as (o & Ho & Hm).
    rewrite (dataAttributeOption_utils_attribute _ _ _ _ Ha Hne) in Ho.
    subst o. unfold Attributes.convertedAs in Hm.
    rewrite Ht, Hf, <- (proj1 (number_tests ds)), Hnum, Hn in Hm. exact Hm.
Qed.

Lemma digit_attribute_is_a_number_witness :
  let attributes : gmap string string :=
    <["data-tippy-delay"%string := "300"%string]> ∅ in
  Numeric.parseFloat "300" = JS.Fin 300 0
  /\ forall options,
       Attributes.getDataAttributeOptions_utils (fun _ => None) attributes
         ["delay"; "arrow"]%string = JS.Ok options ->
       options !! "delay"%string = Some (JS.VNum (JS.Fin 300 0)).
Proof.
  intros attributes.
  destruct (digit_attribute_is_a_number (fun _ => None) attributes "300"
              ltac:(reflexivity) ltac:(discriminate))
    as (H0 & H1 & _ & _ & H2).
  pose proof (H0 eq_refl) as E.
  split; [rewrite H1, E; reflexivity | ].
  intros options Hret.
  rewrite (H2 ["delay"; "arrow"]%string options "delay"%string), E.
  - reflexivity.
  - repeat constructor; cbn; intuition discriminate.
  - now left.
  - discriminate.
  - reflexivity.
  - exact Hret.
Defined.

(** ** Options that no attribute overrides *)
Section FallbackFacts.
Import JS Numeric Attributes Values.

Lemma individualOption_fallback JSON_parse attributes instanceOptions key :
  Geometry.truthyAttr
    (attributes !! ("data-tippy-" +:+ toLowerCase key)) = false ->
  match getProp instanceOptions key with
  | VStr v =>
      (v = "true"%string ->
       individualOption JSON_parse attributes instanceOptions key
       = Ok (VBool true))
      /\ (v = "false"%string ->
          individualOption JSON_parse attributes instanceOptions key
          = Ok (VBool false))
      /\ (nonDecimalLiteral (trim v) = None ->
          trim v <> EmptyString ->
          isFiniteNum (StringToNumber v) = true ->
          individualOption JSON_parse attributes instanceOptions key
          = Ok (VNum (StringToNumber v)))
  | v =>
      plain v = true ->
      individualOption JSON_parse attributes instanceOptions key = Ok v
  end.
Proof.
  intros Ha. unfold individualOption.
  assert (E : match attributes !! ("data-tippy-" +:+ toLowerCase key) with
              | Some a => if String.eqb a EmptyString
                          then getProp instanceOptions key
                          else VStr a
              | None => getProp instanceOptions key
              end = getProp instanceOptions key).
  { unfold Geometry.truthyAttr in Ha.
    destruct (attributes !! _) as [a |]; [ | reflexivity].
    apply negb_false_iff in Ha. now rewrite Ha. }
  rewrite E. clear E Ha.
  destruct (getProp instanceOptions key) as [ | | b | n | v | items | o | f];
    try (intros _; reflexivity).
  - intros Hp. cbv zeta. unfold isFinite. cbn [ToNumber parseFloatValue].
    destruct n; try reflexivity. discriminate Hp.
  - split; [intros ->; reflexivity | split; [intros ->; reflexivity | ]].
    intros Hn Ht Hfin. cbv zeta.
    assert (W : writesFiniteNumber v = true).
    { unfold writesFiniteNumber. apply String.eqb_neq in Ht.
      now rewrite Ht, Hfin. }
    destruct (proj2 (number_tests v) Hn) as [T V].
    destruct (String.eqb_spec v "false") as [-> | Hf]; [discriminate W | ].
    destruct (String.eqb_spec v "true") as [-> | Htr]; [discriminate W | ].
    change (parseFloatValue (VStr v)) with (parseFloat v).
    rewrite T, W, (V W). reflexivity.
  - intros Hp. cbv zeta. unfold isFinite.
    destruct items as [| x [| y rest]]; [reflexivity | discriminate Hp | ].
    reflexivity.
Qed.
End FallbackFacts.

(** X16.  Options that no attribute overrides.  When
    [getIndividualOptions] of [Framework.js] returns (its keys are the
    default option keys; any list of distinct keys does), then for every
    key but [__proto__]: the object it returns holds each of its keys; an
    option that is not one of them is the instance option; a key without
    a (non-empty) [data-tippy-] attribute holds the instance option
    unchanged unless that is a string, an array of one element or
    negative zero; and such a key whose instance option is a string
    holds [true] for the string [true], [false] for the string [false],
    and the number [Number(v)] for a string [v] that, white space at its
    ends apart, is a decimal literal of a finite number. *)
Theorem individual_options_fall_back :
  forall (JSON_parse : string -> option JS.value)
         (attributes : gmap string string) (keys : list string)
         (instanceOptions options : gmap string JS.value),
    List.NoDup keys ->
    Attributes.getIndividualOptions_over JSON_parse attributes keys
      instanceOptions = JS.Ok options ->
    (forall key, key <> "__proto__"%string -> In key keys ->
       is_Some (options !! key))
    /\ (forall key, key <> "__proto__"%string -> ~ In key keys ->
          options !! key = instanceOptions !! key)
    /\ (forall key v,
          key <> "__proto__"%string ->
          In key keys ->
          Geometry.truthyAttr
            (attributes !! ("data-tippy-" +:+ Attributes.toLowerCase key))
          = false ->
          instanceOptions !! key = Some v ->
          Values.plain v = true ->
          options !! key = Some v)
    /\ (forall key v,
          key <> "__proto__"%string ->
          In key keys ->
          Geometry.truthyAttr
            (attributes !! ("data-tippy-" +:+ Attributes.toLowerCase key))
          = false ->
          instanceOptions !! key = Some (JS.VStr v) ->
          (v = "true"%string -> options !! key = Some (JS.VBool true))
          /\ (v = "false"%string -> options !! key = Some (JS.VBool false))
          /\ (Numeric.nonDecimalLiteral (JS.trim v) = None ->
              JS.trim v <> EmptyString ->
              Numeric.isFiniteNum (Numeric.StringToNumber v) = true ->
              options !! key
              = Some (JS.VNum (Numeric.StringToNumber v)))).
Proof.
  intros JSON_parse attributes keys instanceOptions options Hnd Hret.
  unfold Attributes.getIndividualOptions_over in Hret.
  destruct (Attributes.reduce _ _ _) as [acc | e] eqn:Hred;
    cbn [JS.bind] in Hret; [ | discriminate].
  injection Hret as <-.
  pose proof (reduce_assign_lookup _ _ _ _ Hnd Hred) as L.
  split; [ | split; [ | split]].
  - intros key Hproto Hin. destruct (proj1 (L key Hproto) Hin) as (o & Ho & Hm).
    subst o.
    destruct (Attributes.individualOption _ _ _ key) as [x | e];
      [ | contradiction].
    exists x. now apply lookup_union_Some_l.
  - intros key Hproto Hnot. pose proof (proj2 (L key Hproto) Hnot) as Hacc.
    rewrite lookup_empty in Hacc.
    rewrite lookup_union_r by exact Hacc.
    now apply lookup_delete_ne.
  - intros key v Hproto Hin Ha Hv Hp.
    destruct (proj1 (L key Hproto) Hin) as (o & Ho & Hm). subst o.
    pose proof (individualOption_fallback JSON_parse attributes
                  instanceOptions key Ha) as F.
    unfold JS.getProp in F. rewrite Hv in F.
    destruct v; try discriminate Hp; rewrite (F Hp) in Hm;
      now apply lookup_union_Some_l.
  - intros key v Hproto Hin Ha Hv.
    destruct (proj1 (L key Hproto) Hin) as (o & Ho & Hm). subst o.
    pose proof (individualOption_fallback JSON_parse attributes
                  instanceOptions key Ha) as F.
    unfold JS.getProp in F. rewrite Hv in F.
    destruct F as (F1 & F2 & F3).
    split; [ | split].
    + intros E. rewrite (F1 E) in Hm. now apply lookup_union_Some_l.
    + intros E. rewrite (F2 E) in Hm. now apply lookup_union_Some_l.
    + intros Hn Ht Hfin. rewrite (F3 Hn Ht Hfin) in Hm.
      now apply lookup_union_Some_l.
Qed.

Lemma individual_options_fall_back_witness :
  let instanceOptions : gmap string JS.value :=
    <["wait"%string := JS.VFun "wait"]>
      (<["arrow"%string := JS.VStr "true"]>
         (<["delay"%string := JS.VNum (JS.Fin 100 0)]> ∅)) in
  let options : gmap string JS.value :=
    <["wait"%string := JS.VFun "wait"]>
      (<["arrow"%string := JS.VBool true]>
         (<["delay"%string := JS.VNum (JS.Fin 100 0)]> ∅)) in
  options !! "wait"%string = instanceOptions !! "wait"%string
  /\ options !! "delay"%string = Some (JS.VNum (JS.Fin 100 0)).
Proof.
  intros instanceOptions options.
  destruct (individual_options_fall_back (fun _ => None) ∅
              ["delay"; "arrow"]%string instanceOptions options)
    as (_ & H2 & H3 & _).
  - repeat constructor; cbn; intuition discriminate.
  - vm_compute. reflexivity.
  - split.
    + apply H2; [discriminate | ]. cbn. intuition discriminate.
    + apply H3; [discriminate | now left | reflexivity | reflexivity
                | reflexivity].
Defined.

(** X17.  The operations of a virtual reference polyfilled by
    [polyfillElementPrototypeProperties] do not interfere.  For two
    different names [k] and [k']: when setting the attribute [k] returns
    and [k] is not [__proto__] (which would replace the prototype of the
    dictionary), it changes neither the value nor the presence of the
    attribute [k']; neither does removing the attribute [k]; adding (when
    it returns) or removing the class [k] does not change whether the
    class [k'] is present.  Operations on attributes leave the class list
    as it was, operations on the class list and the two listener stubs
    leave the attributes as they were. *)
Theorem virtual_reference_operations_are_independent :
  forall (host : JS.Host) (r : VirtualReference.Polyfilled) (k k' : string)
         (v : JS.value),
    k <> k' ->
    (k <> "__proto__"%string ->
     forall r', VirtualReference.setAttribute host k v r = JS.Ok r' ->
       VirtualReference.getAttribute host k' r'
       = VirtualReference.getAttribute host k' r
       /\ VirtualReference.hasAttribute host k' r'
          = VirtualReference.hasAttribute host k' r)
    /\ JS.bind (VirtualReference.removeAttribute k r)
         (VirtualReference.getAttribute host k')
       = VirtualReference.getAttribute host k' r
    /\ JS.bind (VirtualReference.removeAttribute k r)
         (VirtualReference.hasAttribute host k')
       = VirtualReference.hasAttribute host k' r
    /\ (forall r', VirtualReference.classList_add host k r = JS.Ok r' ->
          VirtualReference.classList_contains host k' r'
          = VirtualReference.classList_contains host k' r)
    /\ JS.bind (VirtualReference.classList_remove k r)
         (VirtualReference.classList_contains host k')
       = VirtualReference.classList_contains host k' r
    /\ (forall c,
          (forall r', VirtualReference.setAttribute host k v r = JS.Ok r' ->
             VirtualReference.classList_contains host c r'
             = VirtualReference.classList_contains host c r)
          /\ JS.bind (VirtualReference.removeAttribute k r)
               (VirtualReference.classList_contains host c)
             = VirtualReference.classList_contains host c r)
    /\ (forall a,
          (forall r', VirtualReference.classList_add host k r = JS.Ok r' ->
             VirtualReference.getAttribute host a r'
             = VirtualReference.getAttribute host a r)
          /\ JS.bind (VirtualReference.classList_remove k r)
               (VirtualReference.getAttribute host a)
             = VirtualReference.getAttribute host a r
          /\ JS.bind (VirtualReference.addEventListener k r)
               (VirtualReference.getAttribute host a)
             = VirtualReference.getAttribute host a r
          /\ JS.bind (VirtualReference.removeEventListener k r)
               (VirtualReference.getAttribute host a)
             = VirtualReference.getAttribute host a r).
Proof.
  intros host r k k' v Hne.
  assert (D : forall o, JS.own (JS.deleteProp o k) !! k' = JS.own o !! k'
                        /\ JS.proto (JS.deleteProp o k) = JS.proto o).
  { intros o. unfold JS.deleteProp. cbn [JS.own JS.proto].
    split; [now apply lookup_delete_ne | reflexivity]. }
  unfold VirtualReference.setAttribute, VirtualReference.getAttribute,
    VirtualReference.hasAttribute, VirtualReference.removeAttribute,
    VirtualReference.classList_add, VirtualReference.classList_remove,
    VirtualReference.classList_contains, VirtualReference.addEventListener,
    VirtualReference.removeEventListener.
  cbn [JS.bind VirtualReference.attributes VirtualReference.classNames].
  split; [ | split; [ | split; [ | split; [ | split; [ | split]]]]].
  - intros Hk r' Hw.
    destruct (JS.writeProp host (VirtualReference.attributes r) k v)
      as [a | e] eqn:Ew; cbn [JS.bind] in Hw; [ | discriminate].
    injection Hw as <-. cbn [VirtualReference.attributes].
    apply String.eqb_neq in Hk.
    destruct (writeProp_own host _ _ _ _ Hk Ew) as [Ho Hp].
    assert (Hl : JS.own a !! k' = JS.own (VirtualReference.attributes r) !! k')
      by (rewrite Ho; now apply lookup_insert_ne).
    now rewrite (readProp_other host _ _ k' Hl Hp),
      (inOperator_other host _ _ k' Hl Hp).
  - destruct (D (VirtualReference.attributes r)) as [Hl Hp].
    apply (readProp_other host _ _ k' Hl Hp).
  - destruct (D (VirtualReference.attributes r)) as [Hl Hp].
    now rewrite (inOperator_other host _ _ k' Hl Hp).
  - intros r' Hw.
    destruct (JS.writeProp host (VirtualReference.classNames r) k
                (JS.VBool true)) as [c | e] eqn:Ew; cbn [JS.bind] in Hw;
      [ | discriminate].
    injection Hw as <-. cbn [VirtualReference.classNames].
    destruct (writeProp_true host _ _ _ Ew) as [Hp [Ho | [_ ->]]];
      [ | reflexivity].
    assert (Hl : JS.own c !! k' = JS.own (VirtualReference.classNames r) !! k')
      by (rewrite Ho; now apply lookup_insert_ne).
    now rewrite (inOperator_other host _ _ k' Hl Hp).
  - destruct (D (VirtualReference.classNames r)) as [Hl Hp].
    now rewrite (inOperator_other host _ _ k' Hl Hp).
  - intros c. split; [ | reflexivity].
    intros r' Hw.
    destruct (JS.writeProp host (VirtualReference.attributes r) k v)
      as [a | e]; cbn [JS.bind] in Hw; [ | discriminate].
    now injection Hw as <-.
  - intros a. split; [ | repeat split].
    intros r' Hw.
    destruct (JS.writeProp host (VirtualReference.classNames r) k
                (JS.VBool true)) as [c | e]; cbn [JS.bind] in Hw;
      [ | discriminate].
    now injection Hw as <-.
Qed.

Lemma virtual_reference_operations_are_independent_witness :
  let host := {| JS.builtin := fun _ _ => None;
                 JS.assignable := fun _ _ => true |} in
  let r := VirtualReference.polyfillElementPrototypeProperties
             {| VirtualReference.po_attributes :=
                  Some (JS.literal (<["title"%string := JS.VStr "Hello"]> ∅))
             |} in
  JS.bind (VirtualReference.removeAttribute "data-tippy" r)
    (VirtualReference.getAttribute host "title")
  = JS.Ok (JS.VStr "Hello").
Proof.
  intros host r.
  destruct (virtual_reference_operations_are_independent host r
              "data-tippy"%string "title"%string (JS.VStr "")
              ltac:(discriminate)) as (_ & H & _).
  rewrite H. reflexivity.
Defined.

(** ** Options evaluated on a shared object *)
Section EvaluateFacts.
Import JS Evaluate.
Variable Ref : Type.
Variable call : string -> option Ref -> value.

Lemma evaluateOptions_html_function reference options f :
  options !! "html"%string = Some (VFun f) ->
  evaluateOptions Ref call reference options !! "html"%string
  = Some (call f (Some reference)).
Proof.
  intros H. unfold evaluateOptions.
  set (o1 := if truthy _ then _ else options).
  assert (H1 : o1 !! "html"%string = Some (VFun f)).
  { subst o1. destruct (truthy _); [ | exact H].
    now rewrite lookup_insert_ne by discriminate. }
  set (o2 := match getProp o1 "appendTo" with VFun _ => _ | _ => o1 end).
  assert (H2 : o2 !! "html"%string = Some (VFun f)).
  { subst o2. destruct (getProp o1 "appendTo"); try exact H1.
    now rewrite lookup_insert_ne by discriminate. }
  unfold getProp at 1. rewrite H2. apply lookup_insert_eq.
Qed.

Lemma evaluateOptions_html_value reference options v :
  options !! "html"%string = Some v -> isFunction v = false ->
  evaluateOptions Ref call reference options !! "html"%string = Some v.
Proof.
  intros H Hv. unfold evaluateOptions.
  set (o1 := if truthy _ then _ else options).
  assert (H1 : o1 !! "html"%string = Some v).
  { subst o1. destruct (truthy _); [ | exact H].
    now rewrite lookup_insert_ne by discriminate. }
  set (o2 := match getProp o1 "appendTo" with VFun _ => _ | _ => o1 end).
  assert (H2 : o2 !! "html"%string = Some v).
  { subst o2. destruct (getProp o1 "appendTo"); try exact H1.
    now rewrite lookup_insert_ne by discriminate. }
  unfold getProp at 1. rewrite H2.
  destruct v; try exact H2. discriminate Hv.
Qed.

Lemma sharedOptions_html_value els : forall config v,
  config !! "html"%string = Some v -> isFunction v = false ->
  Forall (fun o : gmap string value => o !! "html"%string = Some v)
    (fst (sharedOptions Ref call config els))
  /\ snd (sharedOptions Ref call config els) !! "html"%string = Some v
  /\ length (fst (sharedOptions Ref call config els)) = length els.
Proof.
  induction els as [| r rest IH]; intros config v H Hv; cbn [sharedOptions].
  - cbn. repeat split; [constructor | exact H].
  - pose proof (evaluateOptions_html_value r config v H Hv) as H1.
    destruct (IH _ v H1 Hv) as (A & B & C).
    destruct (sharedOptions Ref call (evaluateOptions Ref call r config) rest)
      as [seen final].
    cbn [fst snd length] in *. split; [now constructor | ].
    split; [exact B | now rewrite C].
Qed.

Lemma evaluateOptions_utils_html reference options f :
  options !! "html"%string = Some (VFun f) ->
  evaluateOptions_utils Ref call reference options !! "html"%string
  = Some (call f (Some reference)).
Proof.
  intros H. unfold evaluateOptions_utils. cbv zeta.
  unfold getProp. rewrite H.
  apply lookup_union_Some_l. apply lookup_insert_eq.
Qed.
End EvaluateFacts.

(** X18.  In performance mode every tooltip gets the content of the
    first reference.  When [options.html] is a function whose result for
    the first reference is not a function, [createTooltips] of
    [Framework.js] with [performance] set evaluates it once: the first
    reference replaces the function by its result in the shared options
    object, and every reference, the first and all later ones, reads that
    result, which is also what the object holds at the end.  The
    [evaluateOptions] of [utils.js], which leaves its argument as it
    was, gives every reference the result for that reference. *)
Theorem shared_options_are_evaluated_once :
  forall (Ref : Type) (call : string -> option Ref -> JS.value)
         (config : gmap string JS.value) (f : string)
         (first : Ref) (rest : list Ref),
    config !! "html"%string = Some (JS.VFun f) ->
    Evaluate.isFunction (call f (Some first)) = false ->
    let r := Evaluate.sharedOptions Ref call config (first :: rest) in
    Forall (fun o : gmap string JS.value =>
              o !! "html"%string = Some (call f (Some first))) (fst r)
    /\ length (fst r) = S (length rest)
    /\ snd r !! "html"%string = Some (call f (Some first))
    /\ forall reference,
         Evaluate.evaluateOptions_utils Ref call reference config
           !! "html"%string
         = Some (call f (Some reference)).
Proof.
  intros Ref call config f first rest Hf Hv r. subst r.
  cbn [Evaluate.sharedOptions].
  pose proof (evaluateOptions_html_function Ref call first config f Hf) as H1.
  destruct (sharedOptions_html_value Ref call rest _ _ H1 Hv) as (A & B & C).
  destruct (Evaluate.sharedOptions Ref call
              (Evaluate.evaluateOptions Ref call first config) rest)
    as [seen final].
  cbn [fst snd length] in *.
  split; [now constructor | ]. split; [now rewrite C | ].
  split; [exact B | ].
  intros reference. now apply evaluateOptions_utils_html.
Qed.

Lemma shared_options_are_evaluated_once_witness :
  let call (f : string) (r : option nat) : JS.value :=
    match r with
    | Some n => JS.VNum (JS.Fin (Z.of_nat n) 0)
    | None => JS.VUndefined
    end in
  let config : gmap string JS.value :=
    <["html"%string := JS.VFun "template"]> ∅ in
  Forall (fun o : gmap string JS.value =>
            o !! "html"%string = Some (JS.VNum (JS.Fin 1 0)))
    (fst (Evaluate.sharedOptions nat call config [1%nat; 2%nat; 3%nat])).
Proof.
  intros call config.
  destruct (shared_options_are_evaluated_once nat call config "template"
              1%nat [2%nat; 3%nat] ltac:(reflexivity) ltac:(reflexivity))
    as (H & _).
  exact H.
Defined.

(** ** Touch and mouse input *)
Section InputFacts.
Import InputDetection.

Lemma alternating_snoc l : forall first x,
  alternating first (l ++ [x])
  = alternating first l
    && input_eqb x (if Nat.even (length l) then first else other first).
Proof.
  induction l as [| y l IH]; intros first x.
  - cbn. now rewrite andb_true_r.
  - cbn [app alternating length]. rewrite IH, <- andb_assoc. f_equal.
    f_equal. rewrite Nat.even_succ, <- Nat.negb_even.
    destruct (Nat.even (length l)); cbn; [reflexivity | ].
    now destruct first.
Qed.

Lemma Coherent_touchHandler env s :
  Coherent env s -> Coherent env (touchHandler env s).
Proof.
  intros H. pose proof H as (A & B & C & D). unfold touchHandler.
  destruct (usingTouch s) eqn:Hu; [exact H | ]. clear H.
  unfold Coherent. cbn [notified usingTouch listening touchClass].
  rewrite alternating_snoc, A, length_app. cbn [length].
  rewrite Nat.add_1_r, Nat.odd_succ.
  symmetry in B. rewrite <- Nat.negb_even in B.
  apply negb_false_iff in B. rewrite B. cbn [andb input_eqb].
  repeat split.
  rewrite D. destruct (iOS env); [reflexivity | ]. cbn.
  reflexivity.
Qed.

Lemma Coherent_mousemoveHandler env now s :
  listening s = true ->
  Coherent env s -> Coherent env (mousemoveHandler env now s).
Proof.
  intros Hl H. pose proof H as (A & B & C & D).
  unfold mousemoveHandler. cbv zeta.
  destruct (match time s with Some t => now - t <? 20 | None => false end);
    [ | exact H].
  unfold Coherent. cbn [notified usingTouch listening touchClass].
  rewrite alternating_snoc, A, length_app. cbn [length].
  rewrite Nat.add_1_r, Nat.odd_succ.
  pose proof (C Hl) as Hu. rewrite Hu in B. symmetry in B.
  rewrite <- Nat.negb_even in B. apply negb_true_iff in B.
  rewrite B. cbn [andb input_eqb other].
  repeat split; [discriminate | ].
  rewrite D. destruct (iOS env); cbn; [ | reflexivity].
  destruct (length (notified s)); [discriminate B | reflexivity].
Qed.

Lemma Coherent_dispatch env s e :
  Coherent env s -> Coherent env (dispatch env s e).
Proof.
  intros H. destruct e as [| now]; cbn [dispatch].
  - now apply Coherent_touchHandler.
  - destruct (listening s) eqn:Hl; [ | exact H].
    now apply Coherent_mousemoveHandler.
Qed.
End InputFacts.

(** X19.  Detection of the input device.  Whatever touches and mouse
    movements the page sees after [bindEventListeners]:
    [browser.onUserInputChange] is called with 'touch' and 'mouse' in
    turn, starting with 'touch'; [browser.usingTouch] is true exactly when
    the last call was with 'touch'; the [mousemove] handler is bound only
    while touch is in use; and the body carries the class [tippy-touch]
    exactly on iOS once a touch was seen (there it is never removed). *)
Theorem input_changes_alternate :
  forall (env : InputDetection.Env) (events : list InputDetection.Event),
    let s := fold_left (InputDetection.dispatch env) events
               InputDetection.initial in
    InputDetection.alternating InputDetection.touch
      (InputDetection.notified s) = true
    /\ InputDetection.usingTouch s
       = Nat.odd (length (InputDetection.notified s))
    /\ (InputDetection.listening s = true ->
        InputDetection.usingTouch s = true)
    /\ InputDetection.touchClass s
       = InputDetection.iOS env
         && negb (Nat.eqb (length (InputDetection.notified s)) 0).
Proof.
  intros env events.
  assert (H0 : InputDetection.Coherent env InputDetection.initial).
  { unfold InputDetection.Coherent. cbn. repeat split;
      [discriminate | now rewrite andb_false_r]. }
  revert H0. generalize InputDetection.initial.
  induction events as [| e rest IH]; intros s H; cbn [fold_left]; [exact H | ].
  apply IH. now apply Coherent_dispatch.
Qed.

(** ** The position updates of a sticky tooltip *)
Section StickyFacts.
Import Instance Lifecycle Laws.

Lemma runFrame_frames f s :
  frames (sched (runFrame f s))
  = frames (sched s)
    ++ (if isUpdatePosition f && visible (state s)
        then [FrUpdatePosition] else []).
Proof.
  destruct f; cbn [runFrame isUpdatePosition andb].
  - cbn. now rewrite app_nil_r.
  - unfold updatePosition. destruct (visible (state s)); cbn;
      [reflexivity | now rewrite app_nil_r].
Qed.

Lemma fold_runFrame_frames l : forall s,
  frames (sched (fold_left (fun s f => runFrame f s) l s))
  = frames (sched s)
    ++ (if visible (state s) then List.filter isUpdatePosition l else []).
Proof.
  induction l as [| f l IH]; intros s; cbn [fold_left].
  - destruct (visible (state s)); cbn; now rewrite app_nil_r.
  - rewrite IH, runFrame_frames.
    destruct (steady_runFrame f s) as (E & _). rewrite E.
    destruct (visible (state s)); rewrite ?andb_true_r, ?andb_false_r.
    + destruct f; cbn [List.filter isUpdatePosition];
        rewrite <- app_assoc; reflexivity.
    + rewrite <- app_assoc; reflexivity.
Qed.
End StickyFacts.

(** X20.  The position updates of a sticky tooltip.  Each update that is
    queued for an animation frame queues itself again for the next frame
    while the instance is visible, exactly once; so the updates started
    by several calls of [show] all keep running side by side.  Once the
    instance is hidden when a frame runs, none of them is queued again:
    the frame queue is empty afterwards. *)
Theorem sticky_updates_follow_visibility :
  forall s : Instance.Tippy,
    Instance.frames (Instance.sched (Instance.animationFrame s))
    = (if Instance.visible (Instance.state s)
       then List.filter Laws.isUpdatePosition
              (Instance.frames (Instance.sched s))
       else [])
    /\ Instance.visible (Instance.state (Instance.animationFrame s))
       = Instance.visible (Instance.state s).
Proof.
  intros s. split.
  - unfold Instance.animationFrame. rewrite fold_runFrame_frames. reflexivity.
  - now destruct (steady_animationFrame s) as (-> & _).
Qed.

(** ** [show] runs to its end *)
Section ShowingFacts.
Import Instance Lifecycle Laws.






End ShowingFacts.



(** ** The handlers of the document *)
Section PageFacts.
Import Instance Lifecycle Laws Page.


Lemma hideAllPoppers_from_throws before : forall i exclude e after,
  (forall b, In b before -> mounted (popper (tip b)) = true ->
             hasTippy (reference (tip b)) = true) ->
  mounted (popper (tip e)) = true ->
  hasTippy (reference (tip e)) = false ->
  snd (hideAllPoppers_from i exclude (before ++ e :: after))
  = Some (JS.TypeError "tippy is undefined")
  /\ skipn (length before)
       (fst (hideAllPoppers_from i exclude (before ++ e :: after)))
     = e :: after.
Proof.
  induction before as [| b before IH]; intros i exclude e after Hok Hm Ht.
  - cbn [app hideAllPoppers_from length skipn]. rewrite Hm, Ht. now split.
  - destruct (IH (S i) exclude e after) as [A B]; try assumption.
    { intros x Hx. apply Hok. now right. }
    cbn [app hideAllPoppers_from].
    destruct (mounted (popper (tip b))) eqn:Hb.
    + rewrite (Hok b (or_introl eq_refl) Hb). cbn [negb].
      destruct (hideAllPoppers_from (S i) exclude (before ++ e :: after))
        as [rest' err].
      cbn [fst snd length skipn] in *. now split.
    + destruct (hideAllPoppers_from (S i) exclude (before ++ e :: after))
        as [rest' err].
      cbn [fst snd length skipn] in *. now split.
Qed.

Lemma destroy_leaves_popper s :
  destroyed (state s) = false ->
  mounted (popper (destroy s)) = mounted (popper s)
  /\ hasTippy (reference (destroy s)) = false.
Proof.
  intros Hd. split.
  - unfold destroy. rewrite Hd. unfold destroy_cleanup, hide.
    destruct (visible (state s)); [ | reflexivity].
    now destruct (_ || _).
  - unfold destroy. rewrite Hd. now rewrite destroy_cleanup_reference.
Qed.
End PageFacts.

(** X22.  A click while a destroyed tooltip is still in the document
    throws.  [destroy] deletes [reference._tippy] at once but leaves the
    popper in the document (until the deferred continuation of [hide]
    removes it, or for good when the instance was disabled).  While it is
    there, [hideAllPoppers] of [Framework.js] reads [options] of
    [undefined] when it reaches that popper: it throws a [TypeError], and
    the poppers after it in the document are not hidden. *)
Theorem hideAllPoppers_throws_after_destroy :
  forall (before after : list Page.Entry) (s : Instance.Tippy)
         (x : Page.Extra) (w : nat) (exclude : option nat),
    Instance.destroyed (Instance.state s) = false ->
    Instance.mounted (Instance.popper s) = true ->
    (forall b, In b before ->
               Instance.mounted (Instance.popper (Page.tip b)) = true ->
               Instance.hasTippy (Instance.reference (Page.tip b)) = true) ->
    let e := {| Page.tip := Instance.destroy s; Page.extra := x;
                Page.watchers := w |} in
    let r := Page.hideAllPoppers exclude (before ++ e :: after) in
    snd r = Some (JS.TypeError "tippy is undefined")
    /\ skipn (length before) (fst r) = e :: after
    /\ Page.clickHandler false Page.NotElement (before ++ e :: after)
       = Page.hideAllPoppers None (before ++ e :: after).
Proof.
  intros before after s x w exclude Hd Hm Hok e r.
  destruct (destroy_leaves_popper s Hd) as [D1 D2].
  destruct (hideAllPoppers_from_throws before 0 exclude e after Hok) as [A B].
  { subst e. cbn. now rewrite D1. }
  { subst e. cbn. exact D2. }
  split; [exact A | split; [exact B | reflexivity]].
Qed.

Lemma hideAllPoppers_throws_after_destroy_witness :
  let shown := Instance.show None
                 (Instance.newTippy
                    (Instance.optionsWith (Instance.Num 0) None)
                    Instance.attachedReference [] Instance.desktopBrowser) in
  let x := {| Page.hideOnClick := Page.HocTrue; Page.trigger := "mouseenter";
              Page.interactive := false; Page.multiple := false;
              Page.touchHold := false;
              Page.border := {| Geometry.interactiveBorder := 2;
                                Geometry.distance := 10 |} |} in
  let live := {| Page.tip := shown; Page.extra := x; Page.watchers := 0 |} in
  let gone := {| Page.tip := Instance.destroy shown; Page.extra := x;
                 Page.watchers := 0 |} in
  snd (Page.hideAllPoppers None ([live] ++ gone :: [live]))
  = Some (JS.TypeError "tippy is undefined").
Proof.
  intros shown x live gone.
  destruct (hideAllPoppers_throws_after_destroy [live] [live] shown x 0%nat
              None ltac:(reflexivity) ltac:(reflexivity)) as (H & _).
  - intros b [<- | []] _. reflexivity.
  - exact H.
Defined.



(** ** The listeners of the reference *)
Section ListenerFacts.
Import Instance Lifecycle Laws Page.









End ListenerFacts.



(** ** The interactive tooltip and the cursor *)
Section HoverFacts.
Import Instance Lifecycle Laws Page.






End HoverFacts.



(** X26.  A destroyed instance hears nothing.  When the listeners on the
    reference are those of the instance, then once [destroy] has been
    called, whatever was done before and afterwards, an event of any type
    dispatched on the reference runs no listener: the instance is as it
    was and [reference.click()] is not called. *)
Theorem destroyed_instance_hears_nothing :
  forall (env : Page.Env) (d : Page.DomEvent) (e : Page.Entry)
         (before after : list Instance.Action),
    Instance.destroyed (Instance.state (Page.tip e)) = false ->
    (forall l, In l (Instance.registered (Instance.reference (Page.tip e))) ->
               Laws.isListenerOf (Instance.listeners (Page.tip e)) l = true) ->
    let e' := Page.with_tip e
                (fold_left Instance.perform
                   (before ++ Instance.DoDestroy :: after) (Page.tip e)) in
    Page.listenersFor (Instance.ev_type (Page.dom d)) e' = []
    /\ Page.dispatchOnReference env d e' = (e', 0%nat).
Proof.
  intros env d e before after Hd Hown e'.
  destruct (reference_after_destroy (Page.tip e) before after Hd) as [_ E].
  cbv zeta in E.
  destruct (withAria_fields _ _ E) as (_ & _ & _ & _ & _ & _ & Er).
  assert (Hl : Page.listenersFor (Instance.ev_type (Page.dom d)) e' = []).
  { unfold Page.listenersFor. subst e'. cbn [Page.with_tip Page.tip].
    rewrite Er. unfold Laws.cleaned. cbn [Instance.registered].
    set (own := Instance.listeners (Page.tip e)) in *.
    induction (Instance.registered (Instance.reference (Page.tip e)))
      as [| l ls IH]; [reflexivity | ].
    cbn [List.filter]. rewrite (Hown l) by now left. cbn [negb].
    apply IH. intros x Hx. apply Hown. now right. }
  split; [exact Hl | ].
  unfold Page.dispatchOnReference. now rewrite Hl.
Qed.

Lemma destroyed_instance_hears_nothing_witness :
  let l := {| Triggers.event := "click"%string;
              Triggers.handler := Triggers.handleTrigger |} in
  let r := {| Instance.refObj := false; Instance.inDocument := true;
              Instance.title := None;
              Instance.originalTitle := Some "Hello"%string;
              Instance.dataTippy := true; Instance.hasTippy := true;
              Instance.ariaDescribedby := false;
              Instance.registered := [l] |} in
  let x := {| Page.hideOnClick := Page.HocTrue; Page.trigger := "click";
              Page.interactive := false; Page.multiple := false;
              Page.touchHold := false;
              Page.border := {| Geometry.interactiveBorder := 2;
                                Geometry.distance := 10 |} |} in
  let e := {| Page.tip := Instance.newTippy
                            (Instance.optionsWith (Instance.Num 0) None)
                            r [l] Instance.desktopBrowser;
              Page.extra := x; Page.watchers := 0 |} in
  let env := {| Page.supportsTouch := false; Page.iOS := false;
                Page.referenceHasClick := false |} in
  let click := {| Page.dom := {| Instance.ev_type := "click" |};
                  Page.relatedInPopper := None |} in
  let e' := Page.with_tip e
              (fold_left Instance.perform
                 ([] ++ Instance.DoDestroy :: []) (Page.tip e)) in
  Page.dispatchOnReference env click e' = (e', 0%nat).
Proof.
  intros l r x e env click e'.
  destruct (destroyed_instance_hears_nothing env click e [] []
              ltac:(reflexivity)) as (_ & H).
  - intros y [<- | []]. reflexivity.
  - exact H.
Defined.
